(** * Codex agent session orchestration: router and chat transport

    A shallow embedding of the Codex tRPC router (provider session pool,
    run registry, turn executor, login sessions) and of the renderer-side
    ACP chat transport (auth-error recovery), with the properties of the
    orchestration layer stated and proved over it.

    Conventions of the embedding
    - JavaScript strings are Rocq [string]s.  [trim] strips the ASCII
      white-space characters and [toLowerCase] lowers the ASCII letters;
      the authentication hints are ASCII text.
    - Values typed [any] in the source (stored messages, stream chunks,
      thrown errors) are terms of [value]; numbers are integers.
    - The module-level [Map]s are [gmap]s inside an explicit state.  Each
      effect on an object outside the maps (abort, provider cleanup,
      provider construction, database write), and each write to a map,
      appends an [event] to the state's chronological trace.
    - The text of the [messages] column is represented by the value
      [JSON.parse] reads from it, and [JSON.stringify] followed by
      [JSON.parse] by [jsonify].
    - What lies outside the router and is fixed for a whole execution
      (digest, binary path, environment, UUID source) is a field of
      [Externals]; what the collaborators do during one turn (tool
      snapshot, provider construction, the UI message stream) is a
      [TurnScript].
    - One subscription of [chat] is three procedures: [chatSubscribe]
      (the synchronous head), [chatBody] (the asynchronous body, run to
      its end) and [chatTeardown] (the unsubscribe function). *)

From Stdlib Require Import Ascii String.
From stdpp Require Import gmap strings list fin_maps pretty.

Local Open Scope Z_scope.
Set Warnings "-register-all".

(* ===================================================================== *)
(** ** JavaScript string primitives                                      *)
(* ===================================================================== *)

Module JsString.

(** [Boolean(s)] for a string: the empty string is the only falsy one. *)
Definition nonempty (s : string) : bool :=
  match s with EmptyString => false | String _ _ => true end.

Definition is_upper (a : ascii) : bool :=
  let n := nat_of_ascii a in (Nat.leb 65 n && Nat.leb n 90)%bool.

Definition lower_ascii (a : ascii) : ascii :=
  if is_upper a then ascii_of_nat (nat_of_ascii a + 32) else a.

(** [String.prototype.toLowerCase]. *)
Fixpoint toLowerCase (s : string) : string :=
  match s with
  | EmptyString => EmptyString
  | String a s' => String (lower_ascii a) (toLowerCase s')
  end.

(** [String.prototype.trimStart] / [trimEnd] / [trim]. *)
Fixpoint trimStart (s : string) : string :=
  match s with
  | EmptyString => EmptyString
  | String a s' => if Ascii.is_space a then trimStart s' else s
  end.

Fixpoint trimEnd (s : string) : string :=
  match s with
  | EmptyString => EmptyString
  | String a s' =>
      let t := trimEnd s' in
      if (Ascii.is_space a && negb (nonempty t))%bool
      then EmptyString else String a t
  end.

Definition trim (s : string) : string := trimEnd (trimStart s).

(** [s.includes(hint)]. *)
Fixpoint includes (hint s : string) : bool :=
  (String.prefix hint s
   || match s with
      | EmptyString => false
      | String _ s' => includes hint s'
      end)%bool.

(** [s.split("/").pop()]: the text after the last slash. *)
Fixpoint lastSegment (s : string) : string :=
  match s with
  | EmptyString => EmptyString
  | String a s' =>
      if (Ascii.eqb a "/"%char)
      then lastSegment s'
      else if includes "/" s' then lastSegment s' else s
  end.

(** [xs.join(sep)]. *)
Fixpoint join (sep : string) (xs : list string) : string :=
  match xs with
  | [] => ""
  | [x] => x
  | x :: rest => x +:+ sep +:+ join sep rest
  end.

End JsString.

(* ===================================================================== *)
(** ** Dynamically typed values                                           *)
(* ===================================================================== *)

Module Js.
Import JsString.

(** A JavaScript value as the router sees it.  [VError name message
    extra] is an [Error] instance with additional own properties. *)
Inductive value : Type :=
| VUndefined
| VNull
| VBool (b : bool)
| VNum (n : Z)
| VStr (s : string)
| VArr (items : list value)
| VObj (fields : list (string * value))
| VError (name message : string) (extra : list (string * value)).

Fixpoint assoc (k : string) (fields : list (string * value)) : value :=
  match fields with
  | [] => VUndefined
  | (k', v) :: rest => if String.eqb k k' then v else assoc k rest
  end.

(** [v?.k]: property read with optional chaining. *)
Definition get (k : string) (v : value) : value :=
  match v with
  | VObj fields => assoc k fields
  | VError name message extra =>
      if String.eqb k "message" then VStr message
      else if String.eqb k "name" then VStr name
      else assoc k extra
  | _ => VUndefined
  end.

(** Assignment of one key in an object literal built by spread:
    an existing key keeps its position, a new one goes last. *)
Fixpoint setField (k : string) (v : value) (fields : list (string * value))
  : list (string * value) :=
  match fields with
  | [] => [(k, v)]
  | (k', v') :: rest =>
      if String.eqb k k' then (k, v) :: rest
      else (k', v') :: setField k v rest
  end.

(** Own enumerable properties, as object spread copies them. *)
Definition ownFields (v : value) : list (string * value) :=
  match v with
  | VObj fields => fields
  | VError _ _ extra => extra
  | _ => []
  end.

(** [Boolean(v)]. *)
Definition truthy (v : value) : bool :=
  match v with
  | VUndefined | VNull => false
  | VBool b => b
  | VNum n => negb (n =? 0)
  | VStr s => nonempty s
  | VArr _ | VObj _ | VError _ _ _ => true
  end.

(** [a || b]. *)
Definition or_else (a b : value) : value := if truthy a then a else b.

(** [String(v)]. *)
Fixpoint toString (v : value) : string :=
  match v with
  | VUndefined => "undefined"
  | VNull => "null"
  | VBool true => "true"
  | VBool false => "false"
  | VNum n => pretty n
  | VStr s => s
  | VArr items =>
      join "," (map (fun x => match x with
                              | VUndefined | VNull => ""
                              | _ => toString x
                              end) items)
  | VObj _ => "[object Object]"
  | VError name message _ =>
      if nonempty name
      then (if nonempty message then name +:+ ": " +:+ message else name)
      else message
  end.

(** [typeof v === "string" ? v : undefined] as an option. *)
Definition asString (v : value) : option string :=
  match v with VStr s => Some s | _ => None end.

(** [JSON.parse(JSON.stringify(v))]: what survives a round trip through
    the transcript column. *)
Fixpoint jsonify (v : value) : value :=
  let fix props (fields : list (string * value)) : list (string * value) :=
    match fields with
    | [] => []
    | (k, VUndefined) :: rest => props rest
    | (k, x) :: rest => (k, jsonify x) :: props rest
    end in
  match v with
  | VArr items =>
      VArr (map (fun x => match x with
                          | VUndefined => VNull
                          | _ => jsonify x
                          end) items)
  | VObj fields => VObj (props fields)
  | VError _ _ extra => VObj (props extra)
  | _ => v
  end.

(** The two element-wise passes of [jsonify], by name. *)
Definition jsonItem (x : value) : value :=
  match x with VUndefined => VNull | _ => jsonify x end.

Fixpoint jsonProps (fields : list (string * value))
  : list (string * value) :=
  match fields with
  | [] => []
  | (k, VUndefined) :: rest => jsonProps rest
  | (k, x) :: rest => (k, jsonify x) :: jsonProps rest
  end.

End Js.

(* ===================================================================== *)
(** ** The Codex router: data model                                       *)
(* ===================================================================== *)

Module Codex.
Import JsString Js.

Definition AUTH_HINTS : list string :=
  [ "not logged in"; "authentication required"; "auth required";
    "login required"; "missing credentials"; "no credentials";
    "unauthorized"; "forbidden"; "codex login"; "401"; "403" ].

Definition DEFAULT_CODEX_MODEL : string := "gpt-5.3-codex/high".

Record AuthConfig := { apiKey : string }.

Inductive CodexMcpServerForSession :=
| McpStdio (name command : string) (args : list string)
           (env : list (string * string))
| McpHttp (name url : string) (headers : list (string * string)).

(** The part of [CodexMcpSnapshot] the turn executor reads. *)
Record CodexMcpSnapshot := {
  mcpServersForSession : list CodexMcpServerForSession;
  fingerprint : string;
  toolsResolved : bool;
}.

(** The options object handed to [createACPProvider]. *)
Record ProviderConfig := {
  command : string;
  env : gmap string string;
  authMethodId : option string;
  session_cwd : string;
  session_mcpServers : list CodexMcpServerForSession;
  existingSessionId : option string;
  persistSession : bool;
}.

(** An [ACPProvider] instance: its identity and what it was built from. *)
Record ACPProvider := {
  provider_id : nat;
  provider_config : ProviderConfig;
}.

Record CodexProviderSession := {
  provider : ACPProvider;
  cwd : string;
  authFingerprint : option string;
  mcpFingerprint : string;
}.

Record ActiveCodexStream := {
  runId : string;
  controller : nat;
}.

Record ImageAttachment := {
  base64Data : string;
  mediaType : string;
  filename : option string;
}.

Inductive Mode := PlanMode | AgentMode.

(** The validated input of [codexRouter.chat].  An absent
    [forceNewSession] is [false], absent [images] the empty list. *)
Record ChatInput := {
  in_subChatId : string;
  in_chatId : string;
  in_runId : string;
  in_prompt : string;
  in_model : option string;
  in_cwd : string;
  in_projectPath : option string;
  in_mode : Mode;
  in_sessionId : option string;
  in_forceNewSession : bool;
  in_images : list ImageAttachment;
  in_authConfig : option AuthConfig;
}.

(** The closure state of one subscription: the [isActive] flag, what
    reached the subscriber through [emit.next], whether [emit.complete]
    was called, and whether the subscriber's [next] throws. *)
Record Observer := {
  isActive : bool;
  emitted : list value;
  completed : bool;
  sinkThrows : bool;
}.

(** Effects on objects outside the maps, and the map writes themselves,
    in the order the code performs them. *)
Inductive event :=
| EvAbort (ctl : nat)
| EvProviderCleanup (p : nat)
| EvProviderCreate (p : nat) (cfg : ProviderConfig)
| EvSessionsDelete (subChatId : string)
| EvSessionsSet (subChatId : string) (p : nat)
| EvStreamsDelete (subChatId : string)
| EvStreamsSet (subChatId run : string) (ctl : nat)
| EvDbUpdate (subChatId : string) (messages : list value)
| EvStreamText (p : nat) (modelId : string) (ctl : nat)
| EvLog (what : string).

Record State := {
  providerSessions : gmap string CodexProviderSession;
  activeStreams : gmap string ActiveCodexStream;
  observers : gmap nat Observer;
  (* the [messages] column of [subChats], as [JSON.parse] reads it
      ([None]: null, empty or unparseable text) *)
  subChats : gmap string (option value);
  (* allocation counter for object identities and UUIDs *)
  nextId : nat;
  trace : list event;
}.

(** What lies outside the router. *)
Record Externals := {
  sha256Hex : string → string;
  resolveCodexAcpBinaryPath : string;
  (* [process.env] overlaid with the shell environment *)
  shellEnv : gmap string string;
  (* [getCodexMcpFingerprint([])] *)
  emptyMcpFingerprint : string;
  randomUUID : nat → string;
}.

Definition set_providerSessions f (s : State) : State :=
  {| providerSessions := f (providerSessions s);
     activeStreams := activeStreams s; observers := observers s;
     subChats := subChats s; nextId := nextId s; trace := trace s |}.
Definition set_activeStreams f (s : State) : State :=
  {| providerSessions := providerSessions s;
     activeStreams := f (activeStreams s); observers := observers s;
     subChats := subChats s; nextId := nextId s; trace := trace s |}.
Definition set_observers f (s : State) : State :=
  {| providerSessions := providerSessions s;
     activeStreams := activeStreams s; observers := f (observers s);
     subChats := subChats s; nextId := nextId s; trace := trace s |}.
Definition set_subChats f (s : State) : State :=
  {| providerSessions := providerSessions s;
     activeStreams := activeStreams s; observers := observers s;
     subChats := f (subChats s); nextId := nextId s; trace := trace s |}.
Definition set_nextId f (s : State) : State :=
  {| providerSessions := providerSessions s;
     activeStreams := activeStreams s; observers := observers s;
     subChats := subChats s; nextId := f (nextId s); trace := trace s |}.
Definition log (e : event) (s : State) : State :=
  {| providerSessions := providerSessions s;
     activeStreams := activeStreams s; observers := observers s;
     subChats := subChats s; nextId := nextId s;
     trace := trace s ++ [e] |}.

(** *** A state-and-exception monad for the procedures *)

Inductive result (A : Type) :=
| Ok (a : A)
| Throw (error : value).
Arguments Ok {A} a.
Arguments Throw {A} error.

Definition M (A : Type) : Type := State → State * result A.

#[export] Instance M_ret : MRet M := λ A a s, (s, Ok a).
#[export] Instance M_bind : MBind M := λ A B f m s,
  match m s with
  | (s', Ok a) => f a s'
  | (s', Throw e) => (s', Throw e)
  end.

Definition throw {A} (e : value) : M A := λ s, (s, Throw e).
Definition gets {A} (f : State → A) : M A := λ s, (s, Ok (f s)).
Definition modify (f : State → State) : M unit := λ s, (f s, Ok tt).
Definition emitEvent (e : event) : M unit := modify (log e).

(** [try { body } catch (error) { handler }] *)
Definition tryCatch {A} (body : M A) (handler : value → M A) : M A :=
  λ s, match body s with
       | (s', Ok a) => (s', Ok a)
       | (s', Throw e) => handler e s'
       end.

(** [try { body } finally { cleanup }] *)
Definition tryFinally {A} (body : M A) (cleanup : M unit) : M A :=
  λ s, match body s with
       | (s', r) =>
           match cleanup s' with
           | (s'', Ok _) => (s'', r)
           | (s'', Throw e) => (s'', Throw e)
           end
       end.

Definition when (b : bool) (m : M unit) : M unit :=
  if b then m else mret tt.

(** Allocation of a fresh object identity. *)
Definition fresh : M nat :=
  λ s, (set_nextId S s, Ok (nextId s)).

(* ------------------------------------------------------------------- *)
(** *** Error normalisation and classification *)

(** [v === "literal"] *)
Definition isStr (v : value) (lit : string) : bool :=
  match v with VStr t => String.eqb t lit | _ => false end.

Record CodexError := {
  message : string;
  code : option string;
}.

Definition extractCodexError (error : value) : CodexError :=
  let message :=
    or_else (or_else (or_else (or_else
      (get "message" (get "data" error))
      (get "errorText" error))
      (get "message" error))
      (get "error" error))
      (VStr (toString error)) in
  let code := or_else (get "code" (get "data" error)) (get "code" error) in
  {| message := match message with VStr m => m | m => toString m end;
     code := asString code |}.

(** The parameter object of [isCodexAuthError]: both fields may be
    absent or null. *)
Record AuthErrorParams := {
  ae_message : option string;
  ae_code : option string;
}.

Definition searchableText (params : AuthErrorParams) : string :=
  toLowerCase (default "" (ae_code params) +:+ " "
               +:+ default "" (ae_message params)).

Definition isCodexAuthError (params : AuthErrorParams) : bool :=
  existsb (λ hint, includes hint (searchableText params)) AUTH_HINTS.

Definition asParams (e : CodexError) : AuthErrorParams :=
  {| ae_message := Some (message e); ae_code := code e |}.

(* ------------------------------------------------------------------- *)
(** *** Stored messages *)

Definition nl : string := String "010"%char "".

Definition parseStoredMessages (raw : option value) : list value :=
  match raw with
  | Some (VArr items) => items
  | _ => []
  end.

(** One iteration of the loop over [message.parts]; the accumulator is
    [(textParts, fileContents)]. *)
Definition promptPartStep (acc : list string * list string) (part : value)
  : list string * list string :=
  let '(textParts, fileContents) := acc in
  if (isStr (get "type" part) "text"
      && bool_decide (is_Some (asString (get "text" part))))%bool
  then (textParts ++ [default "" (asString (get "text" part))], fileContents)
  else if isStr (get "type" part) "file-content" then
    let filePath := asString (get "filePath" part) in
    let fileName :=
      match filePath with
      | Some p => if nonempty (lastSegment p) then lastSegment p
                  else if nonempty p then p else "file"
      | None => "file"
      end in
    let content := default "" (asString (get "content" part)) in
    (textParts,
     fileContents ++ [nl +:+ "--- " +:+ fileName +:+ " ---" +:+ nl +:+ content])
  else acc.

Definition extractPromptFromStoredMessage (message : value) : string :=
  if negb (truthy message) then ""
  else match get "parts" message with
       | VArr parts =>
           let '(textParts, fileContents) :=
             foldl promptPartStep ([], []) parts in
           join nl textParts +:+ join "" fileContents
       | _ => ""
       end.

(** [[...messages].reverse().find(m => m?.role === "assistant")] *)
Definition getLastSessionId (messages : list value) : option string :=
  match find (λ m, isStr (get "role" m) "assistant") (reverse messages) with
  | Some lastAssistant =>
      asString (get "sessionId" (get "metadata" lastAssistant))
  | None => None
  end.

Definition extractCodexModelId (rawModel : option string) : option string :=
  match rawModel with
  | None => None
  | Some raw =>
      if negb (nonempty raw) then None
      else
        let normalizedModel := trim raw in
        if (negb (nonempty normalizedModel)
            || String.eqb normalizedModel "codex")%bool
        then None else Some normalizedModel
  end.

Definition hasAppManagedApiKey (authConfig : option AuthConfig) : bool :=
  match authConfig with
  | Some a => nonempty (trim (apiKey a))
  | None => false
  end.

Definition preprocessCodexModelName
    (modelId : string) (authConfig : option AuthConfig) : string :=
  if negb (hasAppManagedApiKey authConfig) then modelId else modelId.

Definition buildUserParts (prompt : string) (images : list ImageAttachment)
  : list value :=
  VObj [("type", VStr "text"); ("text", VStr prompt)]
  :: omap (λ image,
       if (negb (nonempty (base64Data image))
           || negb (nonempty (mediaType image)))%bool
       then None
       else Some (VObj
         [("type", VStr "data-image");
          ("data", VObj
             [("base64Data", VStr (base64Data image));
              ("mediaType", VStr (mediaType image));
              ("filename", from_option VStr VUndefined (filename image))])]))
     images.

(* ------------------------------------------------------------------- *)
(** *** Provider session pool *)

Record ProviderParams := {
  p_subChatId : string;
  p_cwd : string;
  p_mcpServers : list CodexMcpServerForSession;
  p_mcpFingerprint : string;
  p_existingSessionId : option string;
  p_authConfig : option AuthConfig;
}.

Definition cleanupProvider (subChatId : string) : M unit :=
  existing ← gets (λ s, providerSessions s !! subChatId);
  match existing with
  | None => mret tt
  | Some existing =>
      emitEvent (EvProviderCleanup (provider_id (provider existing)));;
      modify (set_providerSessions (delete subChatId));;
      emitEvent (EvSessionsDelete subChatId)
  end.

Section WithExternals.
Variable X : Externals.

Definition getAuthFingerprint (authConfig : option AuthConfig)
  : option string :=
  match authConfig with
  | None => None
  | Some a =>
      let apiKey := trim (apiKey a) in
      if negb (nonempty apiKey) then None
      else Some (sha256Hex X apiKey)
  end.

Definition buildCodexProviderEnv (authConfig : option AuthConfig)
  : gmap string string :=
  match authConfig with
  | None => shellEnv X
  | Some a =>
      let apiKey := trim (apiKey a) in
      if negb (nonempty apiKey) then shellEnv X
      else <["CODEX_API_KEY" := apiKey]> (shellEnv X)
  end.

Definition getCodexAuthMethodId (authConfig : option AuthConfig)
  : option string :=
  match authConfig with
  | None => None
  | Some a =>
      if negb (nonempty (trim (apiKey a))) then None
      else Some "codex-api-key"
  end.

(** The argument of [createACPProvider] in [getOrCreateProvider]. *)
Definition providerConfigFor (params : ProviderParams) : ProviderConfig :=
  let existingSessionIdForProvider :=
    if hasAppManagedApiKey (p_authConfig params) then None
    else p_existingSessionId params in
  {| command := resolveCodexAcpBinaryPath X;
     env := buildCodexProviderEnv (p_authConfig params);
     authMethodId := getCodexAuthMethodId (p_authConfig params);
     session_cwd := p_cwd params;
     session_mcpServers := p_mcpServers params;
     existingSessionId :=
       match existingSessionIdForProvider with
       | Some sid => if nonempty sid then Some sid else None
       | None => None
       end;
     persistSession := true |}.

(** [createACPProvider(cfg)]; [spawnError] is the exception it (or the
    resolution of the binary path) raises, if any. *)
Definition createACPProvider (spawnError : option value)
    (cfg : ProviderConfig) : M ACPProvider :=
  match spawnError with
  | Some e => throw e
  | None =>
      pid ← fresh;
      emitEvent (EvProviderCreate pid cfg);;
      mret {| provider_id := pid; provider_config := cfg |}
  end.

Definition sessionMatches (existing : CodexProviderSession)
    (params : ProviderParams) : bool :=
  (String.eqb (cwd existing) (p_cwd params)
   && bool_decide (authFingerprint existing
                   = getAuthFingerprint (p_authConfig params))
   && String.eqb (mcpFingerprint existing) (p_mcpFingerprint params))%bool.

Definition getOrCreateProvider (spawnError : option value)
    (params : ProviderParams) : M ACPProvider :=
  let authFingerprint := getAuthFingerprint (p_authConfig params) in
  existing ← gets (λ s, providerSessions s !! p_subChatId params);
  let reusable :=
    match existing with
    | Some e => if sessionMatches e params then Some (provider e) else None
    | None => None
    end in
  match reusable with
  | Some provider => mret provider
  | None =>
      match existing with
      | Some e =>
          emitEvent (EvProviderCleanup (provider_id (provider e)));;
          modify (set_providerSessions (delete (p_subChatId params)));;
          emitEvent (EvSessionsDelete (p_subChatId params))
      | None => mret tt
      end;;
      provider ← createACPProvider spawnError (providerConfigFor params);
      modify (set_providerSessions
                <[p_subChatId params :=
                    {| provider := provider; cwd := p_cwd params;
                       authFingerprint := authFingerprint;
                       mcpFingerprint := p_mcpFingerprint params |}]>);;
      emitEvent (EvSessionsSet (p_subChatId params) (provider_id provider));;
      mret provider
  end.

End WithExternals.

(* ------------------------------------------------------------------- *)
(** *** Run registry *)

(** [if (activeStreams.get(id)?.runId === runId) activeStreams.delete(id)] *)
Definition releaseRun (subChatId run : string) : M unit :=
  current ← gets (λ s, activeStreams s !! subChatId);
  match current with
  | Some a =>
      if String.eqb (runId a) run
      then modify (set_activeStreams (delete subChatId));;
           emitEvent (EvStreamsDelete subChatId)
      else mret tt
  | None => mret tt
  end.

Record CancelResult := {
  cancelled : bool;
  ignoredStale : bool;
}.

(** [codexRouter.cancel] *)
Definition cancel (subChatId run : string) : M CancelResult :=
  activeStream ← gets (λ s, activeStreams s !! subChatId);
  match activeStream with
  | None => mret {| cancelled := false; ignoredStale := false |}
  | Some activeStream =>
      if negb (String.eqb (runId activeStream) run)
      then mret {| cancelled := false; ignoredStale := true |}
      else
        emitEvent (EvAbort (controller activeStream));;
        cleanupProvider subChatId;;
        modify (set_activeStreams (delete subChatId));;
        emitEvent (EvStreamsDelete subChatId);;
        mret {| cancelled := true; ignoredStale := false |}
  end.

(** [codexRouter.cleanup] *)
Definition cleanup (subChatId : string) : M unit :=
  cleanupProvider subChatId;;
  activeStream ← gets (λ s, activeStreams s !! subChatId);
  match activeStream with
  | Some activeStream =>
      emitEvent (EvAbort (controller activeStream));;
      modify (set_activeStreams (delete subChatId));;
      emitEvent (EvStreamsDelete subChatId)
  | None => mret tt
  end.

(* ------------------------------------------------------------------- *)
(** *** Turn executor ([codexRouter.chat]) *)

(** What the UI message stream hands to the router: a chunk returned by
    [reader.read()], or the engine invoking the [onFinish] callback
    with its finalized message list. *)
Inductive StreamItem :=
| Chunk (v : value)
| OnFinish (messages : list value).

Inductive StreamEnd :=
| Done
| ReadThrows (error : value).

(** The behaviour of the collaborators during one turn. *)
Record TurnScript := {
  (* [None]: resolving the MCP snapshot throws *)
  sc_mcp : option CodexMcpSnapshot;
  sc_spawnError : option value;
  (* [Some e]: [streamText] / [toUIMessageStream] throws [e] *)
  sc_streamError : option value;
  sc_items : list StreamItem;
  sc_end : StreamEnd;
}.

Definition observerNext (chunk : value) (o : Observer) : Observer :=
  if isActive o then
    if sinkThrows o
    then {| isActive := false; emitted := emitted o;
            completed := completed o; sinkThrows := sinkThrows o |}
    else {| isActive := true; emitted := emitted o ++ [chunk];
            completed := completed o; sinkThrows := sinkThrows o |}
  else o.

Definition observerComplete (o : Observer) : Observer :=
  if isActive o
  then {| isActive := false; emitted := emitted o;
          completed := true; sinkThrows := sinkThrows o |}
  else o.

Definition observerDeactivate (o : Observer) : Observer :=
  {| isActive := false; emitted := emitted o;
     completed := completed o; sinkThrows := sinkThrows o |}.

Definition safeEmit (ctl : nat) (chunk : value) : M unit :=
  modify (set_observers (alter (observerNext chunk) ctl)).

Definition safeComplete (ctl : nat) : M unit :=
  modify (set_observers (alter observerComplete ctl)).

(** [db.update(subChats).set({ messages: JSON.stringify(ms) })
       .where(eq(subChats.id, id)).run()] *)
Definition dbUpdateMessages (subChatId : string) (ms : list value) : M unit :=
  modify (set_subChats (alter (λ _, Some (jsonify (VArr ms))) subChatId));;
  emitEvent (EvDbUpdate subChatId ms).

Definition finishChunk : value := VObj [("type", VStr "finish")].

(** What the read loop emits for one chunk of the stream. *)
Definition forwarded (v : value) : value :=
  if isStr (get "type" v) "error" then
    let normalized := extractCodexError v in
    if isCodexAuthError (asParams normalized)
    then VObj (setField "errorText" (VStr (message normalized))
                 (setField "type" (VStr "auth-error") (ownFields v)))
    else VObj (setField "errorText" (VStr (message normalized))
                 (ownFields v))
  else v.

(** The [while (true)] loop over [reader.read()]. *)
Fixpoint readLoop (subChatId : string) (ctl : nat)
    (items : list StreamItem) (ending : StreamEnd) : M unit :=
  match items with
  | [] =>
      match ending with
      | Done => mret tt
      | ReadThrows e => throw e
      end
  | Chunk v :: rest =>
      safeEmit ctl (forwarded v);;
      readLoop subChatId ctl rest ending
  | OnFinish ms :: rest =>
      dbUpdateMessages subChatId ms;;
      readLoop subChatId ctl rest ending
  end.

(** The synchronous head of the subscription: supersede, then register
    the run.  The result is the identity of the new [AbortController],
    which also names the subscription's closure state. *)
Definition chatSubscribe (input : ChatInput) (subscriberThrows : bool)
  : M nat :=
  existingStream ← gets (λ s, activeStreams s !! in_subChatId input);
  match existingStream with
  | Some existingStream =>
      emitEvent (EvAbort (controller existingStream));;
      cleanupProvider (in_subChatId input)
  | None => mret tt
  end;;
  abortController ← fresh;
  modify (set_activeStreams
            <[in_subChatId input :=
                {| runId := in_runId input;
                   controller := abortController |}]>);;
  emitEvent (EvStreamsSet (in_subChatId input) (in_runId input)
               abortController);;
  modify (set_observers
            <[abortController :=
                {| isActive := true; emitted := []; completed := false;
                   sinkThrows := subscriberThrows |}]>);;
  mret abortController.

(** The teardown function returned to tRPC (unsubscribe). *)
Definition chatTeardown (input : ChatInput) (ctl : nat) : M unit :=
  modify (set_observers (alter observerDeactivate ctl));;
  emitEvent (EvAbort ctl);;
  releaseRun (in_subChatId input) (in_runId input).

Definition isDuplicatePrompt (existingMessages : list value)
    (prompt : string) : bool :=
  let lastMessage := List.last existingMessages VUndefined in
  (isStr (get "role" lastMessage) "user"
   && String.eqb (extractPromptFromStoredMessage lastMessage) prompt)%bool.

(** The user message [chat] builds for a new turn. *)
Definition newUserMessage (uuid : string) (input : ChatInput)
    (metadataModel : string) : value :=
  VObj [("id", VStr uuid);
        ("role", VStr "user");
        ("parts", VArr (buildUserParts (in_prompt input) (in_images input)));
        ("metadata", VObj [("model", VStr metadataModel)])].

Section WithExternals.
Variable X : Externals.

Definition defaultMcpSnapshot : CodexMcpSnapshot :=
  {| mcpServersForSession := [];
     fingerprint := emptyMcpFingerprint X;
     toolsResolved := false |}.

(** Construct or reuse the user message and append it to the
    transcript unless it duplicates the last stored turn. *)
Definition appendUserTurn (input : ChatInput)
    (existingMessages : list value) (metadataModel : string)
  : M (list value) :=
  if isDuplicatePrompt existingMessages (in_prompt input)
  then mret existingMessages
  else
    uuid ← fresh;
    let userMessage :=
      newUserMessage (randomUUID X uuid) input metadataModel in
    let messagesForStream := existingMessages ++ [userMessage] in
    dbUpdateMessages (in_subChatId input) messagesForStream;;
    mret messagesForStream.

(** The arguments [chat] passes to [getOrCreateProvider]. *)
Definition chatProviderParams (input : ChatInput)
    (existingMessages : list value) (mcpSnapshot : CodexMcpSnapshot)
  : ProviderParams :=
  {| p_subChatId := in_subChatId input;
     p_cwd := in_cwd input;
     p_mcpServers := mcpServersForSession mcpSnapshot;
     p_mcpFingerprint := fingerprint mcpSnapshot;
     p_existingSessionId :=
       if in_forceNewSession input then None
       else match in_sessionId input with
            | Some sid => Some sid
            | None => getLastSessionId existingMessages
            end;
     p_authConfig := in_authConfig input |}.

(** The second half of Building: forced cleanup, tool snapshot,
    session acquisition. *)
Definition acquireSession (input : ChatInput) (sc : TurnScript)
    (existingMessages : list value) : M ACPProvider :=
  when (in_forceNewSession input)
       (cleanupProvider (in_subChatId input));;
  mcpSnapshot ←
    match sc_mcp sc with
    | Some snapshot => mret snapshot
    | None =>
        emitEvent (EvLog "[codex] Failed to resolve MCP servers:");;
        mret defaultMcpSnapshot
    end;
  getOrCreateProvider X (sc_spawnError sc)
    (chatProviderParams input existingMessages mcpSnapshot).

(** Building: everything up to and including session acquisition. *)
Definition chatBuild (input : ChatInput) (sc : TurnScript)
  : M (list value * string * ACPProvider) :=
  existingSubChat ← gets (λ s, subChats s !! in_subChatId input);
  match existingSubChat with
  | None => throw (VError "Error" "Sub-chat not found" [])
  | Some column =>
      let existingMessages := parseStoredMessages column in
      let requestedModelId :=
        default DEFAULT_CODEX_MODEL (extractCodexModelId (in_model input)) in
      let selectedModelId :=
        preprocessCodexModelName requestedModelId (in_authConfig input) in
      messagesForStream ←
        appendUserTurn input existingMessages selectedModelId;
      provider ← acquireSession input sc existingMessages;
      mret (messagesForStream, selectedModelId, provider)
  end.

(** The body of the [try] block. *)
Definition chatTry (input : ChatInput) (ctl : nat) (sc : TurnScript)
  : M unit :=
  '(messagesForStream, selectedModelId, provider) ← chatBuild input sc;
  match sc_streamError sc with
  | Some e => throw e
  | None => emitEvent (EvStreamText (provider_id provider)
                         selectedModelId ctl)
  end;;
  readLoop (in_subChatId input) ctl (sc_items sc) (sc_end sc);;
  safeComplete ctl.

(** The [catch (error)] block. *)
Definition chatCatch (ctl : nat) (error : value) : M unit :=
  let normalized := extractCodexError error in
  emitEvent (EvLog "[codex] chat stream error:");;
  (if isCodexAuthError (asParams normalized)
   then safeEmit ctl (VObj [("type", VStr "auth-error");
                            ("errorText", VStr (message normalized))])
   else safeEmit ctl (VObj [("type", VStr "error");
                            ("errorText", VStr (message normalized))]));;
  safeEmit ctl finishChunk;;
  safeComplete ctl.

(** The asynchronous body of one subscription. *)
Definition chatBody (input : ChatInput) (ctl : nat) (sc : TurnScript)
  : M unit :=
  tryFinally
    (tryCatch (chatTry input ctl sc) (chatCatch ctl))
    (releaseRun (in_subChatId input) (in_runId input)).

End WithExternals.

(* ------------------------------------------------------------------- *)
(** *** Specification vocabulary *)

(** The events of tearing down the provider session of a sub-chat. *)
Definition teardownEvents (s : State) (subChatId : string) : list event :=
  match providerSessions s !! subChatId with
  | Some existing =>
      [EvProviderCleanup (provider_id (provider existing));
       EvSessionsDelete subChatId]
  | None => []
  end.

(** Compare-and-delete on the run registry. *)
Definition compareAndDelete (subChatId run : string)
    (streams : gmap string ActiveCodexStream)
  : gmap string ActiveCodexStream :=
  match streams !! subChatId with
  | Some a => if String.eqb (runId a) run
              then delete subChatId streams else streams
  | None => streams
  end.

(** Provider identities in the pool were handed out by the allocator. *)
Definition poolWf (s : State) : Prop :=
  ∀ subChatId e, providerSessions s !! subChatId = Some e →
                 (provider_id (provider e) < nextId s)%nat.

(** The providers that were constructed and not cleaned up since, read
    off the trace. *)
Definition liveStep (live : gset nat) (e : event) : gset nat :=
  match e with
  | EvProviderCreate p _ => {[p]} ∪ live
  | EvProviderCleanup p => live ∖ {[p]}
  | _ => live
  end.

Definition liveProviders (tr : list event) : gset nat :=
  foldl liveStep ∅ tr.

(** The provider [pid] is the one stored for some sub-chat. *)
Definition pooled (s : State) (pid : nat) : Prop :=
  ∃ subChatId e, providerSessions s !! subChatId = Some e
                 ∧ provider_id (provider e) = pid.

(** The pool invariant: identities come from the allocator, no provider
    serves two sub-chats, and the live providers are exactly the pooled
    ones, so that each sub-chat has at most one live provider. *)
Definition poolInv (s : State) : Prop :=
  poolWf s
  ∧ (∀ sub1 sub2 e1 e2,
        providerSessions s !! sub1 = Some e1 →
        providerSessions s !! sub2 = Some e2 →
        provider_id (provider e1) = provider_id (provider e2) →
        sub1 = sub2)
  ∧ (∀ pid, pid ∈ liveProviders (trace s) ↔ pooled s pid).

Definition keepsPool : relation State :=
  λ s s', poolInv s → poolInv s'.

(** The session entry [getOrCreateProvider] stores for a request. *)
Definition sessionFor (X : Externals) (params : ProviderParams)
    (p : ACPProvider) : CodexProviderSession :=
  {| provider := p; cwd := p_cwd params;
     authFingerprint := getAuthFingerprint X (p_authConfig params);
     mcpFingerprint := p_mcpFingerprint params |}.

(** Two requests agree on the (cwd, authFingerprint, mcpFingerprint)
    triple. *)
Definition sameTriple (X : Externals) (p1 p2 : ProviderParams) : Prop :=
  p_cwd p2 = p_cwd p1
  ∧ getAuthFingerprint X (p_authConfig p2)
    = getAuthFingerprint X (p_authConfig p1)
  ∧ p_mcpFingerprint p2 = p_mcpFingerprint p1.

(** A procedure whose every run relates the state before to the state
    after by [R]. *)
Definition respects (R : relation State) {A} (m : M A) : Prop :=
  ∀ s, R s (m s).1.

(** The run registry is left alone. *)
Definition sameStreams : relation State :=
  λ s s', activeStreams s' = activeStreams s.

(** The subscription closures are left alone. *)
Definition sameObservers : relation State :=
  λ s s', observers s' = observers s.

(** The transcript store is left alone. *)
Definition sameDb : relation State :=
  λ s s', subChats s' = subChats s.

(** The trace only grows, by events that satisfy [Q]. *)
Definition emitsOnly (Q : event → Prop) : relation State :=
  λ s s', ∃ evs, trace s' = trace s ++ evs ∧ ∀ e, e ∈ evs → Q e.

(** Every provider constructed was given a configuration in [P]. *)
Definition spawnOk (P : ProviderConfig → Prop) (e : event) : Prop :=
  match e with EvProviderCreate _ cfg => P cfg | _ => True end.


(** The messages [chat] reads for a sub-chat. *)
Definition storedMessages (s : State) (subChatId : string) : list value :=
  match subChats s !! subChatId with
  | Some column => parseStoredMessages column
  | None => []
  end.

(** What the [catch] block emits for an exception. *)
Definition caughtChunk (error : value) : value :=
  let normalized := extractCodexError error in
  if isCodexAuthError (asParams normalized)
  then VObj [("type", VStr "auth-error");
             ("errorText", VStr (message normalized))]
  else VObj [("type", VStr "error");
             ("errorText", VStr (message normalized))].

(** A subscriber that received [chunks] and then completion. *)
Definition finished (o : Observer) (chunks : list value) : Observer :=
  {| isActive := false; emitted := emitted o ++ chunks;
     completed := true; sinkThrows := sinkThrows o |}.

Definition isFinish (chunk : value) : bool := isStr (get "type" chunk) "finish".

Definition countFinish (chunks : list value) : nat :=
  length (filter (λ c, isFinish c = true) chunks).

Definition chunksOf (items : list StreamItem) : list value :=
  omap (λ item, match item with
                | Chunk v => Some v
                | OnFinish _ => None
                end) items.

(** A subscriber that received [chunks] more. *)
Definition received (o : Observer) (chunks : list value) : Observer :=
  {| isActive := isActive o; emitted := emitted o ++ chunks;
     completed := completed o; sinkThrows := sinkThrows o |}.

(** What one turn delivers to a listening subscriber, in closed form:
    the error pair when Building or the start of the stream throws,
    otherwise the forwarded chunks of the stream, followed by the error
    pair when reading throws. *)
Definition turnOutput (X : Externals) (input : ChatInput) (sc : TurnScript)
    (s : State) : list value :=
  match chatBuild X input sc s with
  | (_, Throw e) => [caughtChunk e; finishChunk]
  | (_, Ok _) =>
      match sc_streamError sc with
      | Some e => [caughtChunk e; finishChunk]
      | None =>
          map forwarded (chunksOf (sc_items sc))
          ++ match sc_end sc with
             | Done => []
             | ReadThrows e => [caughtChunk e; finishChunk]
             end
      end
  end.

(** A subscriber that can still receive chunks. *)
Definition listening (s : State) (ctl : nat) (o : Observer) : Prop :=
  observers s !! ctl = Some o ∧ isActive o = true ∧ sinkThrows o = false.


End Codex.


(* ===================================================================== *)
(** ** Codex login sessions ([startLogin] / [cancelLogin])                *)
(* ===================================================================== *)

Module CodexLogin.
Import JsString.

Inductive CodexLoginSessionState :=
| Running
| Success
| Error
| Cancelled.

(** The [ChildProcess] fields the router reads. *)
Record ChildProcess := { killed : bool }.

Record CodexLoginSession := {
  id : string;
  process : option ChildProcess;
  state : CodexLoginSessionState;
  output : string;
  url : option string;
  error : option string;
  exitCode : option Z;
}.

(** The session object [startLogin] creates around the spawned child. *)
Definition newLoginSession (sessionId : string) : CodexLoginSession :=
  {| id := sessionId; process := Some {| killed := false |};
     state := Running; output := ""; url := None; error := None;
     exitCode := None |}.

(** [child.once("error", ...)] *)
Definition onError (errorMessage : string) (session : CodexLoginSession)
  : CodexLoginSession :=
  {| id := id session; process := None; state := Error;
     output := output session; url := url session;
     error := Some ("[codex] Failed to start login flow: " +:+ errorMessage);
     exitCode := exitCode session |}.

(** [child.once("close", ...)] *)
Definition onClose (code : option Z) (session : CodexLoginSession)
  : CodexLoginSession :=
  let session :=
    {| id := id session; process := None; state := state session;
       output := output session; url := url session;
       error := error session; exitCode := code |} in
  match state session with
  | Cancelled => session
  | _ =>
      if bool_decide (code = Some 0)
      then {| id := id session; process := process session;
              state := Success; output := output session;
              url := url session; error := None;
              exitCode := exitCode session |}
      else {| id := id session; process := process session;
              state := Error; output := output session;
              url := url session;
              error :=
                Some (match error session with
                      | Some e =>
                          if nonempty e then e
                          else "Codex login exited with code "
                               +:+ from_option pretty "unknown" code
                      | None =>
                          "Codex login exited with code "
                          +:+ from_option pretty "unknown" code
                      end);
              exitCode := exitCode session |}
  end.

Section Output.
(** The regular-expression helpers of the output handler. *)
Variable stripAnsi : string → string.
Variable extractFirstNonLocalhostUrl : string → option string.

Definition appendLoginOutput (chunk : string) (session : CodexLoginSession)
  : CodexLoginSession :=
  let cleanChunk := stripAnsi chunk in
  if negb (nonempty cleanChunk) then session
  else
    let output' := output session +:+ cleanChunk in
    {| id := id session; process := process session;
       state := state session; output := output';
       url := match url session with
              | Some u => if nonempty u then Some u
                          else extractFirstNonLocalhostUrl output'
              | None => extractFirstNonLocalhostUrl output'
              end;
       error := error session; exitCode := exitCode session |}.

(** What the child process can still deliver to a session: a chunk on
    [stdout] or [stderr], its ['error'] event, or its ['close'] event.
    The last two handlers are registered with [once]; an event stands
    for one run of the handler. *)
Inductive ChildEvent :=
| Data (chunk : string)
| ChildError (errorMessage : string)
| Close (code : option Z).

Definition deliver (ev : ChildEvent) (session : CodexLoginSession)
  : CodexLoginSession :=
  match ev with
  | Data chunk => appendLoginOutput chunk session
  | ChildError errorMessage => onError errorMessage session
  | Close code => onClose code session
  end.

(** The events on which the ['error'] handler does not run. *)
Definition isChildError (ev : ChildEvent) : bool :=
  match ev with
  | ChildError _ => true
  | _ => false
  end.
End Output.

Record CancelLoginResult := {
  success : bool;
  found : bool;
  session : option CodexLoginSession;
}.

(** What [session.process.kill("SIGTERM")] does, as Node's
    [ChildProcess.kill] has it: the signal is delivered and the child is
    marked [killed]; or the child is already gone and nothing changes;
    or the signal cannot be delivered, and the child emits ['error']
    before [kill] returns. *)
Inductive KillOutcome :=
| Signalled
| AlreadyExited
| KillFails (errorMessage : string).

(** [session.state = "cancelled"; session.error = null] *)
Definition markCancelled (session : CodexLoginSession) : CodexLoginSession :=
  {| id := id session; process := process session;
     state := Cancelled; output := output session; url := url session;
     error := None; exitCode := exitCode session |}.

(** The mutation [cancelLogin] performs on the session object.  [kill]
    is called only on a child that is still attached and not killed, so
    neither the ['error'] nor the ['close'] handler has run before: a
    failing [kill] runs the ['error'] handler. *)
Definition cancelSession (kill : KillOutcome) (session : CodexLoginSession)
  : CodexLoginSession :=
  let session := markCancelled session in
  match process session with
  | Some p =>
      if negb (killed p)
      then match kill with
           | Signalled =>
               {| id := id session; process := Some {| killed := true |};
                  state := state session; output := output session;
                  url := url session; error := error session;
                  exitCode := exitCode session |}
           | AlreadyExited => session
           | KillFails errorMessage => onError errorMessage session
           end
      else session
  | None => session
  end.

(** [codexRouter.cancelLogin]; [kill] is what the signal does, should
    the procedure send it. *)
Definition cancelLogin (kill : KillOutcome) (sessionId : string)
    (loginSessions : gmap string CodexLoginSession)
  : gmap string CodexLoginSession * CancelLoginResult :=
  match loginSessions !! sessionId with
  | None =>
      (loginSessions,
       {| success := true; found := false; session := None |})
  | Some s =>
      (<[sessionId := cancelSession kill s]> loginSessions,
       {| success := true; found := true;
          session := Some (cancelSession kill s) |})
  end.

(** The close event reaching the session registered under [sessionId]. *)
Definition closeLogin (sessionId : string) (code : option Z)
    (loginSessions : gmap string CodexLoginSession)
  : gmap string CodexLoginSession :=
  alter (onClose code) sessionId loginSessions.

End CodexLogin.

(* ===================================================================== *)
(** ** The renderer's ACP chat transport ([ACPChatTransport])             *)
(* ===================================================================== *)

Module Transport.
Import JsString Js.

Inductive CodexIntegrationState :=
| ConnectedChatgpt
| ConnectedApiKey
| NotLoggedIn
| Unknown.

Record Credentials := {
  hasApiKey : bool;
  hasSubscription : bool;
  hasAny : bool;
}.

Record PendingAuthRetry := {
  retry_subChatId : string;
  retry_provider : string;
  retry_prompt : string;
  retry_images : option (list value);
  readyToRetry : bool;
}.

Record Toast := {
  title : string;
  description : value;
}.

Record SessionInfo := {
  tools : value;
  mcpServers : value;
  plugins : value;
  skills : value;
}.

(** The Jotai atoms and module-level state the transport touches, with
    the user-visible effects (toasts, cleanup RPCs) as logs. *)
Record ClientState := {
  forceFreshSessionSubChats : gset string;
  (* [normalizeCodexApiKey(appStore.get(codexApiKeyAtom))] *)
  codexApiKey : string;
  codexOnboardingCompletedAtom : bool;
  codexOnboardingAuthMethodAtom : string;
  pendingAuthRetryMessageAtom : option PendingAuthRetry;
  codexLoginModalOpenAtom : bool;
  sessionInfoAtom : option SessionInfo;
  toasts : list Toast;
  cleanupCalls : list string;
}.

Inductive StreamStatus :=
| Readable
| Closed
| Errored (reason : string).

(** The [ReadableStreamDefaultController] of one [sendMessages] call. *)
Record StreamController := {
  enqueued : list value;
  status : StreamStatus;
}.

Definition set_forceFresh f (st : ClientState) : ClientState :=
  {| forceFreshSessionSubChats := f (forceFreshSessionSubChats st);
     codexApiKey := codexApiKey st;
     codexOnboardingCompletedAtom := codexOnboardingCompletedAtom st;
     codexOnboardingAuthMethodAtom := codexOnboardingAuthMethodAtom st;
     pendingAuthRetryMessageAtom := pendingAuthRetryMessageAtom st;
     codexLoginModalOpenAtom := codexLoginModalOpenAtom st;
     sessionInfoAtom := sessionInfoAtom st;
     toasts := toasts st; cleanupCalls := cleanupCalls st |}.
Definition set_pending v (st : ClientState) : ClientState :=
  {| forceFreshSessionSubChats := forceFreshSessionSubChats st;
     codexApiKey := codexApiKey st;
     codexOnboardingCompletedAtom := codexOnboardingCompletedAtom st;
     codexOnboardingAuthMethodAtom := codexOnboardingAuthMethodAtom st;
     pendingAuthRetryMessageAtom := v;
     codexLoginModalOpenAtom := codexLoginModalOpenAtom st;
     sessionInfoAtom := sessionInfoAtom st;
     toasts := toasts st; cleanupCalls := cleanupCalls st |}.
Definition set_loginModal v (st : ClientState) : ClientState :=
  {| forceFreshSessionSubChats := forceFreshSessionSubChats st;
     codexApiKey := codexApiKey st;
     codexOnboardingCompletedAtom := codexOnboardingCompletedAtom st;
     codexOnboardingAuthMethodAtom := codexOnboardingAuthMethodAtom st;
     pendingAuthRetryMessageAtom := pendingAuthRetryMessageAtom st;
     codexLoginModalOpenAtom := v;
     sessionInfoAtom := sessionInfoAtom st;
     toasts := toasts st; cleanupCalls := cleanupCalls st |}.
Definition set_sessionInfo v (st : ClientState) : ClientState :=
  {| forceFreshSessionSubChats := forceFreshSessionSubChats st;
     codexApiKey := codexApiKey st;
     codexOnboardingCompletedAtom := codexOnboardingCompletedAtom st;
     codexOnboardingAuthMethodAtom := codexOnboardingAuthMethodAtom st;
     pendingAuthRetryMessageAtom := pendingAuthRetryMessageAtom st;
     codexLoginModalOpenAtom := codexLoginModalOpenAtom st;
     sessionInfoAtom := v;
     toasts := toasts st; cleanupCalls := cleanupCalls st |}.
Definition toastError (t : Toast) (st : ClientState) : ClientState :=
  {| forceFreshSessionSubChats := forceFreshSessionSubChats st;
     codexApiKey := codexApiKey st;
     codexOnboardingCompletedAtom := codexOnboardingCompletedAtom st;
     codexOnboardingAuthMethodAtom := codexOnboardingAuthMethodAtom st;
     pendingAuthRetryMessageAtom := pendingAuthRetryMessageAtom st;
     codexLoginModalOpenAtom := codexLoginModalOpenAtom st;
     sessionInfoAtom := sessionInfoAtom st;
     toasts := toasts st ++ [t]; cleanupCalls := cleanupCalls st |}.
Definition callCleanup (subChatId : string) (st : ClientState) : ClientState :=
  {| forceFreshSessionSubChats := forceFreshSessionSubChats st;
     codexApiKey := codexApiKey st;
     codexOnboardingCompletedAtom := codexOnboardingCompletedAtom st;
     codexOnboardingAuthMethodAtom := codexOnboardingAuthMethodAtom st;
     pendingAuthRetryMessageAtom := pendingAuthRetryMessageAtom st;
     codexLoginModalOpenAtom := codexLoginModalOpenAtom st;
     sessionInfoAtom := sessionInfoAtom st;
     toasts := toasts st; cleanupCalls := cleanupCalls st ++ [subChatId] |}.

Definition getStoredCodexCredentials (st : ClientState) : Credentials :=
  let hasApiKey := nonempty (codexApiKey st) in
  let hasSubscription :=
    (codexOnboardingCompletedAtom st
     && String.eqb (codexOnboardingAuthMethodAtom st) "chatgpt")%bool in
  {| hasApiKey := hasApiKey; hasSubscription := hasSubscription;
     hasAny := (hasApiKey || hasSubscription)%bool |}.

(** [integration] is the answer of [codex.getIntegration], [None] when
    the query throws. *)
Definition resolveCodexCredentialsForAuthError
    (integration : option CodexIntegrationState) (st : ClientState)
  : Credentials :=
  let snapshot := getStoredCodexCredentials st in
  let hasSubscription :=
    match integration with
    | Some ConnectedChatgpt => true
    | _ => false
    end in
  {| hasApiKey := hasApiKey snapshot; hasSubscription := hasSubscription;
     hasAny := (hasApiKey snapshot || hasSubscription)%bool |}.

(** The head of [sendMessages]: read and consume the one-shot flag. *)
Definition takeForceNewSession (subChatId : string) (st : ClientState)
  : bool * ClientState :=
  let forceNewSession :=
    bool_decide (subChatId ∈ forceFreshSessionSubChats st) in
  (forceNewSession,
   if forceNewSession
   then set_forceFresh (λ set, set ∖ {[subChatId]}) st
   else st).

(** The closure of one [sendMessages] call. *)
Record Send := {
  send_subChatId : string;
  send_prompt : string;
  send_images : list value;
  send_forceNewSession : bool;
}.

Definition controllerEnqueue (chunk : value) (c : StreamController)
  : StreamController :=
  match status c with
  | Readable => {| enqueued := enqueued c ++ [chunk]; status := Readable |}
  | _ => c
  end.

Definition controllerClose (c : StreamController) : StreamController :=
  match status c with
  | Readable => {| enqueued := enqueued c; status := Closed |}
  | _ => c
  end.

Definition controllerError (reason : string) (c : StreamController)
  : StreamController :=
  match status c with
  | Readable => {| enqueued := enqueued c; status := Errored reason |}
  | _ => c
  end.

(** The auth-error branch of [onData], with the credential re-check
    run to completion. *)
Definition onAuthError (send : Send)
    (integration : option CodexIntegrationState)
    (st : ClientState) (c : StreamController)
  : ClientState * StreamController :=
  let st := set_forceFresh (λ set, {[send_subChatId send]} ∪ set) st in
  let credentials := resolveCodexCredentialsForAuthError integration st in
  let shouldAutoRetryOnce :=
    (hasAny credentials && negb (send_forceNewSession send))%bool in
  let st :=
    set_pending
      (Some {| retry_subChatId := send_subChatId send;
               retry_provider := "codex";
               retry_prompt := send_prompt send;
               retry_images :=
                 match send_images send with
                 | [] => None
                 | images => Some images
                 end;
               readyToRetry := shouldAutoRetryOnce |}) st in
  let st :=
    if negb (hasAny credentials) then set_loginModal true st
    else if negb shouldAutoRetryOnce then
      toastError
        {| title := "Codex authentication failed";
           description :=
             VStr (if hasApiKey credentials
                   then "Saved Codex API key was rejected. Update it in Settings."
                   else "Saved Codex subscription auth failed. Reconnect subscription in Settings.") |}
        st
    else st in
  let st := callCleanup (send_subChatId send) st in
  (st, controllerError "Codex authentication required" c).

(** [onData] of the subscription. *)
Definition onData (send : Send)
    (integration : option CodexIntegrationState) (chunk : value)
    (st : ClientState) (c : StreamController)
  : ClientState * StreamController :=
  let st :=
    if Codex.isStr (get "type" chunk) "session-init"
    then set_sessionInfo
           (Some {| tools := or_else (get "tools" chunk) (VArr []);
                    mcpServers := or_else (get "mcpServers" chunk) (VArr []);
                    plugins := or_else (get "plugins" chunk) (VArr []);
                    skills := or_else (get "skills" chunk) (VArr []) |}) st
    else st in
  if Codex.isStr (get "type" chunk) "auth-error"
  then onAuthError send integration st c
  else
    let st :=
      if Codex.isStr (get "type" chunk) "error"
      then toastError
             {| title := "Codex error";
                description :=
                  or_else (get "errorText" chunk)
                    (VStr "An unexpected Codex error occurred.") |} st
      else st in
    let c := controllerEnqueue chunk c in
    let c := if Codex.isStr (get "type" chunk) "finish"
             then controllerClose c else c in
    (st, c).

End Transport.

(* ===================================================================== *)
(** ** Concrete scenarios                                                 *)
(* ===================================================================== *)

Module Scenario.
Import JsString Js Codex.

(** A stand-in environment: the digest is a tagged copy of its input. *)
Definition demoExternals : Externals :=
  {| sha256Hex := λ key, "sha256:" +:+ key;
     resolveCodexAcpBinaryPath := "/opt/codex-acp";
     shellEnv := {["PATH" := "/usr/bin"]};
     emptyMcpFingerprint := "mcp:none";
     randomUUID := λ n, "uuid-" +:+ pretty n |}.

Definition chatInput (run prompt : string) : ChatInput :=
  {| in_subChatId := "sc1"; in_chatId := "c1"; in_runId := run;
     in_prompt := prompt; in_model := None; in_cwd := "/repo";
     in_projectPath := None; in_mode := AgentMode;
     in_sessionId := None; in_forceNewSession := false;
     in_images := []; in_authConfig := None |}.

Definition inputA : ChatInput := chatInput "run-A" "hello".
Definition inputB : ChatInput := chatInput "run-B" "hello again".

Definition entryA : ActiveCodexStream :=
  {| runId := "run-A"; controller := 0 |}.

Definition demoConfig : ProviderConfig :=
  {| command := "/opt/codex-acp"; env := {["PATH" := "/usr/bin"]};
     authMethodId := None; session_cwd := "/repo";
     session_mcpServers := []; existingSessionId := None;
     persistSession := true |}.

Definition sessionA : CodexProviderSession :=
  {| provider := {| provider_id := 1; provider_config := demoConfig |};
     cwd := "/repo"; authFingerprint := None;
     mcpFingerprint := "mcp:none" |}.

Definition freshObserver : Observer :=
  {| isActive := true; emitted := []; completed := false;
     sinkThrows := false |}.

(** Run A is streaming for sub-chat [sc1]. *)
Definition stateWithA : State :=
  {| providerSessions := {["sc1" := sessionA]};
     activeStreams := {["sc1" := entryA]};
     observers := {[0%nat := freshObserver]};
     subChats := {["sc1" := Some (VArr [])]};
     nextId := 2;
     trace := [] |}.

(** No run, no session; the sub-chat exists with an empty transcript. *)
Definition idleState : State :=
  {| providerSessions := ∅;
     activeStreams := ∅;
     observers := {[0%nat := freshObserver]};
     subChats := {["sc1" := Some (VArr [])]};
     nextId := 1;
     trace := [] |}.

Definition demoParams : ProviderParams :=
  {| p_subChatId := "sc1"; p_cwd := "/repo"; p_mcpServers := [];
     p_mcpFingerprint := "mcp:none"; p_existingSessionId := None;
     p_authConfig := None |}.

Definition serverA : CodexMcpServerForSession :=
  McpStdio "serverA" "npx" ["-y"; "server-a"] [].

(** The same request after a tool server was added. *)
Definition demoParamsWithServer : ProviderParams :=
  {| p_subChatId := "sc1"; p_cwd := "/repo"; p_mcpServers := [serverA];
     p_mcpFingerprint := "mcp:serverA"; p_existingSessionId := None;
     p_authConfig := None |}.


(** A forced-fresh send that still names session [sess-1]. *)
Definition forcedInput : ChatInput :=
  {| in_subChatId := "sc1"; in_chatId := "c1"; in_runId := "run-A";
     in_prompt := "hello"; in_model := None; in_cwd := "/repo";
     in_projectPath := None; in_mode := AgentMode;
     in_sessionId := Some "sess-1"; in_forceNewSession := true;
     in_images := []; in_authConfig := None |}.

Definition demoSnapshot : CodexMcpSnapshot :=
  {| mcpServersForSession := []; fingerprint := "mcp:none";
     toolsResolved := false |}.

Definition textDelta (t : string) : value :=
  VObj [("type", VStr "text-delta"); ("delta", VStr t)].

Definition errorChunk (t : string) : value :=
  VObj [("type", VStr "error"); ("errorText", VStr t)].

Definition okScript (items : list StreamItem) : TurnScript :=
  {| sc_mcp := Some demoSnapshot;
     sc_spawnError := None; sc_streamError := None;
     sc_items := items; sc_end := Done |}.

(** Run A subscribed on the idle state; its controller is [1]. *)
Definition startedA : State := (chatSubscribe inputA false idleState).1.

(** Resolving the tool snapshot throws; the stream then works. *)
Definition toolFailureScript : TurnScript :=
  {| sc_mcp := None; sc_spawnError := None; sc_streamError := None;
     sc_items := [Chunk (textDelta "hi"); Chunk finishChunk];
     sc_end := Done |}.

(** The stream ends normally without carrying a [finish] chunk. *)
Definition noFinishScript : TurnScript :=
  okScript [Chunk (textDelta "hi")].

(** The stream carries its [finish] chunk, and the next read throws. *)
Definition finishThenThrowScript : TurnScript :=
  {| sc_mcp := Some demoSnapshot;
     sc_spawnError := None; sc_streamError := None;
     sc_items := [Chunk (textDelta "hi"); Chunk finishChunk];
     sc_end := ReadThrows (VError "Error" "connection reset" []) |}.

(** The stream reports an authentication failure and goes on. *)
Definition authErrorScript : TurnScript :=
  okScript [Chunk (errorChunk "401 Unauthorized");
            Chunk (textDelta "late"); Chunk finishChunk].

(** A login session whose child process is still running. *)
Definition runningLogin : CodexLogin.CodexLoginSession :=
  CodexLogin.newLoginSession "login-1".

Definition loginRegistry : gmap string CodexLogin.CodexLoginSession :=
  {["login-1" := runningLogin]}.

(** A client with a stored API key and nothing pending. *)
Definition clientWithKey : Transport.ClientState :=
  {| Transport.forceFreshSessionSubChats := ∅;
     Transport.codexApiKey := "sk-live";
     Transport.codexOnboardingCompletedAtom := true;
     Transport.codexOnboardingAuthMethodAtom := "api-key";
     Transport.pendingAuthRetryMessageAtom := None;
     Transport.codexLoginModalOpenAtom := false;
     Transport.sessionInfoAtom := None;
     Transport.toasts := [];
     Transport.cleanupCalls := [] |}.

Definition firstSend : Transport.Send :=
  {| Transport.send_subChatId := "sc1";
     Transport.send_prompt := "hello";
     Transport.send_images := [];
     Transport.send_forceNewSession := false |}.

Definition openController : Transport.StreamController :=
  {| Transport.enqueued := []; Transport.status := Transport.Readable |}.

Definition authErrorChunk : value :=
  VObj [("type", VStr "auth-error"); ("errorText", VStr "401 Unauthorized")].

End Scenario.

(* ===================================================================== *)
(** ** Executions of the router                                           *)
(* ===================================================================== *)

Module RouterRuns.
Import JsString Js Codex.

(** A subscriber that receives nothing any more: it was deactivated
    (teardown, completion), or its [next] throws. *)
Definition mute (o : Observer) : Prop :=
  isActive o = false ∨ sinkThrows o = true.

(** Muted subscribers stay muted and receive nothing; deactivated ones
    are left exactly as they are. *)
Definition keepsMuted : relation State :=
  λ s s', ∀ ctl o,
    observers s !! ctl = Some o → mute o →
    ∃ o', observers s' !! ctl = Some o'
          ∧ mute o'
          ∧ emitted o' = emitted o
          ∧ (isActive o = false → o' = o).

(** Everything recorded for sub-chats other than [subChatId] is left
    alone: their provider sessions and their registered runs. *)
Definition onlyTouches (subChatId : string) : relation State :=
  λ s s', ∀ other, other ≠ subChatId →
    providerSessions s' !! other = providerSessions s !! other
    ∧ activeStreams s' !! other = activeStreams s !! other.

(** The allocator never goes back. *)
Definition growsIds : relation State :=
  λ s s', (nextId s ≤ nextId s')%nat.

Definition notAbort (e : event) : Prop :=
  match e with EvAbort _ => False | _ => True end.

(** The server state together with the closures of the subscriptions
    made so far: the input and the [AbortController] of each. *)
Record RouterRun := {
  server : State;
  subscriptions : list (ChatInput * nat);
}.

(** What can happen to the router: a client subscribes to [chat]; the
    asynchronous body of a subscription runs against some behaviour of
    the collaborators; tRPC calls the teardown function of a
    subscription; a client calls [cancel] or [cleanup]. *)
Inductive RouterOp :=
| OpSubscribe (input : ChatInput) (subscriberThrows : bool)
| OpBody (k : nat) (sc : TurnScript)
| OpTeardown (k : nat)
| OpCancel (subChatId run : string)
| OpCleanup (subChatId : string).

Definition stepOp (X : Externals) (op : RouterOp) (r : RouterRun) : RouterRun :=
  match op with
  | OpSubscribe input subscriberThrows =>
      match chatSubscribe input subscriberThrows (server r) with
      | (s', Ok ctl) =>
          {| server := s'; subscriptions := subscriptions r ++ [(input, ctl)] |}
      | (s', Throw _) =>
          {| server := s'; subscriptions := subscriptions r |}
      end
  | OpBody k sc =>
      match subscriptions r !! k with
      | Some (input, ctl) =>
          {| server := (chatBody X input ctl sc (server r)).1;
             subscriptions := subscriptions r |}
      | None => r
      end
  | OpTeardown k =>
      match subscriptions r !! k with
      | Some (input, ctl) =>
          {| server := (chatTeardown input ctl (server r)).1;
             subscriptions := subscriptions r |}
      | None => r
      end
  | OpCancel subChatId run =>
      {| server := (cancel subChatId run (server r)).1;
         subscriptions := subscriptions r |}
  | OpCleanup subChatId =>
      {| server := (cleanup subChatId (server r)).1;
         subscriptions := subscriptions r |}
  end.

Definition runOps (X : Externals) (ops : list RouterOp) (r : RouterRun)
  : RouterRun :=
  foldl (λ r op, stepOp X op r) r ops.

(** The router when the process starts: empty maps, empty trace. *)
Definition initialState : State :=
  {| providerSessions := ∅; activeStreams := ∅; observers := ∅;
     subChats := ∅; nextId := 0; trace := [] |}.

(** The same with a transcript store. *)
Definition initialWith (db : gmap string (option value)) : RouterRun :=
  {| server := set_subChats (λ _, db) initialState; subscriptions := [] |}.

(** The run registry never holds a run that was aborted: identities are
    below the allocator, each subscription has a controller of its own,
    and every registered run is the run of a subscription whose
    controller has not been aborted. *)
Definition registryInv (r : RouterRun) : Prop :=
  (∀ c, EvAbort c ∈ trace (server r) → (c < nextId (server r))%nat)
  ∧ (∀ input ctl, (input, ctl) ∈ subscriptions r →
                  (ctl < nextId (server r))%nat)
  ∧ NoDup (subscriptions r).*2
  ∧ (∀ subChatId a,
        activeStreams (server r) !! subChatId = Some a →
        (EvAbort (controller a) ∉ trace (server r))
        ∧ ∃ input, (input, controller a) ∈ subscriptions r
                   ∧ in_subChatId input = subChatId
                   ∧ in_runId input = runId a).

End RouterRuns.


(* ===================================================================== *)
(** ** The chat transport: message parts, model choice, stream events    *)
(* ===================================================================== *)

Module ChatTransport.
Import JsString Js Codex Transport.

(** The [TypeError] the engine raises for a property read on [null] or
    [undefined], a call of a non-function, or a [for...of] over a value
    that is not iterable; its message is the engine's own. *)
Definition typeError : value := VError "TypeError" "" [].

(** The values [for (const part of v)] visits. *)
Definition iterate (v : value) : result (list value) :=
  match v with
  | VArr items => Ok items
  | VStr s => Ok (map (λ a, VStr (String a "")) (list_ascii_of_string s))
  | _ => Throw typeError
  end.

(** [filePart.filePath?.split("/").pop() || filePart.filePath || "file"] *)
Definition fileNameOf (filePath : value) : result string :=
  match filePath with
  | VUndefined | VNull => Ok "file"
  | VStr p =>
      Ok (if nonempty (lastSegment p) then lastSegment p
          else if nonempty p then p else "file")
  | _ => Throw typeError
  end.

(** One iteration of the loop of [extractText]; the accumulator is
    [(textParts, fileContents)]. *)
Definition textStep (acc : result (list value * list string)) (part : value)
  : result (list value * list string) :=
  match acc with
  | Throw e => Throw e
  | Ok (textParts, fileContents) =>
      match part with
      | VUndefined | VNull => Throw typeError
      | _ =>
          if (isStr (get "type" part) "text" && truthy (get "text" part))%bool
          then Ok (textParts ++ [get "text" part], fileContents)
          else if isStr (get "type" part) "file-content" then
            match fileNameOf (get "filePath" part) with
            | Throw e => Throw e
            | Ok fileName =>
                Ok (textParts,
                    fileContents
                    ++ [nl +:+ "--- " +:+ fileName +:+ " ---" +:+ nl
                        +:+ toString (get "content" part)])
            end
          else Ok (textParts, fileContents)
      end
  end.

(** [ACPChatTransport.extractText] *)
Definition extractText (message : value) : result string :=
  if negb (truthy message) then Ok ""
  else
    let parts := get "parts" message in
    if negb (truthy parts) then Ok ""
    else
      match iterate parts with
      | Throw e => Throw e
      | Ok items =>
          match foldl textStep (Ok ([], [])) items with
          | Throw e => Throw e
          | Ok (textParts, fileContents) =>
              Ok (join nl (map toString textParts) +:+ join "" fileContents)
          end
      end.

(** One iteration of the loop of [extractImages]. *)
Definition imageStep (acc : result (list value)) (part : value)
  : result (list value) :=
  match acc with
  | Throw e => Throw e
  | Ok images =>
      match part with
      | VUndefined | VNull => Throw typeError
      | _ =>
          if (isStr (get "type" part) "data-image"
              && truthy (get "data" part))%bool
          then
            let data := get "data" part in
            if (truthy (get "base64Data" data)
                && truthy (get "mediaType" data))%bool
            then Ok (images
                     ++ [VObj [("base64Data", get "base64Data" data);
                               ("mediaType", get "mediaType" data);
                               ("filename", get "filename" data)]])
            else Ok images
          else Ok images
      end
  end.

(** [ACPChatTransport.extractImages] *)
Definition extractImages (message : value) : result (list value) :=
  let parts := get "parts" message in
  if negb (truthy parts) then Ok []
  else
    match iterate parts with
    | Throw e => Throw e
    | Ok items => foldl imageStep (Ok []) items
    end.

(** An entry of [CODEX_MODELS]: the fields [getSelectedCodexModel]
    reads. *)
Record CodexModel := {
  model_id : string;
  thinkings : list string;
}.

Section Models.
(** The model table of [./models]. *)
Variable CODEX_MODELS : list CodexModel.

Definition findModel (modelId : string) : option CodexModel :=
  find (λ model, String.eqb (model_id model) modelId) CODEX_MODELS.

(** [getSelectedCodexModel]; the arguments are the values of
    [lastSelectedCodexModelIdAtom] and [lastSelectedCodexThinkingAtom]. *)
Definition getSelectedCodexModel (selectedModelId selectedThinking : string)
  : string :=
  let selectedModel :=
    match findModel selectedModelId with
    | Some model => Some model
    | None =>
        match findModel "gpt-5.3-codex" with
        | Some model => Some model
        | None => head CODEX_MODELS
        end
    end in
  match selectedModel with
  | None => DEFAULT_CODEX_MODEL
  | Some selectedModel =>
      let normalizedThinking :=
        if existsb (String.eqb selectedThinking) (thinkings selectedModel)
        then Some selectedThinking
        else if existsb (String.eqb "high") (thinkings selectedModel)
        then Some "high"
        else head (thinkings selectedModel) in
      match normalizedThinking with
      | None => DEFAULT_CODEX_MODEL
      | Some normalizedThinking =>
          if negb (nonempty normalizedThinking) then DEFAULT_CODEX_MODEL
          else model_id selectedModel +:+ "/" +:+ normalizedThinking
      end
  end.
End Models.

(** What reaches the closure of one [sendMessages] call: the callbacks
    of the subscription and the abort of the caller's signal. *)
Inductive SubEvent :=
| OnData (chunk : value) (integration : option CodexIntegrationState)
| OnError (errorMessage : string)
| OnComplete
| OnAbort.

Definition subStep (send : Send) (ev : SubEvent)
    (sc : ClientState * StreamController) : ClientState * StreamController :=
  let '(st, c) := sc in
  match ev with
  | OnData chunk integration => onData send integration chunk st c
  | OnError errorMessage =>
      (toastError {| title := "Codex request failed";
                     description := VStr errorMessage |} st,
       controllerError errorMessage c)
  | OnComplete => (st, controllerClose c)
  | OnAbort => (st, controllerClose c)
  end.

Definition feed (send : Send) (events : list SubEvent)
    (sc : ClientState * StreamController) : ClientState * StreamController :=
  foldl (λ sc ev, subStep send ev sc) sc events.


(** The image objects the transport sends for typed attachments. *)
Definition imageValue (image : ImageAttachment) : value :=
  VObj [("base64Data", VStr (base64Data image));
        ("mediaType", VStr (mediaType image));
        ("filename", from_option VStr VUndefined (filename image))].

(** The attachments [buildUserParts] keeps. *)
Definition usableImage (image : ImageAttachment) : bool :=
  (nonempty (base64Data image) && nonempty (mediaType image))%bool.

End ChatTransport.

(* ===================================================================== *)
(** ** The login flow: the registry of login sessions                     *)
(* ===================================================================== *)

Module LoginFlow.
Import JsString Js Codex CodexLogin.

(** The [loginSessions] map with the order in which its keys were
    inserted, which is the order [values()] iterates in. *)
Record LoginRegistry := {
  loginSessions : gmap string CodexLoginSession;
  insertionOrder : list string;
}.



(** [session.state === "running" && session.process
     && !session.process.killed] *)
Definition isActiveLogin (session : CodexLoginSession) : bool :=
  match state session, process session with
  | Running, Some p => negb (killed p)
  | _, _ => false
  end.


Record LoginSessionResponse := {
  r_sessionId : string;
  r_state : CodexLoginSessionState;
  r_url : option string;
  r_output : string;
  r_error : option string;
  r_exitCode : option Z;
}.

Definition toLoginSessionResponse (session : CodexLoginSession)
  : LoginSessionResponse :=
  {| r_sessionId := id session; r_state := state session;
     r_url := url session; r_output := output session;
     r_error := error session; r_exitCode := exitCode session |}.



(** [codexRouter.getLoginSession] *)
Definition getLoginSession (sessionId : string) (r : LoginRegistry)
  : result LoginSessionResponse :=
  match loginSessions r !! sessionId with
  | None => Throw (VError "Error" "Codex login session not found" [])
  | Some session => Ok (toLoginSessionResponse session)
  end.


Section Output.
Variable stripAnsi : string → string.
Variable extractFirstNonLocalhostUrl : string → option string.




End Output.

End LoginFlow.

(* ===================================================================== *)
(** ** The bundled Codex CLI: checked runs, integration state, logout     *)
(* ===================================================================== *)

Module CodexCli.
Import JsString Js Codex.
Import Transport (CodexIntegrationState, ConnectedChatgpt, ConnectedApiKey,
                  NotLoggedIn, Unknown).

(** What the promise of [runCodexCli] resolves with. *)
Record CliResult := {
  stdout : string;
  stderr : string;
  exitCode : option Z;
}.

Definition exitedWithZero (r : CliResult) : bool :=
  bool_decide (exitCode r = Some 0).

(** [runCodexCliChecked]; [run] is the outcome of [runCodexCli]. *)
Definition runCodexCliChecked (run : result CliResult)
  : result (string * string) :=
  match run with
  | Throw e => Throw e
  | Ok r =>
      if exitedWithZero r then Ok (stdout r, stderr r)
      else
        let message :=
          if nonempty (trim (stderr r)) then trim (stderr r)
          else if nonempty (trim (stdout r)) then trim (stdout r)
          else "Codex command failed with exit code "
               +:+ from_option pretty "unknown" (exitCode r) in
        Throw (VError "Error" message [])
  end.

(** [[stdout, stderr].filter((chunk) => chunk.trim().length > 0)
      .join("\n").trim()] *)
Definition combinedOutput (r : CliResult) : string :=
  trim (join nl (List.filter (λ chunk, nonempty (trim chunk))
                   [stdout r; stderr r])).

Definition normalizeCodexIntegrationState (rawOutput : string)
  : CodexIntegrationState :=
  let normalizedOutput := toLowerCase rawOutput in
  if includes "logged in using chatgpt" normalizedOutput
  then ConnectedChatgpt
  else if (includes "logged in using an api key" normalizedOutput
           || includes "logged in using api key" normalizedOutput)%bool
  then ConnectedApiKey
  else if includes "not logged in" normalizedOutput then NotLoggedIn
  else Unknown.

Definition isConnectedState (state : CodexIntegrationState) : bool :=
  match state with
  | ConnectedChatgpt | ConnectedApiKey => true
  | _ => false
  end.

Record IntegrationResponse := {
  i_state : CodexIntegrationState;
  i_isConnected : bool;
  i_rawOutput : string;
  i_exitCode : option Z;
}.

(** [codexRouter.getIntegration]; [statusRun] is the outcome of
    [runCodexCli(["login", "status"])]. *)
Definition getIntegration (statusRun : result CliResult)
  : result IntegrationResponse :=
  match statusRun with
  | Throw e => Throw e
  | Ok r =>
      let state := normalizeCodexIntegrationState (combinedOutput r) in
      Ok {| i_state := state; i_isConnected := isConnectedState state;
            i_rawOutput := combinedOutput r; i_exitCode := exitCode r |}
  end.

Record LogoutResponse := {
  l_success : bool;
  l_state : CodexIntegrationState;
  l_isConnected : bool;
  l_logoutExitCode : option Z;
  l_logoutOutput : string;
  l_statusOutput : string;
}.

(** [codexRouter.logout]; the status command runs once the logout
    command has resolved. *)
Definition logout (logoutRun statusRun : result CliResult)
  : result LogoutResponse :=
  match logoutRun with
  | Throw e => Throw e
  | Ok logoutResult =>
      match statusRun with
      | Throw e => Throw e
      | Ok statusResult =>
          let statusOutput := combinedOutput statusResult in
          let state := normalizeCodexIntegrationState statusOutput in
          if isConnectedState state
          then Throw (VError "Error"
                        "Failed to log out from Codex. Please try again." [])
          else Ok {| l_success := true; l_state := state;
                     l_isConnected := false;
                     l_logoutExitCode := exitCode logoutResult;
                     l_logoutOutput := combinedOutput logoutResult;
                     l_statusOutput := statusOutput |}
      end
  end.

End CodexCli.

(* ===================================================================== *)
(** ** Tool servers: authentication state and tool lists                  *)
(* ===================================================================== *)

Module CodexMcp.
Import JsString Js Codex.

Record McpAuthState := {
  supportsAuth : bool;
  authenticated : bool;
  needsAuth : bool;
}.

(** [getCodexMcpAuthState]; [None] is [null] or [undefined]. *)
Definition getCodexMcpAuthState (authStatus : option string)
  : McpAuthState :=
  let normalized := toLowerCase (trim (default "" authStatus)) in
  if (String.eqb normalized "" || String.eqb normalized "none"
      || String.eqb normalized "unsupported")%bool
  then {| supportsAuth := false; authenticated := false;
          needsAuth := false |}
  else if String.eqb normalized "not_logged_in"
  then {| supportsAuth := true; authenticated := false; needsAuth := true |}
  else if (String.eqb normalized "bearer_token"
           || String.eqb normalized "o_auth")%bool
  then {| supportsAuth := true; authenticated := true; needsAuth := false |}
  else {| supportsAuth := true; authenticated := false;
          needsAuth := false |}.

(** [Map.prototype.set] on a map kept in insertion order: an existing
    key keeps its place. *)
Fixpoint mapSet {A} (k : string) (v : A) (m : list (string * A))
  : list (string * A) :=
  match m with
  | [] => [(k, v)]
  | (k', v') :: rest =>
      if String.eqb k k' then (k, v) :: rest
      else (k', v') :: mapSet k v rest
  end.

(** The entry [normalizeCodexTools] stores for a tool. *)
Definition toolEntry (name : string) (tool : value) : value :=
  VObj (("name", VStr name)
        :: if truthy (get "description" tool)
           then [("description", get "description" tool)] else []).

Definition toolStep (unique : list (string * value)) (tool : value)
  : list (string * value) :=
  match get "name" tool with
  | VStr name =>
      if nonempty (trim name)
      then mapSet (trim name) (toolEntry (trim name) tool) unique
      else unique
  | _ => unique
  end.

Definition normalizeCodexTools (tools : list value) : list value :=
  (foldl toolStep [] tools).*2.

(** An entry as [normalizeCodexTools] keeps it under the key [kv.1]. *)
Definition canonical (kv : string * value) : Prop :=
  kv.1 ≠ "" ∧ trim kv.1 = kv.1 ∧ ∃ tool, kv.2 = toolEntry kv.1 tool.

(** The name of a normalized tool. *)
Definition toolName (tool : value) : option string :=
  asString (get "name" tool).

End CodexMcp.

(* ===================================================================== *)
(** ** The turn executor: what is handed to the model stream              *)
(* ===================================================================== *)

Module ModelStream.
Import JsString Js Codex.
Import ChatTransport (typeError).

(** The part [buildModelMessageContent] pushes for an image, if any. *)
Definition filePartOf (image : ImageAttachment) : option value :=
  if (negb (nonempty (base64Data image))
      || negb (nonempty (mediaType image)))%bool
  then None
  else Some (VObj
    ([("type", VStr "file");
      ("mediaType", VStr (mediaType image));
      ("data", VStr (base64Data image))]
     ++ match filename image with
        | Some name =>
            if nonempty name then [("filename", VStr name)] else []
        | None => []
        end)).

(** [buildModelMessageContent] *)
Definition buildModelMessageContent (prompt : string)
    (images : list ImageAttachment) : list value :=
  VObj [("type", VStr "text"); ("text", VStr prompt)]
  :: omap filePartOf images.

(** The part [buildUserParts] pushes for an image, if any. *)
Definition imagePartOf (image : ImageAttachment) : option value :=
  if (negb (nonempty (base64Data image))
      || negb (nonempty (mediaType image)))%bool
  then None
  else Some (VObj
    [("type", VStr "data-image");
     ("data", VObj
        [("base64Data", VStr (base64Data image));
         ("mediaType", VStr (mediaType image));
         ("filename", from_option VStr VUndefined (filename image))])]).

(** [v.k] without optional chaining. *)
Definition getStrict (k : string) (v : value) : result value :=
  match v with
  | VUndefined | VNull => Throw typeError
  | _ => Ok (get k v)
  end.

(** The [messageMetadata] callback of [toUIMessageStream].
    [providerSessionId] is [provider.getSessionId()] ([None]: null),
    [durationMs] is [Date.now() - startedAt]. *)
Definition messageMetadata (metadataModel : string)
    (providerSessionId : option string) (durationMs : Z) (part : value)
  : result value :=
  let sessionId :=
    match providerSessionId with
    | Some sid => if nonempty sid then VStr sid else VUndefined
    | None => VUndefined
    end in
  match getStrict "type" part with
  | Throw e => Throw e
  | Ok type =>
      if isStr type "finish" then
        match getStrict "inputTokens" (get "totalUsage" part) with
        | Throw e => Throw e
        | Ok inputTokens =>
            Ok (VObj
              [("model", VStr metadataModel);
               ("sessionId", sessionId);
               ("inputTokens", inputTokens);
               ("outputTokens", get "outputTokens" (get "totalUsage" part));
               ("totalTokens", get "totalTokens" (get "totalUsage" part));
               ("durationMs", VNum durationMs);
               ("resultSubtype",
                VStr (if isStr (get "finishReason" part) "error"
                      then "error" else "success"))])
        end
      else if truthy sessionId
      then Ok (VObj [("model", VStr metadataModel);
                     ("sessionId", sessionId)])
      else Ok (VObj [("model", VStr metadataModel)])
  end.

(** The model id [chat] hands to [provider.languageModel] and records
    as [metadataModel]. *)
Definition selectedModelId (input : ChatInput) : string :=
  preprocessCodexModelName
    (default DEFAULT_CODEX_MODEL (extractCodexModelId (in_model input)))
    (in_authConfig input).

(** The attachment carried by a stored [data-image] part, and by a
    [file] part of the model message: media type and data. *)
Definition storedAttachment (part : value) : option (value * value) :=
  if isStr (get "type" part) "data-image"
  then Some (get "mediaType" (get "data" part),
             get "base64Data" (get "data" part))
  else None.

Definition modelAttachment (part : value) : option (value * value) :=
  if isStr (get "type" part) "file"
  then Some (get "mediaType" part, get "data" part)
  else None.

(** The text parts of a message. *)
Definition textOf (part : value) : option value :=
  if isStr (get "type" part) "text" then Some (get "text" part) else None.

End ModelStream.

(* ===================================================================== *)
(** ** Plain objects with string values                                   *)
(* ===================================================================== *)

Module JsObject.
Import JsString.

(** An ordinary object whose prototype is [Object.prototype] and whose
    own properties are enumerable strings ([Record<string, string>]):
    the own properties in property order, which is the order of
    [Object.entries] and [Object.keys]. *)
Definition object : Type := list (string * string).

(** The property names every such object inherits. *)
Definition protoKeys : list string :=
  [ "constructor"; "__defineGetter__"; "__defineSetter__";
    "hasOwnProperty"; "__lookupGetter__"; "__lookupSetter__";
    "isPrototypeOf"; "propertyIsEnumerable"; "toString"; "valueOf";
    "__proto__"; "toLocaleString" ].

Definition inherited (k : string) : bool :=
  existsb (String.eqb k) protoKeys.

Fixpoint ownGet (k : string) (o : object) : option string :=
  match o with
  | [] => None
  | (k', v) :: rest => if String.eqb k k' then Some v else ownGet k rest
  end.

(** [Boolean(o[k])]: an own non-empty string, or an inherited member. *)
Definition truthyAt (k : string) (o : object) : bool :=
  match ownGet k o with
  | Some v => nonempty v
  | None => inherited k
  end.

Definition digitOf (a : ascii) : option N :=
  let n := N_of_ascii a in
  if ((48 <=? n) && (n <=? 57))%N then Some (n - 48)%N else None.

Fixpoint digits (s : string) (acc : N) : option N :=
  match s with
  | EmptyString => Some acc
  | String a s' =>
      match digitOf a with
      | Some d => digits s' (10 * acc + d)%N
      | None => None
      end
  end.

(** The array index a property name denotes, if it is one: a canonical
    decimal numeral below [2^32 - 1]. *)
Definition arrayIndex (k : string) : option N :=
  match k with
  | EmptyString => None
  | String a rest =>
      if (Ascii.eqb a "0" && nonempty rest)%bool then None
      else match digits k 0 with
           | Some n => if (n <=? 4294967294)%N then Some n else None
           | None => None
           end
  end.

Fixpoint replaceOwn (k v : string) (o : object) : object :=
  match o with
  | [] => []
  | (k', v') :: rest =>
      if String.eqb k k' then (k, v) :: rest
      else (k', v') :: replaceOwn k v rest
  end.

(** A new index property goes among the index properties, in ascending
    numeric order. *)
Fixpoint insertIndex (n : N) (k v : string) (o : object) : object :=
  match o with
  | [] => [(k, v)]
  | (k', v') :: rest =>
      match arrayIndex k' with
      | Some n' =>
          if (n' <? n)%N then (k', v') :: insertIndex n k v rest
          else (k, v) :: o
      | None => (k, v) :: o
      end
  end.

(** [o[k] = v] for a string [v].  Assigning to [__proto__] runs the
    inherited setter, which ignores a string; an existing property
    keeps its place; a new one is created, index properties first and
    the others in creation order. *)
Definition ownSet (k v : string) (o : object) : object :=
  if String.eqb k "__proto__" then o
  else match ownGet k o with
       | Some _ => replaceOwn k v o
       | None =>
           match arrayIndex k with
           | Some n => insertIndex n k v o
           | None => o ++ [(k, v)]
           end
       end.

(** [for (const [name, value] of Object.entries(source)) o[name] = value] *)
Definition assignAll (source : object) (o : object) : object :=
  foldl (λ o kv, ownSet kv.1 kv.2 o) o source.

End JsObject.

(* ===================================================================== *)
(** ** Tool servers: environment, headers and the session list            *)
(* ===================================================================== *)

Module McpServers.
Import JsString Js Codex JsObject CodexMcp.
Import ChatTransport (typeError).

(** The [transport] object of an entry of [codex mcp list --json], as
    the schema validates it; [None] is [null] or an absent key. *)
Record McpTransport := {
  t_type : string;
  t_command : option string;
  t_args : option (list string);
  t_env : option object;
  t_env_vars : option (list string);
  t_cwd : option string;
  t_url : option string;
  t_bearer_token_env_var : option string;
  t_http_headers : option object;
  t_env_http_headers : option object;
}.

Record McpListEntry := {
  e_name : string;
  e_enabled : bool;
  e_disabled_reason : option string;
  e_transport : McpTransport;
  e_auth_status : option string;
}.

(** [objectToPairs] *)
Definition objectToPairs (value : option object)
  : option (list (string * string)) :=
  match value with
  | None => None
  | Some o => match o with [] => None | _ => Some o end
  end.

Section Environment.
(** [process.env]: the value of a variable that is set. *)
Variable processEnv : string → option string.

Definition passEnvVar (merged : object) (envName : string) : object :=
  match processEnv envName with
  | Some value =>
      if (nonempty value && negb (truthyAt envName merged))%bool
      then ownSet envName value merged
      else merged
  | None => merged
  end.

(** [resolveCodexStdioEnv] *)
Definition resolveCodexStdioEnv (transport : McpTransport) : option object :=
  let merged : object := [] in
  let merged :=
    match t_env transport with
    | Some env => assignAll env merged
    | None => merged
    end in
  let merged :=
    match t_env_vars transport with
    | Some names => foldl passEnvVar merged names
    | None => merged
    end in
  match merged with [] => None | _ => Some merged end.

Definition passEnvHeader (merged : object) (kv : string * string) : object :=
  match processEnv kv.2 with
  | Some value => if nonempty value then ownSet kv.1 value merged else merged
  | None => merged
  end.

(** [process.env[name]?.trim()]: a set variable is a string; an unset
    one reads as [undefined], unless the name is inherited from
    [Object.prototype], whose member has no [trim]. *)
Definition envTrimmed (name : string) : result (option string) :=
  match processEnv name with
  | Some value => Ok (Some (trim value))
  | None => if inherited name then Throw typeError else Ok None
  end.

(** [resolveCodexHttpHeaders] *)
Definition resolveCodexHttpHeaders (transport : McpTransport)
  : result (option object) :=
  let merged : object := [] in
  let merged :=
    match t_http_headers transport with
    | Some headers => assignAll headers merged
    | None => merged
    end in
  let merged :=
    match t_env_http_headers transport with
    | Some headers => foldl passEnvHeader merged headers
    | None => merged
    end in
  let bearerEnvVar := trim <$> t_bearer_token_env_var transport in
  let withBearer : result object :=
    match bearerEnvVar with
    | Some bearerEnvVar =>
        if (nonempty bearerEnvVar
            && negb (truthyAt "Authorization" merged))%bool
        then
          match envTrimmed bearerEnvVar with
          | Throw e => Throw e
          | Ok (Some token) =>
              if nonempty token
              then Ok (ownSet "Authorization" ("Bearer " +:+ token) merged)
              else Ok merged
          | Ok None => Ok merged
          end
        else Ok merged
    | None => Ok merged
    end in
  match withBearer with
  | Throw e => Throw e
  | Ok merged => Ok (match merged with [] => None | _ => Some merged end)
  end.

End Environment.

End McpServers.

(* ===================================================================== *)
(** ** Tool servers: the snapshot and its cache                           *)
(* ===================================================================== *)

Module McpSnapshot.
Import JsString Js Codex JsObject CodexMcp McpServers CodexCli.

Inductive ServerStatus :=
| StatusConnected
| StatusFailed
| StatusPending
| StatusNeedsAuth.

Record CodexMcpServerForSettings := {
  s_name : string;
  s_status : ServerStatus;
  s_tools : list value;
  s_needsAuth : bool;
  s_config : value;
}.

Record McpGroup := {
  groupName : string;
  projectPath : option string;
  mcpServers : list CodexMcpServerForSettings;
}.

(** [CodexMcpSnapshot] with all its fields. *)
Record Snapshot := {
  forSession : list CodexMcpServerForSession;
  groups : list McpGroup;
  snapshotFingerprint : string;
  fetchedAt : Z;
  snapshotToolsResolved : bool;
}.

(** The fields the turn executor reads. *)
Definition forTurn (snapshot : Snapshot) : CodexMcpSnapshot :=
  {| mcpServersForSession := forSession snapshot;
     fingerprint := snapshotFingerprint snapshot;
     toolsResolved := snapshotToolsResolved snapshot |}.

(** [value || undefined] for a string. *)
Definition orUndefined (s : option string) : option string :=
  match s with
  | Some t => if nonempty t then Some t else None
  | None => None
  end.

Definition objectValue (o : object) : value :=
  VObj ((λ kv, (kv.1, VStr kv.2)) <$> o).

Definition isHttpTransport (transportType : string) : bool :=
  (String.eqb transportType "streamable_http"
   || String.eqb transportType "http"
   || String.eqb transportType "sse")%bool.

(** [resolveCodexLookupPath] *)
Definition resolveCodexLookupPath (pathCandidate : option string) : string :=
  match pathCandidate with
  | Some p => if nonempty (trim p) then trim p else "__global__"
  | None => "__global__"
  end.

(** What [JSON.parse] and the schema make of the output of
    [codex mcp list --json]. *)
Inductive ParsedList :=
| NotJson
| SchemaError (error : value)
| Entries (entries : list McpListEntry).

Record SnapshotParams := {
  lookupPath : option string;
  forceRefresh : bool;
  includeTools : bool;
}.

Section Collaborators.
Variable processEnv : string → option string.
(** [fetchMcpToolsStdio] and [fetchMcpTools], raced against the probe
    timeout: [None] when the probe rejects or the timeout wins. *)
Variable fetchMcpToolsStdio :
  string → option (list string) → option object → option (list value).
Variable fetchMcpTools : string → option object → option (list value).
Variable getCodexMcpFingerprint : list CodexMcpServerForSession → string.
(** [runCodexCli(args, { cwd })] *)
Variable runCodexCli : list string → option string → result CliResult.
Variable parseList : string → ParsedList.

(** [fetchCodexMcpTools] *)
Definition fetchCodexMcpTools (entry : McpListEntry) : list value :=
  let transport := e_transport entry in
  let transportType := toLowerCase (trim (t_type transport)) in
  let fetched : option (list value) :=
    if String.eqb transportType "stdio" then
      match orUndefined (trim <$> t_command transport) with
      | None => Some []
      | Some command =>
          fetchMcpToolsStdio command (t_args transport)
            (resolveCodexStdioEnv processEnv transport)
      end
    else if isHttpTransport transportType then
      match orUndefined (trim <$> t_url transport) with
      | None => Some []
      | Some url =>
          match resolveCodexHttpHeaders processEnv transport with
          | Throw _ => None
          | Ok headers => fetchMcpTools url headers
          end
      end
    else Some [] in
  match fetched with
  | Some tools => normalizeCodexTools tools
  | None => []
  end.

Definition initialStatus (entry : McpListEntry) : ServerStatus :=
  if negb (e_enabled entry) then StatusFailed
  else if needsAuth (getCodexMcpAuthState (e_auth_status entry))
  then StatusNeedsAuth
  else StatusConnected.

(** The [sessionServer] of an entry. *)
Definition sessionServerOf (entry : McpListEntry)
    (resolvedStdioEnv resolvedHttpHeaders : option object)
  : option CodexMcpServerForSession :=
  let transport := e_transport entry in
  let transportType := toLowerCase (trim (t_type transport)) in
  if String.eqb transportType "stdio" then
    match orUndefined (t_command transport) with
    | Some command =>
        if e_enabled entry
        then Some (McpStdio (e_name entry) command
                     (default [] (t_args transport))
                     (default [] (objectToPairs resolvedStdioEnv)))
        else None
    | None => None
    end
  else if isHttpTransport transportType then
    match orUndefined (t_url transport) with
    | Some url =>
        if e_enabled entry
        then Some (McpHttp (e_name entry) url
                     (default [] (objectToPairs resolvedHttpHeaders)))
        else None
    | None => None
    end
  else None.

(** The [settingsConfig] of an entry. *)
Definition settingsConfigOf (entry : McpListEntry) : value :=
  let transport := e_transport entry in
  let transportType := toLowerCase (trim (t_type transport)) in
  let optional {A} (f : A → value) (x : option A) : value :=
    from_option f VUndefined x in
  VObj
    ([("transportType", VStr (t_type transport));
      ("authStatus", VStr (default "unknown" (e_auth_status entry)));
      ("enabled", VBool (e_enabled entry));
      ("disabledReason", optional VStr (e_disabled_reason entry))]
     ++ if String.eqb transportType "stdio" then
          [("command", optional VStr (orUndefined (t_command transport)));
           ("args", optional (λ args, VArr (VStr <$> args))
                      (t_args transport));
           ("env", optional objectValue (t_env transport));
           ("envVars", optional (λ names, VArr (VStr <$> names))
                         (t_env_vars transport))]
        else if isHttpTransport transportType then
          [("url", optional VStr (orUndefined (t_url transport)));
           ("headers", optional objectValue (t_http_headers transport));
           ("envHttpHeaders",
            optional objectValue (t_env_http_headers transport));
           ("bearerTokenEnvVar",
            optional VStr
              (orUndefined (t_bearer_token_env_var transport)))]
        else []).

Definition shouldProbeTools (shouldIncludeTools : bool)
    (entry : McpListEntry) (resolvedHttpHeaders : option object) : bool :=
  let transportType := toLowerCase (trim (t_type (e_transport entry))) in
  let authState := getCodexMcpAuthState (e_auth_status entry) in
  (shouldIncludeTools && e_enabled entry && negb (needsAuth authState)
   && (negb (supportsAuth authState)
       || String.eqb transportType "stdio"
       || match resolvedHttpHeaders with
          | Some headers => truthyAt "Authorization" headers
          | None => false
          end))%bool.

(** The conversion of one entry of the list. *)
Definition convertEntry (shouldIncludeTools : bool) (entry : McpListEntry)
  : result (option CodexMcpServerForSession * CodexMcpServerForSettings) :=
  let resolvedStdioEnv := resolveCodexStdioEnv processEnv (e_transport entry) in
  match resolveCodexHttpHeaders processEnv (e_transport entry) with
  | Throw e => Throw e
  | Ok resolvedHttpHeaders =>
      let probe :=
        shouldProbeTools shouldIncludeTools entry resolvedHttpHeaders in
      let tools := if probe then fetchCodexMcpTools entry else [] in
      let status :=
        if (probe && bool_decide (tools = []))%bool then StatusFailed
        else initialStatus entry in
      Ok (sessionServerOf entry resolvedStdioEnv resolvedHttpHeaders,
          {| s_name := e_name entry; s_status := status; s_tools := tools;
             s_needsAuth :=
               needsAuth (getCodexMcpAuthState (e_auth_status entry));
             s_config := settingsConfigOf entry |})
  end.

(** [await Promise.all(entries.map(...))] *)
Fixpoint convertAll (shouldIncludeTools : bool) (entries : list McpListEntry)
  : result (list (option CodexMcpServerForSession
                  * CodexMcpServerForSettings)) :=
  match entries with
  | [] => Ok []
  | entry :: rest =>
      match convertEntry shouldIncludeTools entry,
            convertAll shouldIncludeTools rest with
      | Throw e, _ => Throw e
      | Ok _, Throw e => Throw e
      | Ok converted, Ok others => Ok (converted :: others)
      end
  end.

(** The part of [resolveCodexMcpSnapshot] after a cache miss. *)
Definition fetchSnapshot (lookup : string) (shouldIncludeTools : bool)
    (now : Z) : result Snapshot :=
  match runCodexCliChecked
          (runCodexCli ["mcp"; "list"; "--json"]
             (if String.eqb lookup "__global__" then None else Some lookup))
  with
  | Throw e => Throw e
  | Ok (stdout, _) =>
      match parseList stdout with
      | NotJson =>
          Throw (VError "Error"
                   "Failed to parse Codex MCP list JSON output." [])
      | SchemaError e => Throw e
      | Entries entries =>
          match convertAll shouldIncludeTools entries with
          | Throw e => Throw e
          | Ok convertedEntries =>
              let mcpServersForSession := omap fst convertedEntries in
              Ok {| forSession := mcpServersForSession;
                    groups :=
                      [{| groupName := "Global"; projectPath := None;
                          mcpServers := snd <$> convertedEntries |}];
                    snapshotFingerprint :=
                      getCodexMcpFingerprint mcpServersForSession;
                    fetchedAt := now;
                    snapshotToolsResolved := shouldIncludeTools |}
          end
      end
  end.

(** [resolveCodexMcpSnapshot], one call run to its end, on the
    [codexMcpCache]; [now] is [Date.now()]. *)
Definition resolveCodexMcpSnapshot (params : SnapshotParams) (now : Z)
    (codexMcpCache : gmap string Snapshot)
  : gmap string Snapshot * result Snapshot :=
  let lookup := resolveCodexLookupPath (lookupPath params) in
  let cached := codexMcpCache !! lookup in
  let shouldIncludeTools := includeTools params in
  let usable :=
    match cached with
    | Some cached =>
        (negb (forceRefresh params)
         && (negb shouldIncludeTools || snapshotToolsResolved cached))%bool
    | None => false
    end in
  match cached, usable with
  | Some cached, true => (codexMcpCache, Ok cached)
  | _, _ =>
      match fetchSnapshot lookup shouldIncludeTools now with
      | Throw e => (codexMcpCache, Throw e)
      | Ok snapshot => (<[lookup := snapshot]> codexMcpCache, Ok snapshot)
      end
  end.

(** [clearCodexMcpCache] *)
Definition clearCodexMcpCache (codexMcpCache : gmap string Snapshot)
  : gmap string Snapshot := ∅.

End Collaborators.

(** *** The mutations of the server list *)

Inductive Scope := GlobalScope | ProjectScope.
Inductive AddTransport := AddStdio | AddHttp.

(** The validated input of [addMcpServer]. *)
Record AddMcpServerInput := {
  add_name : string;
  add_scope : Scope;
  add_transport : AddTransport;
  add_command : option string;
  add_args : option (list string);
  add_url : option string;
}.

(** The arguments [addMcpServer] passes to the CLI, or the error of
    its validation. *)
Definition addMcpServerArgs (input : AddMcpServerInput)
  : result (list string) :=
  match add_scope input with
  | ProjectScope =>
      Throw (VError "Error"
               "Codex MCP currently supports global scope only." [])
  | GlobalScope =>
      let args := ["mcp"; "add"; trim (add_name input)] in
      match add_transport input with
      | AddHttp =>
          match orUndefined (trim <$> add_url input) with
          | None =>
              Throw (VError "Error" "URL is required for HTTP servers." [])
          | Some url => Ok (args ++ ["--url"; url])
          end
      | AddStdio =>
          match orUndefined (trim <$> add_command input) with
          | None =>
              Throw (VError "Error"
                       "Command is required for stdio servers." [])
          | Some command =>
              Ok (args ++ ["--"; command] ++ default [] (add_args input))
          end
      end
  end.

Section Cli.
Variable runCodexCli : list string → option string → result CliResult.

(** [codexRouter.addMcpServer] *)
Definition addMcpServer (input : AddMcpServerInput)
    (codexMcpCache : gmap string Snapshot)
  : gmap string Snapshot * result unit :=
  match addMcpServerArgs input with
  | Throw e => (codexMcpCache, Throw e)
  | Ok args =>
      match runCodexCliChecked (runCodexCli args None) with
      | Throw e => (codexMcpCache, Throw e)
      | Ok _ => (clearCodexMcpCache codexMcpCache, Ok tt)
      end
  end.

(** [codexRouter.removeMcpServer] *)
Definition removeMcpServer (name : string) (scope : Scope)
    (codexMcpCache : gmap string Snapshot)
  : gmap string Snapshot * result unit :=
  match scope with
  | ProjectScope =>
      (codexMcpCache,
       Throw (VError "Error"
                "Codex MCP currently supports global scope only." []))
  | GlobalScope =>
      match runCodexCliChecked
              (runCodexCli ["mcp"; "remove"; trim name] None) with
      | Throw e => (codexMcpCache, Throw e)
      | Ok _ => (clearCodexMcpCache codexMcpCache, Ok tt)
      end
  end.

(** What [startMcpOAuth] and [logoutMcpServer] return. *)
Record AuthCommandResponse := {
  auth_success : bool;
  auth_error : option string;
}.

(** The common body of [startMcpOAuth] ([verb] is [login]) and
    [logoutMcpServer] ([verb] is [logout]). *)
Definition authCommand (verb serverName : string)
    (projectPath : option string) (codexMcpCache : gmap string Snapshot)
  : gmap string Snapshot * AuthCommandResponse :=
  match runCodexCliChecked
          (runCodexCli ["mcp"; verb; trim serverName]
             (orUndefined (trim <$> projectPath))) with
  | Ok _ =>
      (clearCodexMcpCache codexMcpCache,
       {| auth_success := true; auth_error := None |})
  | Throw error =>
      (codexMcpCache,
       {| auth_success := false;
          auth_error := Some (message (extractCodexError error)) |})
  end.

Definition startMcpOAuth := authCommand "login".
Definition logoutMcpServer := authCommand "logout".
End Cli.

(** The name of a session server. *)
Definition serverName (server : CodexMcpServerForSession) : string :=
  match server with
  | McpStdio name _ _ _ => name
  | McpHttp name _ _ => name
  end.

End McpSnapshot.

(* ===================================================================== *)
(** ** Where the components meet                                          *)
(* ===================================================================== *)

Module Wiring.
Import JsString Js Codex JsObject McpServers CodexCli McpSnapshot.

(** What [trpcClient.codex.getIntegration.query()] gives the transport:
    the state of the response, [None] when the query throws. *)
Definition integrationAnswer (statusRun : result CliResult)
  : option Transport.CodexIntegrationState :=
  match getIntegration statusRun with
  | Ok response => Some (i_state response)
  | Throw _ => None
  end.

(** [input.projectPath || resolvedProjectPathFromCwd || input.cwd] *)
Definition chatMcpLookupPath (input : ChatInput)
    (resolvedProjectPathFromCwd : option string) : string :=
  match orUndefined (in_projectPath input) with
  | Some path => path
  | None =>
      match orUndefined resolvedProjectPathFromCwd with
      | Some path => path
      | None => in_cwd input
      end
  end.

Section Collaborators.
Variable processEnv : string → option string.
Variable fetchMcpToolsStdio :
  string → option (list string) → option object → option (list value).
Variable fetchMcpTools : string → option object → option (list value).
Variable getCodexMcpFingerprint : list CodexMcpServerForSession → string.
Variable runCodexCli : list string → option string → result CliResult.
Variable parseList : string → ParsedList.

(** The [try] block in which [chat] resolves the tool servers of a
    turn: [None] when it throws.  [resolvedProjectPathFromCwd] is the
    outcome of [resolveProjectPathFromWorktree(input.cwd)]. *)
Definition chatResolveMcp (input : ChatInput)
    (resolvedProjectPathFromCwd : result (option string)) (now : Z)
    (codexMcpCache : gmap string Snapshot)
  : gmap string Snapshot * option CodexMcpSnapshot :=
  match resolvedProjectPathFromCwd with
  | Throw _ => (codexMcpCache, None)
  | Ok resolved =>
      match resolveCodexMcpSnapshot processEnv fetchMcpToolsStdio
              fetchMcpTools getCodexMcpFingerprint runCodexCli parseList
              {| lookupPath := Some (chatMcpLookupPath input resolved);
                 forceRefresh := false; includeTools := false |}
              now codexMcpCache with
      | (cache', Ok snapshot) => (cache', Some (forTurn snapshot))
      | (cache', Throw _) => (cache', None)
      end
  end.
End Collaborators.

(** The tool servers a turn works with. *)
Definition turnServers (X : Externals) (mcp : option CodexMcpSnapshot)
  : list CodexMcpServerForSession :=
  mcpServersForSession (default (defaultMcpSnapshot X) mcp).

End Wiring.

(* ===================================================================== *)
(** ** Further scenarios                                                  *)
(* ===================================================================== *)

Module MoreScenarios.
Import JsString Js Codex RouterRuns.

(** A send for a second sub-chat. *)
Definition inputOther : ChatInput :=
  {| in_subChatId := "sc2"; in_chatId := "c1"; in_runId := "run-C";
     in_prompt := "hi"; in_model := None; in_cwd := "/repo";
     in_projectPath := None; in_mode := AgentMode;
     in_sessionId := None; in_forceNewSession := false;
     in_images := []; in_authConfig := None |}.

(** A disabled stdio server of the tool-server list. *)
Definition disabledEntry : McpServers.McpListEntry :=
  {| McpServers.e_name := "docs"; McpServers.e_enabled := false;
     McpServers.e_disabled_reason := Some "disabled by user";
     McpServers.e_transport :=
       {| McpServers.t_type := "stdio";
          McpServers.t_command := Some "npx";
          McpServers.t_args := Some ["-y"; "docs-server"];
          McpServers.t_env := None; McpServers.t_env_vars := None;
          McpServers.t_cwd := None; McpServers.t_url := None;
          McpServers.t_bearer_token_env_var := None;
          McpServers.t_http_headers := None;
          McpServers.t_env_http_headers := None |};
     McpServers.e_auth_status := Some "unsupported" |}.

(** An enabled HTTP server that is not logged in. *)
Definition loggedOutEntry : McpServers.McpListEntry :=
  {| McpServers.e_name := "tracker"; McpServers.e_enabled := true;
     McpServers.e_disabled_reason := None;
     McpServers.e_transport :=
       {| McpServers.t_type := "streamable_http";
          McpServers.t_command := None; McpServers.t_args := None;
          McpServers.t_env := None; McpServers.t_env_vars := None;
          McpServers.t_cwd := None;
          McpServers.t_url := Some "https://tracker.test/mcp";
          McpServers.t_bearer_token_env_var := None;
          McpServers.t_http_headers := None;
          McpServers.t_env_http_headers := None |};
     McpServers.e_auth_status := Some "not_logged_in" |}.

End MoreScenarios.

(* ===================================================================== *)
(** ** The model on concrete inputs                                       *)
(* ===================================================================== *)

Module Examples.
Import JsString Js Codex Scenario.

Example trim_spaces : trim "  sk-live  " = "sk-live".
Proof. reflexivity. Qed.

Example trim_blank : trim "   " = "".
Proof. reflexivity. Qed.

Example lastSegment_path : lastSegment "src/lib/x.ts" = "x.ts".
Proof. reflexivity. Qed.

Example lastSegment_trailing_slash : lastSegment "src/lib/" = "".
Proof. reflexivity. Qed.

Example error_of_Error_instance :
  extractCodexError (VError "Error" "Sub-chat not found" [])
  = {| message := "Sub-chat not found"; code := None |}.
Proof. reflexivity. Qed.

Example error_prefers_data_message :
  extractCodexError
    (VObj [("data", VObj [("message", VStr "inner"); ("code", VStr "E1")]);
           ("message", VStr "outer")])
  = {| message := "inner"; code := Some "E1" |}.
Proof. reflexivity. Qed.

Example error_of_empty_Error :
  extractCodexError (VError "Error" "" [])
  = {| message := "Error"; code := None |}.
Proof. reflexivity. Qed.

Example auth_hint_in_message :
  isCodexAuthError
    {| ae_message := Some "Request failed: 401 Unauthorized";
       ae_code := None |} = true.
Proof. reflexivity. Qed.

Example auth_hint_in_code :
  isCodexAuthError {| ae_message := Some "boom"; ae_code := Some "FORBIDDEN" |}
  = true.
Proof. reflexivity. Qed.

Example no_auth_hint :
  isCodexAuthError {| ae_message := Some "rate limited"; ae_code := None |}
  = false.
Proof. reflexivity. Qed.

Example prompt_of_text_and_file_parts :
  extractPromptFromStoredMessage
    (VObj [("role", VStr "user");
           ("parts", VArr
              [VObj [("type", VStr "text"); ("text", VStr "a")];
               VObj [("type", VStr "file-content");
                     ("filePath", VStr "src/x.ts");
                     ("content", VStr "code")];
               VObj [("type", VStr "text"); ("text", VStr "b")]])])
  = "a" +:+ nl +:+ "b" +:+ nl +:+ "--- x.ts ---" +:+ nl +:+ "code".
Proof. reflexivity. Qed.

Example prompt_of_non_message : extractPromptFromStoredMessage (VNum 5) = "".
Proof. reflexivity. Qed.

Example last_session_id :
  getLastSessionId
    [VObj [("role", VStr "assistant");
           ("metadata", VObj [("sessionId", VStr "s-old")])];
     VObj [("role", VStr "user")];
     VObj [("role", VStr "assistant");
           ("metadata", VObj [("sessionId", VStr "s-new")])];
     VObj [("role", VStr "user")]]
  = Some "s-new".
Proof. reflexivity. Qed.

Example model_sentinel : extractCodexModelId (Some " codex ") = None.
Proof. reflexivity. Qed.

Example model_named :
  extractCodexModelId (Some "gpt-5.3-codex/low") = Some "gpt-5.3-codex/low".
Proof. reflexivity. Qed.

Example forwarded_generic_error :
  forwarded (VObj [("type", VStr "error"); ("errorText", VStr "boom");
                   ("id", VStr "e1")])
  = VObj [("type", VStr "error"); ("errorText", VStr "boom");
          ("id", VStr "e1")].
Proof. reflexivity. Qed.

Example forwarded_auth_error :
  forwarded (VObj [("type", VStr "error"); ("errorText", VStr "Not logged in")])
  = VObj [("type", VStr "auth-error"); ("errorText", VStr "Not logged in")].
Proof. reflexivity. Qed.

Example subscribe_over_running_run :
  trace (chatSubscribe inputB false stateWithA).1
  = [EvAbort 0; EvProviderCleanup 1; EvSessionsDelete "sc1";
     EvStreamsSet "sc1" "run-B" 2].
Proof. reflexivity. Qed.

Example cancel_stale_run :
  (cancel "sc1" "run-old" stateWithA).2
  = Ok {| cancelled := false; ignoredStale := true |}.
Proof. reflexivity. Qed.

Example cancel_current_run :
  (cancel "sc1" "run-A" stateWithA).2
  = Ok {| cancelled := true; ignoredStale := false |}.
Proof. reflexivity. Qed.

Example missing_sub_chat_output :
  turnOutput demoExternals
    {| in_subChatId := "nope"; in_chatId := "c1"; in_runId := "run-A";
       in_prompt := "hello"; in_model := None; in_cwd := "/repo";
       in_projectPath := None; in_mode := AgentMode;
       in_sessionId := None; in_forceNewSession := false;
       in_images := []; in_authConfig := None |}
    (okScript []) idleState
  = [VObj [("type", VStr "error"); ("errorText", VStr "Sub-chat not found")];
     finishChunk].
Proof. reflexivity. Qed.

End Examples.

(* ===================================================================== *)
(** ** Properties of the run registry                                     *)
(* ===================================================================== *)

Module RegistryProperties.
Import JsString Js Codex.

(** Unfold the monadic plumbing of a procedure applied to a state. *)
Ltac run :=
  unfold mbind, M_bind, mret, M_ret, gets, modify, emitEvent, throw,
    when, fresh; simpl.

Lemma cleanupProvider_run (subChatId : string) (s : State) :
  ∃ s', cleanupProvider subChatId s = (s', Ok tt)
        ∧ providerSessions s' = delete subChatId (providerSessions s)
        ∧ activeStreams s' = activeStreams s
        ∧ observers s' = observers s
        ∧ subChats s' = subChats s
        ∧ nextId s' = nextId s
        ∧ trace s' = trace s ++ teardownEvents s subChatId.
Proof.
  unfold cleanupProvider, teardownEvents. run.
  destruct (providerSessions s !! subChatId) as [e|] eqn:E; simpl.
  - eexists; split; [reflexivity|]. simpl.
    rewrite <- app_assoc. auto 10.
  - exists s. rewrite delete_id by done.
    rewrite app_nil_r. auto 10.
Qed.

(** C3: [cancel] on a sub-chat without an entry reports
    [{cancelled: false, ignoredStale: false}] and changes nothing; with
    an entry of a different run it reports [ignoredStale: true] and
    changes nothing; with the matching run it aborts the controller,
    tears down the provider session, removes the entry and reports
    [{cancelled: true, ignoredStale: false}]. *)
Theorem cancel_cases (subChatId run : string) (s : State) :
  match activeStreams s !! subChatId with
  | None =>
      cancel subChatId run s
      = (s, Ok {| cancelled := false; ignoredStale := false |})
  | Some a =>
      if String.eqb (runId a) run
      then ∃ s',
          cancel subChatId run s
          = (s', Ok {| cancelled := true; ignoredStale := false |})
          ∧ activeStreams s' = delete subChatId (activeStreams s)
          ∧ providerSessions s' = delete subChatId (providerSessions s)
          ∧ trace s'
            = trace s ++ [EvAbort (controller a)]
                ++ teardownEvents s subChatId
                ++ [EvStreamsDelete subChatId]
          ∧ observers s' = observers s
          ∧ subChats s' = subChats s
      else
        cancel subChatId run s
        = (s, Ok {| cancelled := false; ignoredStale := true |})
  end.
Proof.
  unfold cancel. run.
  destruct (activeStreams s !! subChatId) as [a|] eqn:Ea; simpl; [|done].
  destruct (String.eqb (runId a) run) eqn:Er; simpl; [|done].
  destruct (cleanupProvider_run subChatId (log (EvAbort (controller a)) s))
    as (s1 & -> & Hp & Ha & Ho & Hd & Hn & Ht).
  simpl in *. eexists; split; [reflexivity|]. simpl.
  rewrite Ha, Hp, Ht, Ho, Hd.
  unfold teardownEvents. simpl.
  rewrite <- !app_assoc. auto 10.
Qed.

(** *** Relational invariants of procedures *)

Section Respects.
Context (R : relation State) `{!PreOrder R}.

Lemma respects_ret {A} (a : A) : respects R (mret a).
Proof. intros s. reflexivity. Qed.

Lemma respects_throw {A} (e : value) : respects R (@throw A e).
Proof. intros s. reflexivity. Qed.

Lemma respects_gets {A} (f : State → A) : respects R (gets f).
Proof. intros s. reflexivity. Qed.

Lemma respects_modify (f : State → State) :
  (∀ s, R s (f s)) → respects R (modify f).
Proof. intros Hf s. apply Hf. Qed.

Lemma respects_bind {A B} (m : M A) (f : A → M B) :
  respects R m → (∀ a, respects R (f a)) → respects R (m ≫= f).
Proof.
  intros Hm Hf s. unfold mbind, M_bind.
  specialize (Hm s). destruct (m s) as [s1 [a|e]]; simpl in *.
  - etrans; [exact Hm|apply Hf].
  - exact Hm.
Qed.

Lemma respects_tryCatch {A} (body : M A) (handler : value → M A) :
  respects R body → (∀ e, respects R (handler e)) →
  respects R (tryCatch body handler).
Proof.
  intros Hm Hh s. unfold tryCatch.
  specialize (Hm s). destruct (body s) as [s1 [a|e]]; simpl in *.
  - exact Hm.
  - etrans; [exact Hm|apply Hh].
Qed.

Lemma respects_tryFinally {A} (body : M A) (cleanup : M unit) :
  respects R body → respects R cleanup →
  respects R (tryFinally body cleanup).
Proof.
  intros Hm Hc s. unfold tryFinally.
  specialize (Hm s). destruct (body s) as [s1 r]; simpl in *.
  specialize (Hc s1). destruct (cleanup s1) as [s2 [[]|e]]; simpl in *;
    (etrans; [exact Hm|exact Hc]).
Qed.
End Respects.

#[export] Instance sameStreams_preorder : PreOrder sameStreams.
Proof.
  split; [by intros s|]. intros s1 s2 s3 H1 H2.
  unfold sameStreams in *. congruence.
Qed.

#[export] Instance sameObservers_preorder : PreOrder sameObservers.
Proof.
  split; [by intros s|]. intros s1 s2 s3 H1 H2.
  unfold sameObservers in *. congruence.
Qed.

#[export] Instance sameDb_preorder : PreOrder sameDb.
Proof.
  split; [by intros s|]. intros s1 s2 s3 H1 H2.
  unfold sameDb in *. congruence.
Qed.

#[export] Instance emitsOnly_preorder Q : PreOrder (emitsOnly Q).
Proof.
  split.
  - intros s. exists []. split; [by rewrite app_nil_r|].
    intros e H. by apply elem_of_nil in H.
  - intros s1 s2 s3 (e1 & H1 & P1) (e2 & H2 & P2).
    exists (e1 ++ e2). split; [by rewrite H2, H1, app_assoc|].
    intros e [H|H]%elem_of_app; eauto.
Qed.

Lemma emitsOnly_quiet Q (f : State → State) :
  (∀ s, trace (f s) = trace s) → ∀ s, emitsOnly Q s (f s).
Proof.
  intros Hf s. exists []. split; [by rewrite Hf, app_nil_r|].
  intros e H. by apply elem_of_nil in H.
Qed.

Lemma emitsOnly_log (Q : event → Prop) (e : event) :
  Q e → ∀ s, emitsOnly Q s (log e s).
Proof.
  intros He s. exists [e]. split; [done|].
  by intros e' ->%list_elem_of_singleton.
Qed.

(** Decompose a goal [respects R m] along the structure of [m]. *)
Ltac respects_step :=
  match goal with
  | |- respects _ (mret _) => apply respects_ret; tc_solve
  | |- respects _ (throw _) => apply respects_throw; tc_solve
  | |- respects _ (gets _) => apply respects_gets; tc_solve
  | |- respects _ (mbind _ _) => apply respects_bind; [tc_solve| |intros]
  | |- respects _ (tryCatch _ _) =>
      apply respects_tryCatch; [tc_solve| |intros]
  | |- respects _ (tryFinally _ _) =>
      apply respects_tryFinally; [tc_solve| |]
  | |- respects (emitsOnly _) (modify (log _)) =>
      apply respects_modify, emitsOnly_log; exact I
  | |- respects (emitsOnly _) (modify _) =>
      apply respects_modify, emitsOnly_quiet; reflexivity
  | |- respects (emitsOnly _) fresh =>
      intros ?; apply (emitsOnly_quiet _ (set_nextId S)); reflexivity
  | |- respects _ (modify _) =>
      apply respects_modify; intros ?; exact eq_refl
  | |- respects _ fresh => intros ?; exact eq_refl
  | |- respects _ (emitEvent _) => unfold emitEvent
  | |- respects _ (when ?b _) => unfold when; destruct b
  | |- respects _ (let _ := _ in _) => cbv zeta
  | |- respects _ (match ?x with _ => _ end) => destruct x
  | |- respects _ (if ?b then _ else _) => destruct b
  | |- respects _ (let '(_, _) := ?x in _) => destruct x
  end.

Ltac respects := repeat first [ solve [eauto] | respects_step ].

Lemma keeps_cleanupProvider subChatId :
  respects sameStreams (cleanupProvider subChatId).
Proof. unfold cleanupProvider. respects. Qed.

Lemma keeps_safeEmit ctl chunk : respects sameStreams (safeEmit ctl chunk).
Proof. unfold safeEmit. respects. Qed.

Lemma keeps_safeComplete ctl : respects sameStreams (safeComplete ctl).
Proof. unfold safeComplete. respects. Qed.

Lemma keeps_dbUpdateMessages subChatId ms :
  respects sameStreams (dbUpdateMessages subChatId ms).
Proof. unfold dbUpdateMessages. respects. Qed.

Lemma keeps_getOrCreateProvider X spawnError params :
  respects sameStreams (getOrCreateProvider X spawnError params).
Proof. unfold getOrCreateProvider, createACPProvider. respects. Qed.

Lemma keeps_readLoop subChatId ctl items ending :
  respects sameStreams (readLoop subChatId ctl items ending).
Proof.
  induction items as [|[v|ms] rest IH]; simpl;
    respects; auto using keeps_safeEmit, keeps_dbUpdateMessages.
Qed.

Lemma keeps_chatBuild X input sc : respects sameStreams (chatBuild X input sc).
Proof.
  unfold chatBuild, acquireSession, appendUserTurn.
  respects; auto using keeps_dbUpdateMessages, keeps_cleanupProvider,
    keeps_getOrCreateProvider.
Qed.

Lemma keeps_chatTry X input ctl sc :
  respects sameStreams (chatTry X input ctl sc).
Proof.
  unfold chatTry.
  respects; auto using keeps_chatBuild, keeps_readLoop, keeps_safeComplete.
Qed.

Lemma keeps_chatCatch ctl error : respects sameStreams (chatCatch ctl error).
Proof.
  unfold chatCatch. respects; auto using keeps_safeEmit, keeps_safeComplete.
Qed.

(** *** Compare-and-delete *)

Lemma releaseRun_run (subChatId run : string) (s : State) :
  ∃ s', releaseRun subChatId run s = (s', Ok tt)
        ∧ activeStreams s' = compareAndDelete subChatId run (activeStreams s)
        ∧ providerSessions s' = providerSessions s
        ∧ observers s' = observers s
        ∧ subChats s' = subChats s.
Proof.
  unfold releaseRun, compareAndDelete. run.
  destruct (activeStreams s !! subChatId) as [a|]; simpl; [|eauto 10].
  destruct (String.eqb (runId a) run); simpl; eauto 10.
Qed.

Lemma releaseRun_stale (subChatId run : string) (a : ActiveCodexStream)
    (s : State) :
  activeStreams s !! subChatId = Some a → runId a ≠ run →
  releaseRun subChatId run s = (s, Ok tt).
Proof.
  intros Ha Hne. unfold releaseRun. run. rewrite Ha. simpl.
  destruct (String.eqb_spec (runId a) run); [done|reflexivity].
Qed.

Lemma compareAndDelete_stale subChatId run a streams :
  streams !! subChatId = Some a → runId a ≠ run →
  compareAndDelete subChatId run streams = streams.
Proof.
  intros Ha Hne. unfold compareAndDelete. rewrite Ha.
  destruct (String.eqb_spec (runId a) run); [done|reflexivity].
Qed.

Lemma chatBody_streams X input ctl sc (s : State) :
  activeStreams (chatBody X input ctl sc s).1
  = compareAndDelete (in_subChatId input) (in_runId input) (activeStreams s).
Proof.
  unfold chatBody, tryFinally.
  pose proof (respects_tryCatch sameStreams _ _ (keeps_chatTry X input ctl sc)
                (keeps_chatCatch ctl) s) as Hk.
  unfold sameStreams in Hk.
  destruct (tryCatch _ _ s) as [s1 r]; simpl in Hk.
  destruct (releaseRun_run (in_subChatId input) (in_runId input) s1)
    as (s2 & -> & Hs & _). simpl. by rewrite Hs, Hk.
Qed.

Lemma chatTeardown_streams input ctl (s : State) :
  activeStreams (chatTeardown input ctl s).1
  = compareAndDelete (in_subChatId input) (in_runId input) (activeStreams s).
Proof.
  unfold chatTeardown. run.
  match goal with |- context [releaseRun ?a ?b ?st] =>
    destruct (releaseRun_run a b st) as (s2 & -> & Hs & _) end.
  simpl. by rewrite Hs.
Qed.

(** C1: when run B starts for a sub-chat whose registry entry belongs
    to run A, A's controller is aborted and A's provider session torn
    down before B's [(runId, controller)] entry is written over A's;
    A's completion ([finally]) and teardown delete the entry only when
    the stored run id is still A's, so they leave B's entry in place. *)
Theorem supersede_and_compare_delete (X : Externals)
    (inputA inputB : ChatInput) (a : ActiveCodexStream) (ctlA : nat)
    (scA : TurnScript) (throwsB : bool) (s : State) :
  in_subChatId inputA = in_subChatId inputB →
  activeStreams s !! in_subChatId inputB = Some a →
  runId a = in_runId inputA →
  in_runId inputA ≠ in_runId inputB →
  ∃ sB ctlB,
    let entryB := {| runId := in_runId inputB; controller := ctlB |} in
    chatSubscribe inputB throwsB s = (sB, Ok ctlB)
    ∧ trace sB
      = trace s ++ [EvAbort (controller a)]
          ++ teardownEvents s (in_subChatId inputB)
          ++ [EvStreamsSet (in_subChatId inputB) (in_runId inputB) ctlB]
    ∧ providerSessions sB !! in_subChatId inputB = None
    ∧ activeStreams sB = <[in_subChatId inputB := entryB]> (activeStreams s)
    ∧ (∀ s', activeStreams (chatBody X inputA ctlA scA s').1
             = compareAndDelete (in_subChatId inputA) (in_runId inputA)
                 (activeStreams s'))
    ∧ (∀ s', activeStreams (chatTeardown inputA ctlA s').1
             = compareAndDelete (in_subChatId inputA) (in_runId inputA)
                 (activeStreams s'))
    ∧ releaseRun (in_subChatId inputA) (in_runId inputA) sB = (sB, Ok tt)
    ∧ activeStreams (chatBody X inputA ctlA scA sB).1
        !! in_subChatId inputB = Some entryB
    ∧ activeStreams (chatTeardown inputA ctlA sB).1
        !! in_subChatId inputB = Some entryB.
Proof.
  intros Hsub Ha HrunA Hne.
  unfold chatSubscribe. run. rewrite Ha. simpl.
  destruct (cleanupProvider_run (in_subChatId inputB)
              (log (EvAbort (controller a)) s))
    as (s1 & -> & Hp & Hs & Ho & Hd & Hn & Ht).
  simpl in *. eexists _, _. split; [reflexivity|]. simpl.
  assert (Hentry : (<[in_subChatId inputB :=
              {| runId := in_runId inputB; controller := nextId s1 |}]>
            (activeStreams s1)) !! in_subChatId inputB
          = Some {| runId := in_runId inputB; controller := nextId s1 |})
    by apply lookup_insert_eq.
  repeat split.
  - rewrite Ht. unfold teardownEvents. simpl.
    by rewrite <- !app_assoc.
  - rewrite Hp. apply lookup_delete_eq.
  - by rewrite Hs.
  - intros s'. apply chatBody_streams.
  - intros s'. apply chatTeardown_streams.
  - rewrite Hsub. eapply releaseRun_stale; [exact Hentry|].
    simpl. congruence.
  - rewrite chatBody_streams. simpl. rewrite Hsub.
    erewrite compareAndDelete_stale; [exact Hentry|exact Hentry|].
    simpl. congruence.
  - rewrite chatTeardown_streams. simpl. rewrite Hsub.
    erewrite compareAndDelete_stale; [exact Hentry|exact Hentry|].
    simpl. congruence.
Qed.

Lemma supersede_and_compare_delete_witness :
  activeStreams Scenario.stateWithA !! "sc1" = Some Scenario.entryA
  ∧ ∃ sB ctlB,
      chatSubscribe Scenario.inputB false Scenario.stateWithA = (sB, Ok ctlB)
      ∧ activeStreams
          (chatBody Scenario.demoExternals Scenario.inputA 0
             (Scenario.okScript []) sB).1 !! "sc1"
        = Some {| runId := "run-B"; controller := ctlB |}.
Proof.
  split; [reflexivity|].
  destruct (supersede_and_compare_delete Scenario.demoExternals
              Scenario.inputA Scenario.inputB Scenario.entryA 0
              (Scenario.okScript []) false Scenario.stateWithA)
    as (sB & ctlB & Hrun & _ & _ & _ & _ & _ & _ & Hbody & _);
    [reflexivity | reflexivity | reflexivity | discriminate |].
  exists sB, ctlB. split; [exact Hrun | exact Hbody].
Defined.

End RegistryProperties.

(* ===================================================================== *)
(** ** Properties of the provider session pool                            *)
(* ===================================================================== *)

Module PoolProperties.
Import JsString Js Codex.
Import RegistryProperties.

Lemma sessionMatches_spec X (e : CodexProviderSession) (params : ProviderParams) :
  sessionMatches X e params = true
  ↔ cwd e = p_cwd params
    ∧ authFingerprint e = getAuthFingerprint X (p_authConfig params)
    ∧ mcpFingerprint e = p_mcpFingerprint params.
Proof.
  unfold sessionMatches.
  rewrite !andb_true_iff, !String.eqb_eq, bool_decide_eq_true. tauto.
Qed.

Lemma getOrCreateProvider_reuse X spawnError params e (s : State) :
  providerSessions s !! p_subChatId params = Some e →
  sessionMatches X e params = true →
  getOrCreateProvider X spawnError params s = (s, Ok (provider e)).
Proof.
  intros He Hm. unfold getOrCreateProvider. run. by rewrite He, Hm.
Qed.

Lemma getOrCreateProvider_recreate X params e (s : State) :
  providerSessions s !! p_subChatId params = Some e →
  sessionMatches X e params = false →
  let fresh :=
    {| provider_id := nextId s;
       provider_config := providerConfigFor X params |} in
  ∃ s', getOrCreateProvider X None params s = (s', Ok fresh)
        ∧ providerSessions s'
          = <[p_subChatId params := sessionFor X params fresh]>
              (providerSessions s)
        ∧ trace s'
          = trace s
              ++ [EvProviderCleanup (provider_id (provider e));
                  EvSessionsDelete (p_subChatId params);
                  EvProviderCreate (nextId s) (providerConfigFor X params);
                  EvSessionsSet (p_subChatId params) (nextId s)]
        ∧ nextId s' = S (nextId s).
Proof.
  intros He Hm. unfold getOrCreateProvider, createACPProvider. run.
  rewrite He, Hm. simpl.
  eexists; split; [reflexivity|]. simpl.
  rewrite insert_delete_eq, <- !app_assoc. auto.
Qed.

Lemma getOrCreateProvider_create X params (s : State) :
  providerSessions s !! p_subChatId params = None →
  let fresh :=
    {| provider_id := nextId s;
       provider_config := providerConfigFor X params |} in
  ∃ s', getOrCreateProvider X None params s = (s', Ok fresh)
        ∧ providerSessions s'
          = <[p_subChatId params := sessionFor X params fresh]>
              (providerSessions s)
        ∧ trace s'
          = trace s
              ++ [EvProviderCreate (nextId s) (providerConfigFor X params);
                  EvSessionsSet (p_subChatId params) (nextId s)]
        ∧ nextId s' = S (nextId s).
Proof.
  intros He. unfold getOrCreateProvider, createACPProvider. run.
  rewrite He. simpl.
  eexists; split; [reflexivity|]. simpl.
  rewrite <- !app_assoc. auto.
Qed.

(** A successful acquisition leaves the requested triple and the
    returned provider stored under the sub-chat, with an identity below
    the allocator. *)
Lemma getOrCreateProvider_post X spawnError params (s s' : State) p :
  poolWf s →
  getOrCreateProvider X spawnError params s = (s', Ok p) →
  providerSessions s' !! p_subChatId params = Some (sessionFor X params p)
  ∧ (provider_id p < nextId s')%nat.
Proof.
  intros Hwf Hrun.
  destruct (providerSessions s !! p_subChatId params) as [e|] eqn:He.
  - destruct (sessionMatches X e params) eqn:Hm.
    + rewrite (getOrCreateProvider_reuse _ _ _ e) in Hrun by done.
      injection Hrun as <- <-.
      apply sessionMatches_spec in Hm as (Hc & Hf & Hm).
      split; [|by eapply Hwf].
      rewrite He. f_equal. destruct e; simpl in *. unfold sessionFor.
      by rewrite Hc, Hf, Hm.
    + destruct spawnError as [err|].
      * exfalso. revert Hrun.
        unfold getOrCreateProvider, createACPProvider. run.
        rewrite He, Hm. simpl. discriminate.
      * destruct (getOrCreateProvider_recreate X params e s He Hm)
          as (s2 & Hrun2 & Hp & _ & Hn).
        rewrite Hrun2 in Hrun. injection Hrun as <- <-.
        rewrite Hp, Hn, lookup_insert_eq. simpl. split; [done|lia].
  - destruct spawnError as [err|].
    + exfalso. revert Hrun.
      unfold getOrCreateProvider, createACPProvider. run.
      rewrite He. simpl. discriminate.
    + destruct (getOrCreateProvider_create X params s He)
        as (s2 & Hrun2 & Hp & _ & Hn).
      rewrite Hrun2 in Hrun. injection Hrun as <- <-.
      rewrite Hp, Hn, lookup_insert_eq. simpl. split; [done|lia].
Qed.

(** *** The pool invariant *)

#[export] Instance keepsPool_preorder : PreOrder keepsPool.
Proof. split; unfold keepsPool; [by intros s|]. intros s1 s2 s3. tauto. Qed.

Lemma liveProviders_app (tr evs : list event) :
  liveProviders (tr ++ evs) = foldl liveStep (liveProviders tr) evs.
Proof. unfold liveProviders. apply foldl_app. Qed.

(** Steps that touch neither the pool nor the life of a provider. *)
Lemma poolInv_quiet (s s' : State) :
  providerSessions s' = providerSessions s →
  (nextId s ≤ nextId s')%nat →
  liveProviders (trace s') = liveProviders (trace s) →
  keepsPool s s'.
Proof.
  intros Hp Hn Ht (Hwf & Hinj & Hlive). unfold poolInv, poolWf, pooled.
  rewrite Hp, Ht. split; [|by split].
  intros subChatId e He. specialize (Hwf _ _ He). lia.
Qed.

Lemma poolInv_teardown (s s' : State) subChatId e :
  providerSessions s !! subChatId = Some e →
  providerSessions s' = delete subChatId (providerSessions s) →
  nextId s' = nextId s →
  trace s' = trace s ++ [EvProviderCleanup (provider_id (provider e));
                         EvSessionsDelete subChatId] →
  keepsPool s s'.
Proof.
  intros He Hp Hn Ht (Hwf & Hinj & Hlive).
  unfold poolInv, poolWf, pooled. rewrite Hp, Hn, Ht, liveProviders_app.
  simpl. split; [|split].
  - intros sub' e' [_ He']%lookup_delete_Some. eauto.
  - intros sub1 sub2 e1 e2 [_ H1]%lookup_delete_Some
      [_ H2]%lookup_delete_Some. eauto.
  - intros pid. rewrite elem_of_difference, elem_of_singleton, Hlive.
    split.
    + intros [(sub' & e' & He' & Hid) Hne]. exists sub', e'.
      split; [|done]. apply lookup_delete_Some. split; [|done].
      intros <-. congruence.
    + intros (sub' & e' & [Hsub He']%lookup_delete_Some & Hid).
      split; [by exists sub', e'|].
      intros ->. apply Hsub. symmetry. by eapply Hinj.
Qed.

Lemma poolInv_install (s s' : State) subChatId session cfg :
  providerSessions s !! subChatId = None →
  providerSessions s' = <[subChatId := session]> (providerSessions s) →
  provider_id (provider session) = nextId s →
  nextId s' = S (nextId s) →
  trace s' = trace s ++ [EvProviderCreate (nextId s) cfg;
                         EvSessionsSet subChatId (nextId s)] →
  keepsPool s s'.
Proof.
  intros Hnone Hp Hid Hn Ht (Hwf & Hinj & Hlive).
  unfold poolInv, poolWf, pooled. rewrite Hp, Hn, Ht, liveProviders_app.
  simpl. split; [|split].
  - intros sub' e' [[_ <-]|[_ He']]%lookup_insert_Some; [lia|].
    specialize (Hwf _ _ He'). lia.
  - intros sub1 sub2 e1 e2 [[<- <-]|[Hne1 H1]]%lookup_insert_Some
      [[<- <-]|[Hne2 H2]]%lookup_insert_Some Heq; try done.
    + specialize (Hwf _ _ H2). lia.
    + specialize (Hwf _ _ H1). lia.
    + eauto.
  - intros pid. rewrite elem_of_union, elem_of_singleton, Hlive. split.
    + intros [->|(sub' & e' & He' & Hid')].
      * exists subChatId, session. by rewrite lookup_insert_eq.
      * exists sub', e'. split; [|done].
        rewrite lookup_insert_ne; [done|]. intros <-. congruence.
    + intros (sub' & e' & [[<- <-]|[Hne He']]%lookup_insert_Some & Hid').
      * left. congruence.
      * right. by exists sub', e'.
Qed.

Lemma cleanupProvider_keepsPool subChatId :
  respects keepsPool (cleanupProvider subChatId).
Proof.
  intros s.
  destruct (cleanupProvider_run subChatId s)
    as (s' & -> & Hp & _ & _ & _ & Hn & Ht). simpl.
  unfold teardownEvents in Ht.
  destruct (providerSessions s !! subChatId) as [e|] eqn:He.
  - by eapply poolInv_teardown.
  - apply poolInv_quiet.
    + by rewrite Hp, delete_id.
    + lia.
    + by rewrite Ht, app_nil_r.
Qed.

Lemma getOrCreateProvider_spawn_fails X params err (s : State) :
  (∀ e, providerSessions s !! p_subChatId params = Some e →
        sessionMatches X e params = false) →
  ∃ s', getOrCreateProvider X (Some err) params s = (s', Throw err)
        ∧ providerSessions s'
          = delete (p_subChatId params) (providerSessions s)
        ∧ nextId s' = nextId s
        ∧ trace s' = trace s ++ teardownEvents s (p_subChatId params).
Proof.
  intros Hm. unfold getOrCreateProvider, createACPProvider, teardownEvents.
  run. destruct (providerSessions s !! p_subChatId params) as [e|] eqn:He;
    simpl.
  - rewrite (Hm e eq_refl). simpl. eexists; split; [reflexivity|]. simpl.
    by rewrite <- app_assoc.
  - exists s. rewrite delete_id by done. by rewrite app_nil_r.
Qed.

Lemma getOrCreateProvider_keepsPool X spawnError params :
  respects keepsPool (getOrCreateProvider X spawnError params).
Proof.
  intros s.
  destruct (providerSessions s !! p_subChatId params) as [e|] eqn:He.
  - destruct (sessionMatches X e params) eqn:Hm.
    { rewrite (getOrCreateProvider_reuse X _ _ e) by done. by intros ?. }
    destruct spawnError as [err|].
    + destruct (getOrCreateProvider_spawn_fails X params err s)
        as (s' & -> & Hp & Hn & Ht).
      { intros e' He'. congruence. }
      simpl. unfold teardownEvents in Ht. rewrite He in Ht.
      by eapply poolInv_teardown.
    + destruct (getOrCreateProvider_recreate X params e s He Hm)
        as (s' & -> & Hp & Ht & Hn). simpl.
      set (mid :=
        log (EvSessionsDelete (p_subChatId params))
          (set_providerSessions (delete (p_subChatId params))
             (log (EvProviderCleanup (provider_id (provider e))) s))).
      trans mid.
      * eapply poolInv_teardown; [exact He|reflexivity|reflexivity|].
        simpl. by rewrite <- app_assoc.
      * eapply (poolInv_install mid s' (p_subChatId params)).
        -- apply lookup_delete_eq.
        -- simpl. by rewrite insert_delete_eq.
        -- reflexivity.
        -- exact Hn.
        -- rewrite Ht. simpl. by rewrite <- !app_assoc.
  - destruct spawnError as [err|].
    + destruct (getOrCreateProvider_spawn_fails X params err s)
        as (s' & -> & Hp & Hn & Ht).
      { intros e' He'. congruence. }
      simpl. unfold teardownEvents in Ht. rewrite He in Ht.
      apply poolInv_quiet.
      * by rewrite Hp, delete_id.
      * lia.
      * by rewrite Ht, app_nil_r.
    + destruct (getOrCreateProvider_create X params s He)
        as (s' & -> & Hp & Ht & Hn). simpl.
      by eapply poolInv_install.
Qed.

(** Decompose [respects keepsPool m]; the procedures of the pool are
    leaves. *)
Ltac pool_step :=
  match goal with
  | |- respects keepsPool (cleanupProvider _) =>
      apply cleanupProvider_keepsPool
  | |- respects keepsPool (getOrCreateProvider _ _ _) =>
      apply getOrCreateProvider_keepsPool
  | |- respects keepsPool (modify (log _)) =>
      apply respects_modify; intros ?; apply poolInv_quiet;
      [reflexivity|reflexivity|simpl; by rewrite liveProviders_app]
  | |- respects keepsPool (modify _) =>
      apply respects_modify; intros ?; apply poolInv_quiet; reflexivity
  | |- respects keepsPool fresh =>
      intros ?; apply poolInv_quiet; [reflexivity|simpl; lia|reflexivity]
  | _ => respects_step
  end.

Ltac pool := repeat pool_step.

Lemma readLoop_keepsPool subChatId ctl items ending :
  respects keepsPool (readLoop subChatId ctl items ending).
Proof.
  induction items as [|[v|ms] rest IH]; simpl;
    unfold safeEmit, dbUpdateMessages; pool; exact IH.
Qed.

(** Every procedure of the router preserves the pool invariant. *)
Lemma router_keepsPool X :
  (∀ input throws, respects keepsPool (chatSubscribe input throws))
  ∧ (∀ input ctl sc, respects keepsPool (chatBody X input ctl sc))
  ∧ (∀ input ctl, respects keepsPool (chatTeardown input ctl))
  ∧ (∀ subChatId run, respects keepsPool (cancel subChatId run))
  ∧ (∀ subChatId, respects keepsPool (cleanup subChatId)).
Proof.
  split; [|split; [|split; [|split]]]; intros.
  - unfold chatSubscribe. pool.
  - unfold chatBody, chatTry, chatCatch, chatBuild, acquireSession,
      appendUserTurn, dbUpdateMessages, releaseRun, safeEmit, safeComplete.
    pool; apply readLoop_keepsPool.
  - unfold chatTeardown, releaseRun. pool.
  - unfold cancel. pool.
  - unfold cleanup. pool.
Qed.

Lemma idleState_poolInv : poolInv Scenario.idleState.
Proof.
  split; [|split].
  - intros subChatId e H. simpl in H. by rewrite lookup_empty in H.
  - intros sub1 sub2 e1 e2 H. simpl in H. by rewrite lookup_empty in H.
  - intros pid. split.
    + intros H. by apply elem_of_empty in H.
    + intros (subChatId & e & H & _). simpl in H.
      by rewrite lookup_empty in H.
Qed.

(** C2: after one acquisition for a sub-chat, a second one with the same
    (cwd, authFingerprint, mcpFingerprint) triple returns the same
    provider instance and changes nothing; with a triple that differs
    in any component the old provider is cleaned up and its entry
    removed before a new provider is constructed and stored.  The pool
    invariant is kept throughout: the providers constructed and not yet
    cleaned up are exactly those stored in the pool, one per sub-chat at
    most, so the old provider is no longer live and the new one is. *)
Theorem acquire_reuse_or_recreate (X : Externals)
    (p1 p2 : ProviderParams) (spawn1 spawn2 : option value)
    (s s1 : State) (prov1 : ACPProvider) :
  poolInv s →
  getOrCreateProvider X spawn1 p1 s = (s1, Ok prov1) →
  p_subChatId p2 = p_subChatId p1 →
  poolInv s1
  ∧ (sameTriple X p1 p2 →
     getOrCreateProvider X spawn2 p2 s1 = (s1, Ok prov1))
  ∧ (¬ sameTriple X p1 p2 →
     ∃ s2 prov2,
       getOrCreateProvider X None p2 s1 = (s2, Ok prov2)
       ∧ provider_id prov2 ≠ provider_id prov1
       ∧ trace s2
         = trace s1
             ++ [EvProviderCleanup (provider_id prov1);
                 EvSessionsDelete (p_subChatId p2);
                 EvProviderCreate (provider_id prov2)
                   (providerConfigFor X p2);
                 EvSessionsSet (p_subChatId p2) (provider_id prov2)]
       ∧ providerSessions s2
         = <[p_subChatId p2 := sessionFor X p2 prov2]> (providerSessions s1)
       ∧ poolInv s2
       ∧ (provider_id prov1 ∉ liveProviders (trace s2))
       ∧ provider_id prov2 ∈ liveProviders (trace s2)).
Proof.
  intros Hinv Hrun Hsub.
  assert (Hinv1 : poolInv s1).
  { pose proof (getOrCreateProvider_keepsPool X spawn1 p1 s Hinv) as H.
    by rewrite Hrun in H. }
  destruct (getOrCreateProvider_post X spawn1 p1 s s1 prov1 (proj1 Hinv) Hrun)
    as [Hstored Hlt].
  rewrite <- Hsub in Hstored.
  split; [exact Hinv1|]. split.
  - intros (Hc & Hf & Hm).
    rewrite (getOrCreateProvider_reuse X spawn2 p2 _ s1 Hstored); [done|].
    apply sessionMatches_spec. simpl. auto.
  - intros Hdiff.
    assert (Hm : sessionMatches X (sessionFor X p1 prov1) p2 = false).
    { apply not_true_is_false. intros Hm.
      apply sessionMatches_spec in Hm as (Hc & Hf & Hm). simpl in *.
      apply Hdiff. by repeat split. }
    destruct (getOrCreateProvider_recreate X p2 _ s1 Hstored Hm)
      as (s2 & Hrun2 & Hp & Ht & Hn).
    assert (Hinv2 : poolInv s2).
    { pose proof (getOrCreateProvider_keepsPool X None p2 s1 Hinv1) as H.
      by rewrite Hrun2 in H. }
    eexists _, _. split; [exact Hrun2|]. simpl.
    split; [lia|]. split; [done|]. split; [done|]. split; [done|].
    destruct Hinv1 as (_ & Hinj1 & _). destruct Hinv2 as (_ & _ & Hlive2).
    split.
    + rewrite Hlive2. intros (sub' & e' & He' & Hid).
      rewrite Hp in He'.
      apply lookup_insert_Some in He' as [[_ <-]|[Hne He']].
      * simpl in Hid. lia.
      * apply Hne. symmetry. by eapply Hinj1.
    + rewrite Hlive2. eexists _, _. rewrite Hp, lookup_insert_eq. done.
Qed.

Lemma acquire_reuse_or_recreate_witness :
  ∃ s1 prov1,
    getOrCreateProvider Scenario.demoExternals None Scenario.demoParams
      Scenario.idleState = (s1, Ok prov1)
    ∧ getOrCreateProvider Scenario.demoExternals None Scenario.demoParams s1
      = (s1, Ok prov1).
Proof.
  eexists _, _. split; [vm_compute; reflexivity|].
  eapply (proj1 (proj2 (acquire_reuse_or_recreate Scenario.demoExternals
            Scenario.demoParams Scenario.demoParams None None
            Scenario.idleState _ _ idleState_poolInv _ eq_refl))).
  Unshelve.
  - repeat split.
  - reflexivity.
Defined.

(** *** Fingerprint of the credential *)

Lemma getAuthFingerprint_blank X (a : AuthConfig) :
  trim (apiKey a) = "" → getAuthFingerprint X (Some a) = None.
Proof. intros H. unfold getAuthFingerprint. by rewrite H. Qed.

Lemma getAuthFingerprint_key X (a : AuthConfig) :
  trim (apiKey a) ≠ "" →
  getAuthFingerprint X (Some a) = Some (sha256Hex X (trim (apiKey a))).
Proof.
  intros H. unfold getAuthFingerprint.
  destruct (trim (apiKey a)); [done|reflexivity].
Qed.

(** C9, as the code has it: the fingerprint depends only on the trimmed
    API key; an absent [authConfig] and a blank (empty or
    whitespace-only) key both give the null fingerprint, which differs
    from the fingerprint of every non-blank key, the digest of the
    trimmed key. *)
Theorem auth_fingerprint_cases (X : Externals) :
  (∀ a1 a2 : AuthConfig,
      trim (apiKey a1) = trim (apiKey a2) →
      getAuthFingerprint X (Some a1) = getAuthFingerprint X (Some a2))
  ∧ getAuthFingerprint X None = None
  ∧ (∀ a : AuthConfig,
        trim (apiKey a) = "" →
        getAuthFingerprint X (Some a) = getAuthFingerprint X None)
  ∧ (∀ a : AuthConfig,
        trim (apiKey a) ≠ "" →
        getAuthFingerprint X (Some a) = Some (sha256Hex X (trim (apiKey a)))
        ∧ getAuthFingerprint X (Some a) ≠ getAuthFingerprint X None).
Proof.
  repeat split.
  - intros a1 a2 H. unfold getAuthFingerprint. by rewrite H.
  - intros a H. by apply getAuthFingerprint_blank.
  - by apply getAuthFingerprint_key.
  - rewrite getAuthFingerprint_key by done. discriminate.
Qed.

Lemma auth_fingerprint_cases_witness :
  trim " sk-live " = trim "sk-live"
  ∧ getAuthFingerprint Scenario.demoExternals (Some {| apiKey := " sk-live " |})
    = getAuthFingerprint Scenario.demoExternals (Some {| apiKey := "sk-live" |}).
Proof.
  split; [reflexivity|].
  apply (proj1 (auth_fingerprint_cases Scenario.demoExternals)).
  reflexivity.
Defined.

(** C9 as stated fails: an absent [authConfig] and the empty-string key
    have the same fingerprint (null); the digest is not consulted. *)
Lemma absent_and_empty_key_same_fingerprint :
  getAuthFingerprint Scenario.demoExternals None = None
  ∧ getAuthFingerprint Scenario.demoExternals (Some {| apiKey := "" |}) = None.
Proof. split; reflexivity. Qed.

(** *** The resume identifier handed to provider construction *)


Lemma spawns_cleanupProvider P subChatId :
  respects (emitsOnly (spawnOk P)) (cleanupProvider subChatId).
Proof. unfold cleanupProvider. respects. Qed.

Lemma spawns_safeEmit P ctl chunk : respects (emitsOnly (spawnOk P)) (safeEmit ctl chunk).
Proof. unfold safeEmit. respects. Qed.

Lemma spawns_safeComplete P ctl : respects (emitsOnly (spawnOk P)) (safeComplete ctl).
Proof. unfold safeComplete. respects. Qed.

Lemma spawns_dbUpdateMessages P subChatId ms :
  respects (emitsOnly (spawnOk P)) (dbUpdateMessages subChatId ms).
Proof. unfold dbUpdateMessages. respects. Qed.

Lemma spawns_releaseRun P subChatId run :
  respects (emitsOnly (spawnOk P)) (releaseRun subChatId run).
Proof. unfold releaseRun. respects. Qed.

Lemma spawns_createACPProvider (P : ProviderConfig → Prop) spawnError cfg :
  P cfg → respects (emitsOnly (spawnOk P)) (createACPProvider spawnError cfg).
Proof.
  intros HP. unfold createACPProvider.
  destruct spawnError; [respects|].
  apply respects_bind; [tc_solve|respects|]. intros pid.
  apply respects_bind; [tc_solve| |intros; respects].
  apply respects_modify, emitsOnly_log. exact HP.
Qed.

Lemma spawns_getOrCreateProvider (P : ProviderConfig → Prop) X spawnError params :
  P (providerConfigFor X params) →
  respects (emitsOnly (spawnOk P)) (getOrCreateProvider X spawnError params).
Proof.
  intros HP. unfold getOrCreateProvider.
  respects; auto using spawns_createACPProvider.
Qed.

Lemma spawns_readLoop P subChatId ctl items ending :
  respects (emitsOnly (spawnOk P)) (readLoop subChatId ctl items ending).
Proof.
  induction items as [|[v|ms] rest IH]; simpl;
    respects; auto using spawns_safeEmit, spawns_dbUpdateMessages.
Qed.

Lemma spawns_chatBody (P : ProviderConfig → Prop) X input ctl sc :
  (∀ ms snapshot,
      P (providerConfigFor X (chatProviderParams input ms snapshot))) →
  respects (emitsOnly (spawnOk P)) (chatBody X input ctl sc).
Proof.
  intros HP.
  unfold chatBody, chatTry, chatCatch, chatBuild, acquireSession,
    appendUserTurn.
  respects;
    auto using spawns_safeEmit, spawns_safeComplete, spawns_releaseRun,
      spawns_readLoop, spawns_dbUpdateMessages, spawns_cleanupProvider,
      spawns_getOrCreateProvider.
Qed.




End PoolProperties.

(* ===================================================================== *)
(** ** Properties of the turn executor                                    *)
(* ===================================================================== *)

Module TurnProperties.
Import JsString Js Codex.
Import RegistryProperties.

Lemma jsonify_arr (items : list value) :
  jsonify (VArr items) = VArr (map jsonItem items).
Proof. reflexivity. Qed.

Lemma jsonify_obj (fields : list (string * value)) :
  jsonify (VObj fields) = VObj (jsonProps fields).
Proof.
  reflexivity.
Qed.

Lemma append_empty_r (t : string) : t +:+ "" = t.
Proof.
  induction t as [|a t IH]; [done|].
  change (String a (t +:+ "") = String a t). by rewrite IH.
Qed.

(** *** Duplicate prompts *)

(** Image parts contribute nothing to the extracted prompt, before and
    after a round trip through the transcript column. *)
Lemma promptPartStep_images acc (images : list ImageAttachment) :
  foldl promptPartStep acc
    (map jsonItem
       (omap (λ image,
          if (negb (nonempty (base64Data image))
              || negb (nonempty (mediaType image)))%bool
          then None
          else Some (VObj
            [("type", VStr "data-image");
             ("data", VObj
                [("base64Data", VStr (base64Data image));
                 ("mediaType", VStr (mediaType image));
                 ("filename",
                  from_option VStr VUndefined (filename image))])]))
          images))
  = acc.
Proof.
  induction images as [|image rest IH]; [reflexivity|]. simpl.
  destruct (negb (nonempty (base64Data image))
            || negb (nonempty (mediaType image)))%bool; [exact IH|].
  simpl. rewrite <- IH at 2. f_equal.
  destruct acc as [textParts fileContents].
  by destruct (filename image).
Qed.

Lemma extractPrompt_newUserMessage uuid input metadataModel :
  extractPromptFromStoredMessage
    (jsonItem (newUserMessage uuid input metadataModel))
  = in_prompt input.
Proof.
  unfold newUserMessage, extractPromptFromStoredMessage, buildUserParts.
  cbn [jsonItem]. rewrite jsonify_obj. cbn [jsonProps].
  rewrite jsonify_arr. cbn [truthy negb get assoc String.eqb Ascii.eqb
    Bool.eqb map jsonItem].
  rewrite jsonify_obj. cbn [jsonProps jsonify foldl].
  replace (promptPartStep ([], [])
             (VObj [("type", VStr "text"); ("text", VStr (in_prompt input))]))
    with ([in_prompt input], @nil string) by reflexivity.
  rewrite promptPartStep_images. simpl. apply append_empty_r.
Qed.


Lemma appendUserTurn_duplicate X input existing metadataModel (s : State) :
  isDuplicatePrompt existing (in_prompt input) = true →
  appendUserTurn X input existing metadataModel s = (s, Ok existing).
Proof. intros H. unfold appendUserTurn. by rewrite H. Qed.

Lemma appendUserTurn_fresh X input existing metadataModel column (s : State) :
  isDuplicatePrompt existing (in_prompt input) = false →
  subChats s !! in_subChatId input = Some column →
  let userMessage :=
    newUserMessage (randomUUID X (nextId s)) input metadataModel in
  ∃ s1, appendUserTurn X input existing metadataModel s
        = (s1, Ok (existing ++ [userMessage]))
        ∧ storedMessages s1 (in_subChatId input)
          = map jsonItem (existing ++ [userMessage])
        ∧ trace s1
          = trace s ++ [EvDbUpdate (in_subChatId input)
                          (existing ++ [userMessage])].
Proof.
  intros Hdup Hcol. unfold appendUserTurn, dbUpdateMessages. run.
  rewrite Hdup. eexists; split; [reflexivity|]. simpl. split; [|done].
  unfold storedMessages. simpl.
  by rewrite lookup_alter_eq, Hcol.
Qed.






(** *** What reaches the subscriber *)

Lemma received_nil (o : Observer) : received o [] = o.
Proof. destruct o. unfold received. simpl. by rewrite app_nil_r. Qed.

Lemma received_app (o : Observer) (a b : list value) :
  received (received o a) b = received o (a ++ b).
Proof. unfold received. simpl. by rewrite app_assoc. Qed.

Lemma listening_sameObservers (s s' : State) ctl o :
  sameObservers s s' → listening s ctl o → listening s' ctl o.
Proof. unfold sameObservers, listening. by intros ->. Qed.

Lemma safeEmit_listening ctl chunk (s : State) o :
  listening s ctl o →
  ∃ s', safeEmit ctl chunk s = (s', Ok tt)
        ∧ listening s' ctl (received o [chunk])
        ∧ subChats s' = subChats s.
Proof.
  intros (Ho & Ha & Ht). unfold safeEmit. run.
  eexists; split; [reflexivity|]. split; [|reflexivity].
  unfold listening. simpl. rewrite lookup_alter_eq, Ho. simpl.
  unfold observerNext, received. by rewrite Ha, Ht.
Qed.

Lemma safeComplete_listening ctl (s : State) o :
  listening s ctl o →
  ∃ s', safeComplete ctl s = (s', Ok tt)
        ∧ observers s' !! ctl = Some (finished o []).
Proof.
  intros (Ho & Ha & Ht). unfold safeComplete. run.
  eexists; split; [reflexivity|]. simpl.
  rewrite lookup_alter_eq, Ho. simpl.
  unfold observerComplete, finished. by rewrite Ha, app_nil_r.
Qed.

Lemma finished_received o a b :
  finished (received o a) b = finished o (a ++ b).
Proof. unfold finished, received. simpl. by rewrite app_assoc. Qed.

Lemma dbUpdateMessages_sameObservers subChatId ms :
  respects sameObservers (dbUpdateMessages subChatId ms).
Proof. unfold dbUpdateMessages. respects. Qed.

Lemma readLoop_listening subChatId ctl items ending (s : State) o :
  listening s ctl o →
  ∃ s', readLoop subChatId ctl items ending s
        = (s', match ending with
               | Done => Ok tt
               | ReadThrows e => Throw e
               end)
        ∧ listening s' ctl (received o (map forwarded (chunksOf items))).
Proof.
  revert s o. induction items as [|[v|ms] rest IH]; intros s o Hl; simpl.
  - rewrite received_nil. destruct ending; eauto.
  - unfold mbind, M_bind.
    destruct (safeEmit_listening ctl (forwarded v) s o Hl)
      as (s1 & -> & Hl1 & _).
    destruct (IH s1 _ Hl1) as (s2 & -> & Hl2).
    rewrite received_app in Hl2. eauto.
  - unfold mbind, M_bind.
    pose proof (dbUpdateMessages_sameObservers subChatId ms s) as Hsame.
    destruct (dbUpdateMessages subChatId ms s) as [s1 [[]|e]] eqn:Hdb;
      [|by revert Hdb; unfold dbUpdateMessages; run].
    simpl in Hsame.
    apply (IH s1 o), (listening_sameObservers s); done.
Qed.

Lemma chatCatch_listening ctl error (s : State) o :
  listening s ctl o →
  ∃ s', chatCatch ctl error s = (s', Ok tt)
        ∧ observers s' !! ctl
          = Some (finished o [caughtChunk error; finishChunk]).
Proof.
  intros Hl. unfold chatCatch. unfold mbind, M_bind, emitEvent, modify.
  assert (Hl0 : listening (log (EvLog "[codex] chat stream error:") s) ctl o)
    by exact Hl.
  destruct (safeEmit_listening ctl (caughtChunk error) _ o Hl0)
    as (s1 & Hrun1 & Hl1 & _).
  assert (Hemit :
    (if isCodexAuthError (asParams (extractCodexError error))
     then safeEmit ctl (VObj [("type", VStr "auth-error");
            ("errorText", VStr (message (extractCodexError error)))])
     else safeEmit ctl (VObj [("type", VStr "error");
            ("errorText", VStr (message (extractCodexError error)))]))
    = safeEmit ctl (caughtChunk error)).
  { unfold caughtChunk.
    by destruct (isCodexAuthError (asParams (extractCodexError error))). }
  rewrite Hemit, Hrun1.
  destruct (safeEmit_listening ctl finishChunk s1 _ Hl1)
    as (s2 & -> & Hl2 & _).
  destruct (safeComplete_listening ctl s2 _ Hl2) as (s3 & -> & Ho3).
  eexists; split; [reflexivity|].
  by rewrite Ho3, !finished_received.
Qed.

Lemma chatBuild_sameObservers X input sc :
  respects sameObservers (chatBuild X input sc).
Proof.
  unfold chatBuild, acquireSession, appendUserTurn, dbUpdateMessages,
    getOrCreateProvider, createACPProvider, cleanupProvider.
  respects.
Qed.

Lemma releaseRun_sameObservers subChatId run :
  respects sameObservers (releaseRun subChatId run).
Proof. unfold releaseRun. respects. Qed.

(** The subscriber of a turn that is not torn down receives exactly
    [turnOutput] and then completion. *)
Lemma chatBody_output X input ctl sc (s : State) o :
  listening s ctl o →
  observers (chatBody X input ctl sc s).1 !! ctl
  = Some (finished o (turnOutput X input sc s)).
Proof.
  intros Hl. unfold chatBody, tryFinally.
  match goal with |- context [releaseRun ?a ?b] =>
    pose proof (releaseRun_sameObservers a b) as Hrel end.
  assert (Hbody : observers (tryCatch (chatTry X input ctl sc)
                               (chatCatch ctl) s).1 !! ctl
                  = Some (finished o (turnOutput X input sc s))).
  { unfold tryCatch, chatTry, turnOutput. unfold mbind at 1, M_bind at 1.
    pose proof (chatBuild_sameObservers X input sc s) as Hsame.
    destruct (chatBuild X input sc s) as [s1 [[[ms modelId] p]|e]];
      simpl in Hsame.
    - pose proof (listening_sameObservers s s1 ctl o Hsame Hl) as Hl1.
      destruct (sc_streamError sc) as [e|].
      + run. by destruct (chatCatch_listening ctl e s1 o Hl1)
          as (s2 & -> & Ho2).
      + unfold mbind, M_bind, emitEvent, modify.
        match goal with |- context [readLoop ?a ?b ?c ?d ?st] =>
          destruct (readLoop_listening a b c d st o Hl1)
            as (s2 & -> & Hl2) end.
        destruct (sc_end sc) as [|e].
        * destruct (safeComplete_listening ctl s2 _ Hl2) as (s3 & -> & Ho3).
          simpl. by rewrite Ho3, finished_received.
        * destruct (chatCatch_listening ctl e s2 _ Hl2) as (s3 & -> & Ho3).
          simpl. by rewrite Ho3, finished_received.
    - pose proof (listening_sameObservers s s1 ctl o Hsame Hl) as Hl1.
      by destruct (chatCatch_listening ctl e s1 o Hl1) as (s2 & -> & Ho2). }
  destruct (tryCatch _ _ s) as [s1 r]. simpl in Hbody.
  specialize (Hrel s1).
  destruct (releaseRun _ _ s1) as [s2 [[]|e]]; simpl in *;
    unfold sameObservers in Hrel; by rewrite Hrel.
Qed.

(** *** Classification of errors *)

Lemma append_cons (a : ascii) (t u : string) :
  String a t +:+ u = String a (t +:+ u).
Proof. reflexivity. Qed.

Lemma toLowerCase_app (t u : string) :
  toLowerCase (t +:+ u) = toLowerCase t +:+ toLowerCase u.
Proof.
  induction t as [|a t IH]; [reflexivity|].
  rewrite append_cons. simpl. by rewrite IH, append_cons.
Qed.

Lemma searchableText_lower (params : AuthErrorParams) :
  searchableText params
  = toLowerCase (default "" (ae_code params)) +:+ " "
    +:+ toLowerCase (default "" (ae_message params)).
Proof. unfold searchableText. by rewrite !toLowerCase_app. Qed.

Lemma isCodexAuthError_hint (params : AuthErrorParams) :
  isCodexAuthError params = true
  ↔ ∃ hint, hint ∈ AUTH_HINTS
            ∧ includes hint (searchableText params) = true.
Proof.
  unfold isCodexAuthError. rewrite existsb_exists.
  split; intros (hint & Hin & Hinc); exists hint;
    (split; [by apply list_elem_of_In|done]).
Qed.

Lemma isCodexAuthError_case_insensitive (p1 p2 : AuthErrorParams) :
  toLowerCase (default "" (ae_code p1))
  = toLowerCase (default "" (ae_code p2)) →
  toLowerCase (default "" (ae_message p1))
  = toLowerCase (default "" (ae_message p2)) →
  isCodexAuthError p1 = isCodexAuthError p2.
Proof.
  intros Hc Hm. unfold isCodexAuthError.
  by rewrite !searchableText_lower, Hc, Hm.
Qed.

(** *** Forwarding of stream chunks *)

Lemma assoc_setField (k k' : string) (v : value) fields :
  assoc k (setField k' v fields)
  = if String.eqb k k' then v else assoc k fields.
Proof.
  induction fields as [|[k0 v0] rest IH]; simpl.
  - by destruct (String.eqb k k').
  - destruct (String.eqb_spec k' k0) as [->|Hne]; simpl.
    + by destruct (String.eqb k k0).
    + rewrite IH. destruct (String.eqb_spec k k0) as [->|Hne'];
        [|reflexivity].
      destruct (String.eqb_spec k0 k'); [congruence|reflexivity].
Qed.

Lemma get_type_ownFields (v : value) (t : string) :
  isStr (get "type" v) t = true →
  assoc "type" (ownFields v) = get "type" v.
Proof. destruct v; simpl; done. Qed.

Lemma forwarded_other (v : value) :
  isStr (get "type" v) "error" = false → forwarded v = v.
Proof. intros H. unfold forwarded. by rewrite H. Qed.

Lemma forwarded_error (v : value) :
  isStr (get "type" v) "error" = true →
  let normalized := extractCodexError v in
  forwarded v
  = VObj (setField "errorText" (VStr (message normalized))
            (if isCodexAuthError (asParams normalized)
             then setField "type" (VStr "auth-error") (ownFields v)
             else ownFields v))
  ∧ get "type" (forwarded v)
    = VStr (if isCodexAuthError (asParams normalized)
            then "auth-error" else "error").
Proof.
  intros H. cbv zeta. unfold forwarded. rewrite H.
  pose proof (get_type_ownFields v _ H) as Hty.
  destruct (isCodexAuthError (asParams (extractCodexError v)));
    (split; [reflexivity|]); simpl; rewrite !assoc_setField; simpl.
  - reflexivity.
  - rewrite Hty. destruct (get "type" v); try discriminate.
    simpl in H. by apply String.eqb_eq in H as ->.
Qed.

Lemma isFinish_forwarded (v : value) : isFinish (forwarded v) = isFinish v.
Proof.
  destruct (isStr (get "type" v) "error") eqn:H.
  - destruct (forwarded_error v H) as [_ Hty].
    unfold isFinish. rewrite Hty.
    destruct (get "type" v) as [| | | |t| | |]; try discriminate.
    simpl in H. apply String.eqb_eq in H as ->.
    by destruct (isCodexAuthError _).
  - by rewrite forwarded_other.
Qed.

Lemma countFinish_cons (v : value) (l : list value) :
  countFinish (v :: l)
  = ((if isFinish v then 1 else 0) + countFinish l)%nat.
Proof.
  unfold countFinish. rewrite filter_cons.
  destruct (isFinish v); by case_decide.
Qed.

Lemma countFinish_app (l1 l2 : list value) :
  countFinish (l1 ++ l2) = (countFinish l1 + countFinish l2)%nat.
Proof. unfold countFinish. by rewrite filter_app, length_app. Qed.

Lemma countFinish_forwarded (l : list value) :
  countFinish (map forwarded l) = countFinish l.
Proof.
  induction l as [|v l IH]; [reflexivity|]. simpl.
  by rewrite !countFinish_cons, isFinish_forwarded, IH.
Qed.

Lemma countFinish_caught (e : value) :
  countFinish [caughtChunk e; finishChunk] = 1%nat.
Proof.
  rewrite !countFinish_cons. unfold caughtChunk.
  by destruct (isCodexAuthError _).
Qed.

(** *** Failures of the Building phase *)

Lemma appendUserTurn_total X input existing metadataModel (s : State) :
  ∃ s1 ms, appendUserTurn X input existing metadataModel s = (s1, Ok ms)
           ∧ providerSessions s1 = providerSessions s.
Proof.
  unfold appendUserTurn, dbUpdateMessages. run.
  destruct (isDuplicatePrompt existing (in_prompt input)); eauto.
Qed.

Lemma getOrCreateProvider_total X params (s : State) :
  ∃ s' p, getOrCreateProvider X None params s = (s', Ok p).
Proof.
  destruct (providerSessions s !! p_subChatId params) as [e|] eqn:He.
  - destruct (sessionMatches X e params) eqn:Hm.
    + eexists _, _. by apply PoolProperties.getOrCreateProvider_reuse.
    + destruct (PoolProperties.getOrCreateProvider_recreate X params e s
                  He Hm) as (s' & Hrun & _). eauto.
  - destruct (PoolProperties.getOrCreateProvider_create X params s He)
      as (s' & Hrun & _). eauto.
Qed.

(** Session acquisition succeeds whether or not the tool snapshot
    could be resolved. *)
Lemma acquireSession_total X input sc existing (s : State) :
  sc_spawnError sc = None →
  ∃ s' p, acquireSession X input sc existing s = (s', Ok p).
Proof.
  intros Hspawn. unfold acquireSession, when. rewrite Hspawn.
  unfold mbind, M_bind.
  assert (∃ s1, (if in_forceNewSession input
                 then cleanupProvider (in_subChatId input)
                 else mret ()) s = (s1, Ok tt)) as (s1 & ->).
  { destruct (in_forceNewSession input); [|by eexists].
    destruct (cleanupProvider_run (in_subChatId input) s)
      as (s1 & -> & _). eauto. }
  destruct (sc_mcp sc) as [snapshot|]; run;
    apply getOrCreateProvider_total.
Qed.

Lemma acquireSession_spawn_fails X input sc existing e (s : State) :
  providerSessions s !! in_subChatId input = None →
  sc_spawnError sc = Some e →
  ∃ s', acquireSession X input sc existing s = (s', Throw e).
Proof.
  intros Hnone Hspawn.
  unfold acquireSession, when, cleanupProvider, getOrCreateProvider,
    createACPProvider.
  rewrite Hspawn. run.
  destruct (in_forceNewSession input); simpl; rewrite ?Hnone; simpl;
    destruct (sc_mcp sc); simpl; rewrite Hnone; simpl; eauto.
Qed.

Lemma chatBuild_missing X input sc (s : State) :
  subChats s !! in_subChatId input = None →
  chatBuild X input sc s
  = (s, Throw (VError "Error" "Sub-chat not found" [])).
Proof. intros H. unfold chatBuild. run. by rewrite H. Qed.

Lemma chatBuild_spawn_fails X input sc column e (s : State) :
  subChats s !! in_subChatId input = Some column →
  providerSessions s !! in_subChatId input = None →
  sc_spawnError sc = Some e →
  ∃ s1, chatBuild X input sc s = (s1, Throw e).
Proof.
  intros Hcol Hnone Hspawn. unfold chatBuild. run. rewrite Hcol. simpl.
  match goal with |- context [appendUserTurn ?X ?i ?ex ?m ?st] =>
    destruct (appendUserTurn_total X i ex m st) as (s1 & ms & -> & Hp) end.
  rewrite <- Hp in Hnone.
  destruct (acquireSession_spawn_fails X input sc
              (parseStoredMessages column) e s1 Hnone Hspawn) as (s2 & ->).
  eauto.
Qed.

Lemma chatBuild_total X input sc column (s : State) :
  subChats s !! in_subChatId input = Some column →
  sc_spawnError sc = None →
  ∃ s1 r, chatBuild X input sc s = (s1, Ok r).
Proof.
  intros Hcol Hspawn. unfold chatBuild. run. rewrite Hcol. simpl.
  match goal with |- context [appendUserTurn ?X ?i ?ex ?m ?st] =>
    destruct (appendUserTurn_total X i ex m st) as (s1 & ms & -> & _) end.
  destruct (acquireSession_total X input sc (parseStoredMessages column)
              s1 Hspawn) as (s2 & p & ->).
  eauto.
Qed.

Lemma startedA_listening :
  listening Scenario.startedA 1 Scenario.freshObserver.
Proof. repeat split. Qed.

(** C5, as the code has it: a listening subscriber receives exactly
    [turnOutput] and then completion.  When Building throws (the
    sub-chat is missing, or constructing the provider fails) that is one
    error or auth-error chunk followed by one finish chunk.  A failure
    to resolve the tool snapshot is caught inside Building, which still
    succeeds.  The router emits a finish chunk of its own only in the
    catch block and forwards those of the stream unchanged: the output
    has as many finish chunks as the stream carried, plus one when
    starting or reading the stream threw.  It has exactly one exactly
    when Building or starting the stream throws, or the stream ends
    normally having carried exactly one, or reading throws after the
    stream carried none. *)
Theorem turn_terminal_chunks (X : Externals) (input : ChatInput)
    (ctl : nat) (sc : TurnScript) (s : State) (o : Observer) :
  listening s ctl o →
  observers (chatBody X input ctl sc s).1 !! ctl
  = Some (finished o (turnOutput X input sc s))
  ∧ (∀ s1 e, chatBuild X input sc s = (s1, Throw e) →
             turnOutput X input sc s = [caughtChunk e; finishChunk])
  ∧ (subChats s !! in_subChatId input = None →
     turnOutput X input sc s
     = [caughtChunk (VError "Error" "Sub-chat not found" []); finishChunk])
  ∧ (∀ column e,
        subChats s !! in_subChatId input = Some column →
        providerSessions s !! in_subChatId input = None →
        sc_spawnError sc = Some e →
        turnOutput X input sc s = [caughtChunk e; finishChunk])
  ∧ (∀ column,
        subChats s !! in_subChatId input = Some column →
        sc_spawnError sc = None →
        ∃ s1 r, chatBuild X input sc s = (s1, Ok r))
  ∧ countFinish (turnOutput X input sc s)
    = match chatBuild X input sc s with
      | (_, Throw _) => 1%nat
      | (_, Ok _) =>
          match sc_streamError sc with
          | Some _ => 1%nat
          | None =>
              (countFinish (chunksOf (sc_items sc))
               + match sc_end sc with
                 | Done => 0
                 | ReadThrows _ => 1
                 end)%nat
          end
      end
  ∧ (countFinish (turnOutput X input sc s) = 1%nat
     ↔ match chatBuild X input sc s with
       | (_, Throw _) => True
       | (_, Ok _) =>
           match sc_streamError sc with
           | Some _ => True
           | None =>
               match sc_end sc with
               | Done => countFinish (chunksOf (sc_items sc)) = 1%nat
               | ReadThrows _ => countFinish (chunksOf (sc_items sc)) = 0%nat
               end
           end
       end).
Proof.
  intros Hl. split; [by apply chatBody_output|].
  assert (Hcount :
    countFinish (turnOutput X input sc s)
    = match chatBuild X input sc s with
      | (_, Throw _) => 1%nat
      | (_, Ok _) =>
          match sc_streamError sc with
          | Some _ => 1%nat
          | None =>
              (countFinish (chunksOf (sc_items sc))
               + match sc_end sc with
                 | Done => 0
                 | ReadThrows _ => 1
                 end)%nat
          end
      end);
    [|split; [|split; [|split; [|split; [|split; [exact Hcount|]]]]]].
  { unfold turnOutput.
    destruct (chatBuild X input sc s) as [s1 [r|e]];
      [|apply countFinish_caught].
    destruct (sc_streamError sc); [apply countFinish_caught|].
    rewrite countFinish_app, countFinish_forwarded.
    destruct (sc_end sc); [reflexivity|by rewrite countFinish_caught]. }
  - intros s1 e H. unfold turnOutput. by rewrite H.
  - intros H. unfold turnOutput. by rewrite chatBuild_missing.
  - intros column e Hcol Hnone Hspawn. unfold turnOutput.
    by destruct (chatBuild_spawn_fails X input sc column e s Hcol Hnone
                   Hspawn) as (s1 & ->).
  - intros column. apply chatBuild_total.
  - rewrite Hcount.
    destruct (chatBuild X input sc s) as [s1 [r|e]]; [|done].
    destruct (sc_streamError sc); [done|].
    destruct (sc_end sc); lia.
Qed.

Lemma turn_terminal_chunks_witness :
  listening Scenario.startedA 1 Scenario.freshObserver
  ∧ observers (chatBody Scenario.demoExternals Scenario.inputA 1
                 Scenario.toolFailureScript Scenario.startedA).1 !! 1%nat
    = Some (finished Scenario.freshObserver
              (turnOutput Scenario.demoExternals Scenario.inputA
                 Scenario.toolFailureScript Scenario.startedA)).
Proof.
  split; [exact startedA_listening|].
  apply (turn_terminal_chunks Scenario.demoExternals Scenario.inputA 1
           Scenario.toolFailureScript Scenario.startedA
           Scenario.freshObserver).
  repeat split.
Defined.

(** C5 as stated fails on both counts.  Resolving the tool snapshot
    throws during Building, yet the turn is not aborted: the subscriber
    receives the chunks of the stream and no error chunk.  And a turn
    that is not cancelled need not deliver exactly one finish chunk: a
    stream that ends without one yields a completed output without
    one, and a read that throws after the stream's finish chunk yields
    two. *)
Lemma turn_outcome_counterexamples :
  (sc_mcp Scenario.toolFailureScript = None
   ∧ observers (chatBody Scenario.demoExternals Scenario.inputA 1
                  Scenario.toolFailureScript Scenario.startedA).1 !! 1%nat
     = Some (finished Scenario.freshObserver
               [Scenario.textDelta "hi"; finishChunk]))
  ∧ (observers (chatBody Scenario.demoExternals Scenario.inputA 1
                  Scenario.noFinishScript Scenario.startedA).1 !! 1%nat
     = Some (finished Scenario.freshObserver [Scenario.textDelta "hi"])
     ∧ countFinish [Scenario.textDelta "hi"] = 0%nat)
  ∧ (observers (chatBody Scenario.demoExternals Scenario.inputA 1
                  Scenario.finishThenThrowScript Scenario.startedA).1
       !! 1%nat
     = Some (finished Scenario.freshObserver
               [Scenario.textDelta "hi"; finishChunk;
                Scenario.errorChunk "connection reset"; finishChunk])
     ∧ countFinish [Scenario.textDelta "hi"; finishChunk;
                    Scenario.errorChunk "connection reset"; finishChunk]
       = 2%nat).
Proof.
  split; [split; [reflexivity|vm_compute; reflexivity]|].
  split; (split; [vm_compute; reflexivity|reflexivity]).
Qed.

(** C7, as the code has it: while the subscriber listens, every chunk
    of the stream is forwarded in stream order and reading goes on to
    the end of the stream, also after an authentication error; a chunk
    whose type is not "error" is forwarded verbatim; an error chunk is
    forwarded with the normalized error text and, when the lower-cased
    code and message contain one of the fixed hints, re-tagged
    "auth-error"; the classification depends on code and message only
    up to letter case. *)
Theorem stream_chunks_forwarded (X : Externals) (input : ChatInput)
    (ctl : nat) (sc : TurnScript) (s s1 : State) (o : Observer)
    (built : list value * string * ACPProvider) :
  listening s ctl o →
  chatBuild X input sc s = (s1, Ok built) →
  sc_streamError sc = None →
  observers (chatBody X input ctl sc s).1 !! ctl
  = Some (finished o
            (map forwarded (chunksOf (sc_items sc))
             ++ match sc_end sc with
                | Done => []
                | ReadThrows e => [caughtChunk e; finishChunk]
                end))
  ∧ (∀ v, isStr (get "type" v) "error" = false → forwarded v = v)
  ∧ (∀ v, isStr (get "type" v) "error" = true →
       let normalized := extractCodexError v in
       forwarded v
       = VObj (setField "errorText" (VStr (message normalized))
                 (if isCodexAuthError (asParams normalized)
                  then setField "type" (VStr "auth-error") (ownFields v)
                  else ownFields v))
       ∧ get "type" (forwarded v)
         = VStr (if isCodexAuthError (asParams normalized)
                 then "auth-error" else "error"))
  ∧ (∀ params,
       isCodexAuthError params = true
       ↔ ∃ hint, hint ∈ AUTH_HINTS
                 ∧ includes hint
                     (toLowerCase (default "" (ae_code params) +:+ " "
                                   +:+ default "" (ae_message params)))
                   = true)
  ∧ (∀ p1 p2,
       toLowerCase (default "" (ae_code p1))
       = toLowerCase (default "" (ae_code p2)) →
       toLowerCase (default "" (ae_message p1))
       = toLowerCase (default "" (ae_message p2)) →
       isCodexAuthError p1 = isCodexAuthError p2).
Proof.
  intros Hl Hbuild Hstart. split; [|split; [|split; [|split]]].
  - rewrite (chatBody_output X input ctl sc s o Hl).
    unfold turnOutput. by rewrite Hbuild, Hstart.
  - apply forwarded_other.
  - apply forwarded_error.
  - apply isCodexAuthError_hint.
  - apply isCodexAuthError_case_insensitive.
Qed.

Lemma stream_chunks_forwarded_witness :
  listening Scenario.startedA 1 Scenario.freshObserver
  ∧ observers (chatBody Scenario.demoExternals Scenario.inputA 1
                 (Scenario.okScript [Chunk (Scenario.textDelta "a");
                                     Chunk finishChunk])
                 Scenario.startedA).1 !! 1%nat
    = Some (finished Scenario.freshObserver
              (map forwarded [Scenario.textDelta "a"; finishChunk] ++ [])).
Proof.
  split; [exact startedA_listening|].
  refine (proj1 (stream_chunks_forwarded Scenario.demoExternals
                   Scenario.inputA 1
                   (Scenario.okScript [Chunk (Scenario.textDelta "a");
                                       Chunk finishChunk])
                   Scenario.startedA _ Scenario.freshObserver _ _ _ _)).
  - exact startedA_listening.
  - vm_compute. reflexivity.
  - reflexivity.
Defined.

(** C7 as stated fails: after an error chunk classified as an
    authentication error the router keeps reading, and the chunks that
    follow it reach the subscriber. *)
Lemma chunks_after_auth_error_are_forwarded :
  isCodexAuthError
    (asParams (extractCodexError (Scenario.errorChunk "401 Unauthorized")))
  = true
  ∧ observers (chatBody Scenario.demoExternals Scenario.inputA 1
                 Scenario.authErrorScript Scenario.startedA).1 !! 1%nat
    = Some (finished Scenario.freshObserver
              [VObj [("type", VStr "auth-error");
                     ("errorText", VStr "401 Unauthorized")];
               Scenario.textDelta "late";
               finishChunk]).
Proof. split; [reflexivity|]. vm_compute. reflexivity. Qed.

End TurnProperties.

(* ===================================================================== *)
(** ** Properties of login sessions                                       *)
(* ===================================================================== *)

Module LoginProperties.
Import CodexLogin.

Lemma onClose_cancelled (code : option Z) (s : CodexLoginSession) :
  state s = Cancelled →
  onClose code s
  = {| id := id s; process := None; state := Cancelled;
       output := output s; url := url s; error := error s;
       exitCode := code |}.
Proof. intros H. unfold onClose. simpl. by rewrite H. Qed.

Lemma appendLoginOutput_state stripAnsi extractUrl chunk s :
  state (appendLoginOutput stripAnsi extractUrl chunk s) = state s.
Proof.
  unfold appendLoginOutput.
  by destruct (negb (JsString.nonempty (stripAnsi chunk))).
Qed.

Lemma deliver_cancelled stripAnsi extractUrl (ev : ChildEvent) s :
  isChildError ev = false →
  state s = Cancelled →
  state (deliver stripAnsi extractUrl ev s) = Cancelled.
Proof.
  intros Hev H. destruct ev as [chunk|errorMessage|code]; simpl.
  - by rewrite appendLoginOutput_state.
  - discriminate Hev.
  - by rewrite onClose_cancelled.
Qed.

Lemma deliver_all_cancelled stripAnsi extractUrl (events : list ChildEvent) s :
  Forall (λ ev, isChildError ev = false) events →
  state s = Cancelled →
  state (foldl (λ session ev, deliver stripAnsi extractUrl ev session)
           s events)
  = Cancelled.
Proof.
  intros Hevents. revert s.
  induction Hevents as [|ev events Hev _ IH]; intros s Hs; [exact Hs|].
  simpl. apply IH. by apply deliver_cancelled.
Qed.

Lemma cancelSession_delivered (kill : KillOutcome) (s : CodexLoginSession) :
  (∀ errorMessage, kill ≠ KillFails errorMessage) →
  state (cancelSession kill s) = Cancelled
  ∧ error (cancelSession kill s) = None
  ∧ id (cancelSession kill s) = id s
  ∧ output (cancelSession kill s) = output s
  ∧ url (cancelSession kill s) = url s
  ∧ exitCode (cancelSession kill s) = exitCode s.
Proof.
  intros Hkill. unfold cancelSession. simpl.
  destruct (process s) as [p|]; [|done].
  destruct (negb (killed p)); [|done].
  destruct kill as [| |errorMessage]; [done|done|].
  by destruct (Hkill errorMessage).
Qed.

(** C10: the cancelled state is final on the close path only.  When
    the signal [cancelLogin] sends to a live child cannot be delivered,
    the child's ['error'] handler runs inside [cancelLogin] and
    overwrites the state just set: the session is registered and
    answered with state [error], and a later close with exit code 0
    turns it into [success].  The same handler overwrites the state
    when the event follows a delivered signal.  Without an ['error']
    event the state stays cancelled along any sequence of output and
    close events, and the close handler records the exit code, whatever
    it is. *)
Theorem cancelled_login_overwritten_by_child_error
    (loginSessions : gmap string CodexLoginSession) (sessionId : string)
    (s : CodexLoginSession) (p : ChildProcess) (errorMessage : string) :
  loginSessions !! sessionId = Some s →
  process s = Some p →
  killed p = false →
  let overwritten :=
    {| id := id s; process := None; state := Error;
       output := output s; url := url s;
       error :=
         Some ("[codex] Failed to start login flow: " +:+ errorMessage);
       exitCode := exitCode s |} in
  cancelLogin (KillFails errorMessage) sessionId loginSessions
  = (<[sessionId := overwritten]> loginSessions,
     {| success := true; found := true; session := Some overwritten |})
  ∧ state <$> (closeLogin sessionId (Some 0)
                 (cancelLogin (KillFails errorMessage) sessionId
                    loginSessions).1 !! sessionId)
    = Some Success
  ∧ state (cancelSession Signalled s) = Cancelled
  ∧ (∀ stripAnsi extractUrl,
        deliver stripAnsi extractUrl (ChildError errorMessage)
          (cancelSession Signalled s)
        = overwritten)
  ∧ (∀ kill stripAnsi extractUrl (events : list ChildEvent),
        (∀ m, kill ≠ KillFails m) →
        Forall (λ ev, isChildError ev = false) events →
        state (foldl (λ session ev, deliver stripAnsi extractUrl ev session)
                 (cancelSession kill s) events)
        = Cancelled)
  ∧ (∀ kill code,
        (∀ m, kill ≠ KillFails m) →
        closeLogin sessionId code (cancelLogin kill sessionId loginSessions).1
          !! sessionId
        = Some {| id := id s; process := None; state := Cancelled;
                  output := output s; url := url s; error := None;
                  exitCode := code |}).
Proof.
  intros Hs Hp Hk. cbv zeta.
  assert (Hfail : cancelSession (KillFails errorMessage) s
                  = {| id := id s; process := None; state := Error;
                       output := output s; url := url s;
                       error :=
                         Some ("[codex] Failed to start login flow: "
                               +:+ errorMessage);
                       exitCode := exitCode s |}).
  { unfold cancelSession. simpl. by rewrite Hp, Hk. }
  split; [unfold cancelLogin; by rewrite Hs, Hfail|].
  split.
  { unfold cancelLogin, closeLogin. rewrite Hs, Hfail. simpl.
    by rewrite lookup_alter_eq, lookup_insert_eq. }
  split; [unfold cancelSession; simpl; by rewrite Hp, Hk|].
  split.
  { intros stripAnsi extractUrl. unfold cancelSession. simpl.
    by rewrite Hp, Hk. }
  split.
  - intros kill stripAnsi extractUrl events Hkill Hevents.
    apply deliver_all_cancelled; [exact Hevents|].
    by apply cancelSession_delivered.
  - intros kill code Hkill.
    destruct (cancelSession_delivered kill s Hkill)
      as (Hstate & Herr & Hid & Hout & Hurl & _).
    unfold cancelLogin, closeLogin. rewrite Hs. simpl.
    rewrite lookup_alter_eq, lookup_insert_eq. simpl.
    rewrite onClose_cancelled by exact Hstate.
    by rewrite Hid, Hout, Hurl, Herr.
Qed.

Lemma cancelled_login_overwritten_by_child_error_witness :
  state <$> session (cancelLogin (KillFails "kill EPERM") "login-1"
                       Scenario.loginRegistry).2
  = Some Error.
Proof.
  destruct (cancelled_login_overwritten_by_child_error
              Scenario.loginRegistry "login-1" Scenario.runningLogin
              {| killed := false |} "kill EPERM"
              eq_refl eq_refl eq_refl)
    as (Hcancel & _).
  by rewrite Hcancel.
Defined.

End LoginProperties.

(* ===================================================================== *)
(** ** Properties of the auth-error recovery of the transport             *)
(* ===================================================================== *)

Module TransportProperties.
Import JsString Js Transport.

Lemma onData_auth_error send integration chunk st c :
  Codex.isStr (get "type" chunk) "auth-error" = true →
  onData send integration chunk st c = onAuthError send integration st c.
Proof.
  intros H. unfold onData. rewrite H.
  destruct (get "type" chunk) as [| | | |t| | |]; try discriminate.
  simpl in H. apply String.eqb_eq in H as ->. reflexivity.
Qed.

Lemma takeForceNewSession_flagged subChatId (st : ClientState) :
  subChatId ∈ forceFreshSessionSubChats st →
  ((takeForceNewSession subChatId st).1 = true)
  ∧ (subChatId
     ∉ forceFreshSessionSubChats ((takeForceNewSession subChatId st).2))
  ∧ ((takeForceNewSession subChatId (takeForceNewSession subChatId st).2).1
     = false).
Proof.
  intros Hin. unfold takeForceNewSession. simpl.
  rewrite (bool_decide_eq_true_2 _ Hin). simpl.
  split; [reflexivity|]. split.
  - rewrite elem_of_difference, elem_of_singleton. tauto.
  - apply bool_decide_eq_false_2.
    rewrite elem_of_difference, elem_of_singleton. tauto.
Qed.

(** The credential re-check does not read the fresh-session flags. *)
Lemma credentials_ignore_flags integration f (st : ClientState) :
  resolveCodexCredentialsForAuthError integration (set_forceFresh f st)
  = resolveCodexCredentialsForAuthError integration st.
Proof. reflexivity. Qed.

(** C6: on an auth-error chunk the sub-chat is flagged for a fresh
    session, a flag the next send reads as [forceNewSession] and clears.
    When a credential exists and the failed send was not itself forced
    fresh, the retry is staged with [readyToRetry] true and neither a
    toast nor the login prompt appears.  When the failed send was
    forced fresh or no credential exists, the staged message has
    [readyToRetry] false and the user sees the login prompt (no
    credential) or the rejection toast.  The send that follows an auth
    error is forced fresh, so an auth error on it stages no silent
    retry. *)
Theorem auth_error_single_retry (send : Send)
    (integration : option CodexIntegrationState) (chunk : value)
    (st : ClientState) (c : StreamController) :
  Codex.isStr (get "type" chunk) "auth-error" = true →
  let credentials := resolveCodexCredentialsForAuthError integration st in
  let st' := (onData send integration chunk st c).1 in
  let next := takeForceNewSession (send_subChatId send) st' in
  send_subChatId send ∈ forceFreshSessionSubChats st'
  ∧ (next.1 = true)
  ∧ (send_subChatId send ∉ forceFreshSessionSubChats (next.2))
  ∧ ((takeForceNewSession (send_subChatId send) next.2).1 = false)
  ∧ (hasAny credentials = true → send_forceNewSession send = false →
     pendingAuthRetryMessageAtom st'
     = Some {| retry_subChatId := send_subChatId send;
               retry_provider := "codex";
               retry_prompt := send_prompt send;
               retry_images := match send_images send with
                               | [] => None
                               | images => Some images
                               end;
               readyToRetry := true |}
     ∧ toasts st' = toasts st
     ∧ codexLoginModalOpenAtom st' = codexLoginModalOpenAtom st)
  ∧ (send_forceNewSession send = true ∨ hasAny credentials = false →
     (readyToRetry <$> pendingAuthRetryMessageAtom st') = Some false
     ∧ if hasAny credentials
       then ∃ text, toasts st'
                    = toasts st ++ [{| title := "Codex authentication failed";
                                       description := VStr text |}]
       else codexLoginModalOpenAtom st' = true)
  ∧ (∀ send2 integration2 c2,
       send_forceNewSession send2 = next.1 →
       (readyToRetry
          <$> pendingAuthRetryMessageAtom
                (onAuthError send2 integration2 next.2 c2).1)
       = Some false).
Proof.
  intros Hty. cbv zeta. rewrite (onData_auth_error _ _ _ _ _ Hty).
  assert (Hflag : send_subChatId send
                  ∈ forceFreshSessionSubChats
                      (onAuthError send integration st c).1).
  { unfold onAuthError. rewrite !credentials_ignore_flags.
    destruct (negb (hasAny _)); [|destruct (negb (_ && _))]; simpl;
      rewrite elem_of_union, elem_of_singleton; by left. }
  destruct (takeForceNewSession_flagged _ _ Hflag) as (Hn1 & Hn2 & Hn3).
  split; [exact Hflag|]. split; [exact Hn1|].
  split; [exact Hn2|]. split; [exact Hn3|].
  split; [|split].
  - intros Hany Hforce. unfold onAuthError.
    rewrite !credentials_ignore_flags, Hany, Hforce. simpl. done.
  - intros Hcase. unfold onAuthError.
    rewrite !credentials_ignore_flags.
    destruct (hasAny (resolveCodexCredentialsForAuthError integration st))
      eqn:Hany; simpl.
    + destruct Hcase as [Hforce|]; [|done]. rewrite Hforce. simpl.
      split; [done|]. eauto.
    + done.
  - intros send2 integration2 c2 Hforce2. rewrite Hn1 in Hforce2.
    unfold onAuthError. rewrite !credentials_ignore_flags, Hforce2.
    rewrite andb_false_r.
    by destruct (negb (hasAny _)).
Qed.

Lemma auth_error_single_retry_witness :
  Codex.isStr (get "type" Scenario.authErrorChunk) "auth-error" = true
  ∧ (readyToRetry
       <$> pendingAuthRetryMessageAtom
             (onData Scenario.firstSend None Scenario.authErrorChunk
                Scenario.clientWithKey Scenario.openController).1)
    = Some true.
Proof.
  split; [reflexivity|].
  destruct (auth_error_single_retry Scenario.firstSend None
              Scenario.authErrorChunk Scenario.clientWithKey
              Scenario.openController eq_refl)
    as (_ & _ & _ & _ & Hretry & _).
  destruct (Hretry eq_refl eq_refl) as (Hpending & _).
  by rewrite Hpending.
Defined.

End TransportProperties.

(* ===================================================================== *)
(** ** Properties of router executions                                    *)
(* ===================================================================== *)

Module RouterRunProperties.
Import JsString Js Codex RouterRuns.
Import RegistryProperties PoolProperties TurnProperties.

(** *** What each procedure does to the maps *)

Lemma chatSubscribe_run (input : ChatInput) (throws : bool) (s : State) :
  ∃ s', chatSubscribe input throws s = (s', Ok (nextId s))
        ∧ activeStreams s'
          = <[in_subChatId input :=
                {| runId := in_runId input; controller := nextId s |}]>
              (activeStreams s)
        ∧ providerSessions s'
          = match activeStreams s !! in_subChatId input with
            | Some _ => delete (in_subChatId input) (providerSessions s)
            | None => providerSessions s
            end
        ∧ nextId s' = S (nextId s)
        ∧ trace s'
          = trace s
              ++ match activeStreams s !! in_subChatId input with
                 | Some a => EvAbort (controller a)
                             :: teardownEvents s (in_subChatId input)
                 | None => []
                 end
              ++ [EvStreamsSet (in_subChatId input) (in_runId input)
                    (nextId s)].
Proof.
  unfold chatSubscribe. run.
  destruct (activeStreams s !! in_subChatId input) as [a|] eqn:Ea; simpl.
  - destruct (cleanupProvider_run (in_subChatId input)
                (log (EvAbort (controller a)) s))
      as (s1 & -> & Hp & Hs & Ho & Hd & Hn & Ht).
    simpl in *. eexists; split; [by rewrite Hn|]. simpl.
    rewrite Hs, Hp, Hn, Ht. unfold teardownEvents. simpl.
    by rewrite <- ?app_assoc.
  - eexists; split; [reflexivity|]. simpl. by rewrite <- ?app_assoc.
Qed.

Lemma cancel_run (subChatId run : string) (s : State) :
  ∃ s' res, cancel subChatId run s = (s', Ok res)
    ∧ nextId s' = nextId s
    ∧ observers s' = observers s
    ∧ match activeStreams s !! subChatId with
      | Some a =>
          if String.eqb (runId a) run
          then res = {| cancelled := true; ignoredStale := false |}
               ∧ activeStreams s' = delete subChatId (activeStreams s)
               ∧ providerSessions s' = delete subChatId (providerSessions s)
               ∧ trace s'
                 = trace s ++ EvAbort (controller a)
                     :: teardownEvents s subChatId
                     ++ [EvStreamsDelete subChatId]
          else res = {| cancelled := false; ignoredStale := true |} ∧ s' = s
      | None => res = {| cancelled := false; ignoredStale := false |} ∧ s' = s
      end.
Proof.
  unfold cancel. run.
  destruct (activeStreams s !! subChatId) as [a|] eqn:Ea; simpl;
    [|by eexists _, _].
  destruct (String.eqb (runId a) run) eqn:Er; simpl; [|by eexists _, _].
  destruct (cleanupProvider_run subChatId (log (EvAbort (controller a)) s))
    as (s1 & -> & Hp & Ha & Ho & Hd & Hn & Ht).
  simpl in *. eexists _, _; split; [reflexivity|]. simpl.
  rewrite Ha, Hp, Ht, Ho, Hn. unfold teardownEvents. simpl.
  by rewrite <- ?app_assoc.
Qed.

Lemma cleanup_run (subChatId : string) (s : State) :
  ∃ s', cleanup subChatId s = (s', Ok tt)
    ∧ nextId s' = nextId s
    ∧ observers s' = observers s
    ∧ subChats s' = subChats s
    ∧ activeStreams s' = delete subChatId (activeStreams s)
    ∧ providerSessions s' = delete subChatId (providerSessions s)
    ∧ trace s'
      = trace s ++ teardownEvents s subChatId
          ++ match activeStreams s !! subChatId with
             | Some a => [EvAbort (controller a); EvStreamsDelete subChatId]
             | None => []
             end.
Proof.
  unfold cleanup. unfold mbind at 1, M_bind at 1.
  destruct (cleanupProvider_run subChatId s)
    as (s1 & -> & Hp & Ha & Ho & Hd & Hn & Ht).
  run. rewrite Ha.
  destruct (activeStreams s !! subChatId) as [a|] eqn:Ea; simpl.
  - eexists; split; [reflexivity|]. simpl.
    rewrite Hn, Ho, Hd, Ha, Hp, Ht. by rewrite <- ?app_assoc.
  - exists s1. rewrite Hn, Ho, Hd, Ha, Hp, Ht, app_nil_r.
    by rewrite delete_id.
Qed.

Lemma chatTeardown_run (input : ChatInput) (ctl : nat) (s : State) :
  ∃ s', chatTeardown input ctl s = (s', Ok tt)
    ∧ nextId s' = nextId s
    ∧ providerSessions s' = providerSessions s
    ∧ observers s' = alter observerDeactivate ctl (observers s)
    ∧ activeStreams s'
      = compareAndDelete (in_subChatId input) (in_runId input)
          (activeStreams s)
    ∧ ∃ evs, trace s' = trace s ++ EvAbort ctl :: evs
             ∧ ∀ e, e ∈ evs → notAbort e.
Proof.
  unfold chatTeardown, releaseRun, compareAndDelete. run.
  destruct (activeStreams s !! in_subChatId input) as [a|]; simpl.
  - destruct (String.eqb (runId a) (in_runId input)); simpl.
    + eexists; split; [reflexivity|]. simpl. repeat split.
      exists [EvStreamsDelete (in_subChatId input)].
      rewrite <- app_assoc. split; [done|].
      by intros e ->%list_elem_of_singleton.
    + eexists; split; [reflexivity|]. simpl. repeat split.
      exists []. split; [done|]. intros e H. by apply elem_of_nil in H.
  - eexists; split; [reflexivity|]. simpl. repeat split.
    exists []. split; [done|]. intros e H. by apply elem_of_nil in H.
Qed.

Lemma state_eq (s s' : State) :
  providerSessions s' = providerSessions s →
  activeStreams s' = activeStreams s →
  observers s' = observers s →
  subChats s' = subChats s →
  nextId s' = nextId s →
  trace s' = trace s →
  s' = s.
Proof. destruct s, s'. simpl. by intros -> -> -> -> -> ->. Qed.

Lemma respects_weaken (R R' : relation State) {A} (m : M A) :
  (∀ s s', R s s' → R' s s') → respects R m → respects R' m.
Proof. intros Hw Hm s. apply Hw, Hm. Qed.

(** *** Cleanup is idempotent *)

(** X1: after [cleanup] the sub-chat has neither a provider session nor
    a registered run, and a second [cleanup] (or [cleanupProvider])
    changes nothing at all. *)
Theorem cleanup_twice_is_cleanup_once (subChatId : string) (s : State) :
  let s1 := (cleanup subChatId s).1 in
  providerSessions s1 !! subChatId = None
  ∧ activeStreams s1 !! subChatId = None
  ∧ cleanup subChatId s1 = (s1, Ok tt)
  ∧ cleanupProvider subChatId s1 = (s1, Ok tt).
Proof.
  cbv zeta.
  destruct (cleanup_run subChatId s)
    as (s1 & -> & Hn & Ho & Hd & Ha & Hp & Ht). simpl.
  assert (Hp1 : providerSessions s1 !! subChatId = None)
    by (rewrite Hp; apply lookup_delete_eq).
  assert (Ha1 : activeStreams s1 !! subChatId = None)
    by (rewrite Ha; apply lookup_delete_eq).
  split; [done|]. split; [done|]. split.
  - destruct (cleanup_run subChatId s1)
      as (s2 & -> & Hn2 & Ho2 & Hd2 & Ha2 & Hp2 & Ht2).
    f_equal. apply state_eq; try done.
    + by rewrite Hp2, delete_id.
    + by rewrite Ha2, delete_id.
    + rewrite Ht2. unfold teardownEvents. rewrite Hp1, Ha1. simpl.
      by rewrite app_nil_r.
  - destruct (cleanupProvider_run subChatId s1)
      as (s2 & -> & Hp2 & Ha2 & Ho2 & Hd2 & Hn2 & Ht2).
    f_equal. apply state_eq; try done.
    + by rewrite Hp2, delete_id.
    + rewrite Ht2. unfold teardownEvents. rewrite Hp1. by rewrite app_nil_r.
Qed.

(** *** Other sub-chats are left alone *)

#[export] Instance onlyTouches_preorder subChatId :
  PreOrder (onlyTouches subChatId).
Proof.
  split.
  - by intros s other _.
  - intros s1 s2 s3 H1 H2 other Hne.
    destruct (H1 other Hne) as [Hp1 Ha1], (H2 other Hne) as [Hp2 Ha2].
    split; congruence.
Qed.

Lemma onlyTouches_maps subChatId (s s' : State) :
  (∀ other, other ≠ subChatId →
     providerSessions s' !! other = providerSessions s !! other) →
  (∀ other, other ≠ subChatId →
     activeStreams s' !! other = activeStreams s !! other) →
  onlyTouches subChatId s s'.
Proof. intros Hp Ha other Hne. split; auto. Qed.

Ltac touches_step :=
  match goal with
  | |- respects (onlyTouches _) (modify _) =>
      apply respects_modify; intros ?; apply onlyTouches_maps;
      intros ? ?; simpl;
      rewrite ?lookup_delete_ne, ?lookup_insert_ne by done; reflexivity
  | |- respects (onlyTouches _) fresh =>
      intros ?; apply onlyTouches_maps; reflexivity
  | _ => respects_step
  end.

Ltac touches := repeat touches_step.

Lemma readLoop_onlyTouches sub subChatId ctl items ending :
  respects (onlyTouches sub) (readLoop subChatId ctl items ending).
Proof.
  induction items as [|[v|ms] rest IH]; simpl;
    unfold safeEmit, dbUpdateMessages; touches; exact IH.
Qed.

Lemma chatBody_onlyTouches X input ctl sc :
  respects (onlyTouches (in_subChatId input)) (chatBody X input ctl sc).
Proof.
  unfold chatBody, chatTry, chatCatch, chatBuild, acquireSession,
    appendUserTurn, dbUpdateMessages, releaseRun, safeEmit, safeComplete,
    getOrCreateProvider, createACPProvider, cleanupProvider.
  cbn [p_subChatId chatProviderParams].
  touches; apply readLoop_onlyTouches.
Qed.

(** X2: the head of [chat], its body, its teardown, [cancel] and
    [cleanup] for one sub-chat never change the provider session or the
    registered run of any other sub-chat. *)
Theorem other_sub_chats_untouched (X : Externals) (input : ChatInput)
    (throws : bool) (ctl : nat) (sc : TurnScript) (run other : string)
    (s : State) :
  other ≠ in_subChatId input →
  Forall (λ s', providerSessions s' !! other = providerSessions s !! other
                ∧ activeStreams s' !! other = activeStreams s !! other)
    [ (chatSubscribe input throws s).1;
      (chatBody X input ctl sc s).1;
      (chatTeardown input ctl s).1;
      (cancel (in_subChatId input) run s).1;
      (cleanup (in_subChatId input) s).1 ].
Proof.
  intros Hne. repeat apply Forall_cons_2; [| | | | |apply Forall_nil_2].
  - revert s other Hne.
    change (respects (onlyTouches (in_subChatId input))
              (chatSubscribe input throws)).
    unfold chatSubscribe, cleanupProvider. touches.
  - by apply chatBody_onlyTouches.
  - revert s other Hne.
    change (respects (onlyTouches (in_subChatId input))
              (chatTeardown input ctl)).
    unfold chatTeardown, releaseRun. touches.
  - revert s other Hne.
    change (respects (onlyTouches (in_subChatId input))
              (cancel (in_subChatId input) run)).
    unfold cancel, cleanupProvider. touches.
  - revert s other Hne.
    change (respects (onlyTouches (in_subChatId input))
              (cleanup (in_subChatId input))).
    unfold cleanup, cleanupProvider. touches.
Qed.

Lemma other_sub_chats_untouched_witness :
  Forall (λ s', providerSessions s' !! "sc1"
                = providerSessions Scenario.stateWithA !! "sc1"
                ∧ activeStreams s' !! "sc1"
                  = activeStreams Scenario.stateWithA !! "sc1")
    [ (chatSubscribe MoreScenarios.inputOther false Scenario.stateWithA).1 ].
Proof.
  pose proof (other_sub_chats_untouched Scenario.demoExternals
                MoreScenarios.inputOther
                false 0 (Scenario.okScript []) "run-C" "sc1"
                Scenario.stateWithA ltac:(discriminate)) as H.
  apply Forall_cons_1 in H as [H _]. by apply Forall_cons_2.
Defined.

(** *** Cancelling around a supersede *)

(** X3: once a run is registered for a sub-chat, a [cancel] carrying any
    other run id (a superseded or completed run) reports [ignoredStale]
    and changes nothing; a [cancel] carrying its id aborts its
    controller and leaves the sub-chat without run and without provider
    session, after which every further [cancel] reports neither
    cancelled nor stale and changes nothing. *)
Theorem cancel_after_subscribe (input : ChatInput) (throws : bool)
    (s : State) :
  let sB := (chatSubscribe input throws s).1 in
  (∀ run, run ≠ in_runId input →
     cancel (in_subChatId input) run sB
     = (sB, Ok {| cancelled := false; ignoredStale := true |}))
  ∧ ∃ s',
      cancel (in_subChatId input) (in_runId input) sB
      = (s', Ok {| cancelled := true; ignoredStale := false |})
      ∧ activeStreams s' !! in_subChatId input = None
      ∧ providerSessions s' !! in_subChatId input = None
      ∧ EvAbort (nextId s) ∈ trace s'
      ∧ ∀ run, cancel (in_subChatId input) run s'
               = (s', Ok {| cancelled := false; ignoredStale := false |}).
Proof.
  cbv zeta.
  destruct (chatSubscribe_run input throws s)
    as (sB & -> & Ha & Hp & Hn & Ht). simpl.
  assert (Hentry : activeStreams sB !! in_subChatId input
                   = Some {| runId := in_runId input;
                             controller := nextId s |})
    by (rewrite Ha; apply lookup_insert_eq).
  split.
  - intros run Hne.
    destruct (cancel_run (in_subChatId input) run sB)
      as (s' & res & -> & _ & _ & Hcase).
    rewrite Hentry in Hcase. simpl in Hcase.
    destruct (String.eqb_spec (in_runId input) run) as [<-|_]; [done|].
    by destruct Hcase as [-> ->].
  - destruct (cancel_run (in_subChatId input) (in_runId input) sB)
      as (s' & res & -> & _ & _ & Hcase).
    rewrite Hentry in Hcase. simpl in Hcase.
    rewrite String.eqb_refl in Hcase.
    destruct Hcase as (-> & Ha' & Hp' & Ht').
    exists s'. split; [done|].
    assert (Hnone : activeStreams s' !! in_subChatId input = None)
      by (rewrite Ha'; apply lookup_delete_eq).
    split; [done|]. split; [rewrite Hp'; apply lookup_delete_eq|].
    split.
    + rewrite Ht'. apply elem_of_app. right. apply elem_of_cons. by left.
    + intros run.
      destruct (cancel_run (in_subChatId input) run s')
        as (s2 & res & -> & _ & _ & Hcase).
      rewrite Hnone in Hcase. by destruct Hcase as [-> ->].
Qed.

Lemma cancel_after_subscribe_witness :
  cancel "sc1" "run-A" (chatSubscribe Scenario.inputB false Scenario.stateWithA).1
  = ((chatSubscribe Scenario.inputB false Scenario.stateWithA).1,
     Ok {| cancelled := false; ignoredStale := true |}).
Proof.
  apply (proj1 (cancel_after_subscribe Scenario.inputB false
                  Scenario.stateWithA) "run-A").
  discriminate.
Defined.

(** *** Nothing is delivered to a muted subscriber *)

#[export] Instance keepsMuted_preorder : PreOrder keepsMuted.
Proof.
  split.
  - intros s ctl o Ho Hm. eauto.
  - intros s1 s2 s3 H1 H2 ctl o Ho Hm.
    destruct (H1 ctl o Ho Hm) as (o2 & Ho2 & Hm2 & He2 & Hi2).
    destruct (H2 ctl o2 Ho2 Hm2) as (o3 & Ho3 & Hm3 & He3 & Hi3).
    exists o3. split; [done|]. split; [done|].
    split; [congruence|]. intros Hin.
    specialize (Hi2 Hin). subst o2. auto.
Qed.

Lemma sameObservers_keepsMuted (s s' : State) :
  sameObservers s s' → keepsMuted s s'.
Proof. intros Hs ctl o Ho Hm. rewrite Hs. eauto. Qed.

Lemma keepsMuted_alter (f : Observer → Observer) ctl' (s : State) :
  (∀ o, mute o → mute (f o) ∧ emitted (f o) = emitted o
                 ∧ (isActive o = false → f o = o)) →
  keepsMuted s (set_observers (alter f ctl') s).
Proof.
  intros Hf ctl o Ho Hm. simpl.
  destruct (decide (ctl' = ctl)) as [->|Hne].
  - rewrite lookup_alter_eq, Ho. simpl.
    destruct (Hf o Hm) as (? & ? & ?). eauto.
  - rewrite lookup_alter_ne by done. eauto.
Qed.

Lemma safeEmit_keepsMuted ctl chunk : respects keepsMuted (safeEmit ctl chunk).
Proof.
  intros s. apply keepsMuted_alter. intros o [Hi|Ht].
  - unfold observerNext. rewrite Hi. by split; [left|].
  - unfold observerNext. rewrite Ht.
    destruct (isActive o) eqn:Hi; simpl.
    + split; [by left|]. by split.
    + split; [by left|]. by split.
Qed.

Lemma safeComplete_keepsMuted ctl : respects keepsMuted (safeComplete ctl).
Proof.
  intros s. apply keepsMuted_alter. intros o Hm.
  unfold observerComplete. destruct (isActive o) eqn:Hi; simpl.
  - split; [by left|]. by split.
  - by split.
Qed.

Ltac muted_step :=
  match goal with
  | |- respects keepsMuted (safeEmit _ _) => apply safeEmit_keepsMuted
  | |- respects keepsMuted (safeComplete _) => apply safeComplete_keepsMuted
  | |- respects keepsMuted (chatBuild _ _ _) =>
      apply (respects_weaken sameObservers);
      [exact sameObservers_keepsMuted|apply chatBuild_sameObservers]
  | |- respects keepsMuted (releaseRun _ _) =>
      apply (respects_weaken sameObservers);
      [exact sameObservers_keepsMuted|apply releaseRun_sameObservers]
  | |- respects keepsMuted (dbUpdateMessages _ _) =>
      apply (respects_weaken sameObservers);
      [exact sameObservers_keepsMuted|apply dbUpdateMessages_sameObservers]
  | |- respects keepsMuted (modify _) =>
      apply respects_modify; intros ?; apply sameObservers_keepsMuted;
      exact eq_refl
  | _ => respects_step
  end.

Lemma readLoop_keepsMuted subChatId ctl items ending :
  respects keepsMuted (readLoop subChatId ctl items ending).
Proof.
  induction items as [|[v|ms] rest IH]; simpl; repeat muted_step; exact IH.
Qed.

Lemma chatBody_keepsMuted X input ctl sc :
  respects keepsMuted (chatBody X input ctl sc).
Proof.
  unfold chatBody, chatTry, chatCatch.
  repeat muted_step; apply readLoop_keepsMuted.
Qed.

(** X4: a subscriber that was deactivated, or whose [next] throws, is
    sent nothing by the body of a turn, whatever the stream delivers;
    in particular the body emits nothing after the teardown function of
    its subscription ran. *)
Theorem muted_subscriber_receives_nothing (X : Externals)
    (input : ChatInput) (ctl : nat) (sc : TurnScript) (s : State)
    (o : Observer) :
  observers s !! ctl = Some o →
  (mute o →
   ∃ o', observers (chatBody X input ctl sc s).1 !! ctl = Some o'
         ∧ emitted o' = emitted o
         ∧ (isActive o = false → o' = o))
  ∧ observers (chatBody X input ctl sc (chatTeardown input ctl s).1).1 !! ctl
    = Some (observerDeactivate o).
Proof.
  intros Ho. split.
  - intros Hm.
    destruct (chatBody_keepsMuted X input ctl sc s ctl o Ho Hm)
      as (o' & Ho' & _ & He & Hi). eauto.
  - destruct (chatTeardown_run input ctl s)
      as (s1 & -> & _ & _ & Ho1 & _). simpl.
    assert (Hd : observers s1 !! ctl = Some (observerDeactivate o))
      by (rewrite Ho1, lookup_alter_eq, Ho; reflexivity).
    destruct (chatBody_keepsMuted X input ctl sc s1 ctl _ Hd)
      as (o' & Ho' & _ & _ & Hi); [by left|].
    rewrite Ho'. f_equal. by apply Hi.
Qed.

Lemma muted_subscriber_receives_nothing_witness :
  observers Scenario.startedA !! 1%nat = Some Scenario.freshObserver
  ∧ observers (chatBody Scenario.demoExternals Scenario.inputA 1
                 Scenario.authErrorScript
                 (chatTeardown Scenario.inputA 1 Scenario.startedA).1).1
      !! 1%nat
    = Some (observerDeactivate Scenario.freshObserver).
Proof.
  split; [reflexivity|].
  apply (muted_subscriber_receives_nothing Scenario.demoExternals
           Scenario.inputA 1 Scenario.authErrorScript Scenario.startedA
           Scenario.freshObserver).
  reflexivity.
Defined.

(** *** Invariants of every reachable state *)

Lemma initial_poolInv db : poolInv (server (initialWith db)).
Proof.
  split; [|split].
  - intros subChatId e H. simpl in H. by rewrite lookup_empty in H.
  - intros sub1 sub2 e1 e2 H. simpl in H. by rewrite lookup_empty in H.
  - intros pid. split.
    + intros H. by apply elem_of_empty in H.
    + intros (subChatId & e & H & _). simpl in H.
      by rewrite lookup_empty in H.
Qed.

Lemma stepOp_poolInv X op r :
  poolInv (server r) → poolInv (server (stepOp X op r)).
Proof.
  destruct (router_keepsPool X) as (Hsub & Hbody & Htd & Hcancel & Hcleanup).
  intros H. destruct op as [input throws|k sc|k|subChatId run|subChatId];
    simpl.
  - specialize (Hsub input throws (server r) H).
    by destruct (chatSubscribe input throws (server r)) as [s' [ctl|e]].
  - destruct (subscriptions r !! k) as [[input ctl]|]; [|done].
    apply Hbody, H.
  - destruct (subscriptions r !! k) as [[input ctl]|]; [|done].
    apply Htd, H.
  - apply Hcancel, H.
  - apply Hcleanup, H.
Qed.

Lemma runOps_snoc X ops op r :
  runOps X (ops ++ [op]) r = stepOp X op (runOps X ops r).
Proof. unfold runOps. by rewrite foldl_app. Qed.

(** X5: in every state the router reaches from its start, whatever the
    clients and the collaborators do, the provider pool is consistent:
    no provider serves two sub-chats, and the providers constructed and
    not yet cleaned up are exactly those stored in [providerSessions],
    so a sub-chat never has two live providers and no live provider is
    left outside the pool. *)
Theorem reachable_pool_consistent (X : Externals) (ops : list RouterOp)
    (db : gmap string (option value)) :
  poolInv (server (runOps X ops (initialWith db))).
Proof.
  induction ops as [|op ops IH] using rev_ind.
  - apply initial_poolInv.
  - rewrite runOps_snoc. by apply stepOp_poolInv.
Qed.

Lemma snd_functional {A B} (l : list (A * B)) x y c :
  NoDup l.*2 → (x, c) ∈ l → (y, c) ∈ l → x = y.
Proof.
  induction l as [|[a b] l IH]; simpl; intros Hnd Hx Hy.
  - by apply elem_of_nil in Hx.
  - apply NoDup_cons in Hnd as [Hb Hnd].
    apply elem_of_cons in Hx as [Hx|Hx]; apply elem_of_cons in Hy as [Hy|Hy].
    + congruence.
    + inversion Hx; subst. destruct Hb.
      by apply (list_elem_of_fmap_2 snd _ _ Hy).
    + inversion Hy; subst. destruct Hb.
      by apply (list_elem_of_fmap_2 snd _ _ Hx).
    + by apply IH.
Qed.

Lemma registered_subscription r input subChatId a :
  registryInv r →
  activeStreams (server r) !! subChatId = Some a →
  (input, controller a) ∈ subscriptions r →
  in_subChatId input = subChatId ∧ in_runId input = runId a.
Proof.
  intros (_ & _ & Hnd & Hreg) Ha Hin.
  destruct (Hreg _ _ Ha) as (_ & input' & Hin' & Hsub & Hrun).
  by rewrite (snd_functional _ _ _ _ Hnd Hin Hin').
Qed.

Lemma registered_distinct r sub1 sub2 a1 a2 :
  registryInv r →
  activeStreams (server r) !! sub1 = Some a1 →
  activeStreams (server r) !! sub2 = Some a2 →
  controller a1 = controller a2 → sub1 = sub2.
Proof.
  intros Hinv H1 H2 Hc.
  destruct Hinv as (? & ? & Hnd & Hreg).
  destruct (Hreg _ _ H1) as (_ & i1 & Hin1 & <- & _).
  destruct (Hreg _ _ H2) as (_ & i2 & Hin2 & <- & _).
  rewrite Hc in Hin1. by rewrite (snd_functional _ _ _ _ Hnd Hin1 Hin2).
Qed.

Lemma registered_bound r subChatId a :
  registryInv r →
  activeStreams (server r) !! subChatId = Some a →
  (controller a < nextId (server r))%nat.
Proof.
  intros (_ & Hsubs & _ & Hreg) Ha.
  destruct (Hreg _ _ Ha) as (_ & input & Hin & _). eauto.
Qed.

(** A step that aborts the controllers [aborted], registers nothing
    and drops every run it aborted keeps the invariant. *)
Lemma registryInv_update r s' (aborted : list nat) :
  registryInv r →
  (nextId (server r) ≤ nextId s')%nat →
  (∀ c, EvAbort c ∈ trace s' →
        EvAbort c ∈ trace (server r) ∨ c ∈ aborted) →
  (∀ c, c ∈ aborted → (c < nextId (server r))%nat) →
  (∀ subChatId a,
      activeStreams s' !! subChatId = Some a →
      activeStreams (server r) !! subChatId = Some a
      ∧ (controller a ∉ aborted)) →
  registryInv {| server := s'; subscriptions := subscriptions r |}.
Proof.
  intros Hinv Hn Htr Hab Hreg'.
  pose proof Hinv as (Hlt & Hsubs & Hnd & Hreg).
  split; [|split; [|split]]; simpl.
  - intros c [Hc|Hc]%Htr; [apply Hlt in Hc|apply Hab in Hc]; lia.
  - intros input ctl Hin. apply Hsubs in Hin. lia.
  - exact Hnd.
  - intros subChatId a Ha. destruct (Hreg' _ _ Ha) as [Ha0 Hna].
    destruct (Hreg _ _ Ha0) as (Hno & Hex). split; [|exact Hex].
    by intros [Hc|Hc]%Htr.
Qed.

Lemma teardownEvents_notAbort (s : State) subChatId e :
  e ∈ teardownEvents s subChatId → notAbort e.
Proof.
  unfold teardownEvents. destruct (providerSessions s !! subChatId).
  - intros [->|[->|H%elem_of_nil]%elem_of_cons]%elem_of_cons; done.
  - by intros H%elem_of_nil.
Qed.

Lemma compareAndDelete_Some subChatId run streams sub (a : ActiveCodexStream) :
  compareAndDelete subChatId run streams !! sub = Some a →
  streams !! sub = Some a ∧ ¬ (sub = subChatId ∧ runId a = run).
Proof.
  unfold compareAndDelete.
  destruct (streams !! subChatId) as [a0|] eqn:E0.
  - destruct (String.eqb_spec (runId a0) run) as [Hr|Hr].
    + intros [Hne Ha]%lookup_delete_Some. split; [done|]. by intros [-> _].
    + intros Ha. split; [done|]. intros [-> Hrun]. congruence.
  - intros Ha. split; [done|]. intros [-> _]. congruence.
Qed.

#[export] Instance growsIds_preorder : PreOrder growsIds.
Proof.
  split; [by intros s; unfold growsIds|].
  intros s1 s2 s3. unfold growsIds. lia.
Qed.

Ltac ids_step :=
  match goal with
  | |- respects growsIds (modify _) =>
      apply respects_modify; intros ?; apply Nat.le_refl
  | |- respects growsIds fresh =>
      intros ?; apply Nat.le_succ_diag_r
  | _ => respects_step
  end.

Lemma readLoop_growsIds subChatId ctl items ending :
  respects growsIds (readLoop subChatId ctl items ending).
Proof.
  induction items as [|[v|ms] rest IH]; simpl;
    unfold safeEmit, dbUpdateMessages; repeat ids_step; exact IH.
Qed.

Lemma chatBody_growsIds X input ctl sc :
  respects growsIds (chatBody X input ctl sc).
Proof.
  unfold chatBody, chatTry, chatCatch, chatBuild, acquireSession,
    appendUserTurn, getOrCreateProvider, createACPProvider, cleanupProvider,
    dbUpdateMessages, releaseRun, safeEmit, safeComplete.
  repeat ids_step; apply readLoop_growsIds.
Qed.

Lemma readLoop_notAbort subChatId ctl items ending :
  respects (emitsOnly notAbort) (readLoop subChatId ctl items ending).
Proof.
  induction items as [|[v|ms] rest IH]; simpl;
    unfold safeEmit, dbUpdateMessages; repeat respects_step; exact IH.
Qed.

Lemma chatBody_notAbort X input ctl sc :
  respects (emitsOnly notAbort) (chatBody X input ctl sc).
Proof.
  unfold chatBody, chatTry, chatCatch, chatBuild, acquireSession,
    appendUserTurn, getOrCreateProvider, createACPProvider, cleanupProvider,
    dbUpdateMessages, releaseRun, safeEmit, safeComplete.
  repeat respects_step; apply readLoop_notAbort.
Qed.

Lemma initial_registryInv db : registryInv (initialWith db).
Proof.
  split; [|split; [|split]]; simpl.
  - by intros c H%elem_of_nil.
  - by intros input ctl H%elem_of_nil.
  - apply NoDup_nil_2.
  - intros subChatId a H. by rewrite lookup_empty in H.
Qed.

Lemma stepOp_registryInv X op r :
  registryInv r → registryInv (stepOp X op r).
Proof.
  intros Hinv. pose proof Hinv as (Hlt & Hsubs & Hnd & Hreg).
  destruct op as [input throws|k sc|k|subChatId run|subChatId]; simpl.
  - destruct (chatSubscribe_run input throws (server r))
      as (s' & -> & Ha & _ & Hn & Ht).
    assert (Hold : ∀ c, EvAbort c ∈ trace s' → (c < nextId (server r))%nat).
    { intros c. rewrite Ht.
      intros [Hc|[Hc|Hc]%elem_of_app]%elem_of_app.
      - by apply Hlt.
      - destruct (activeStreams (server r) !! in_subChatId input)
          as [a|] eqn:Ea; [|by apply elem_of_nil in Hc].
        apply elem_of_cons in Hc as [Hc|Hc].
        + inversion Hc; subst. by eapply registered_bound.
        + by apply teardownEvents_notAbort in Hc.
      - by apply list_elem_of_singleton in Hc. }
    split; [|split; [|split]]; simpl.
    + intros c Hc%Hold. lia.
    + intros input' ctl [Hin|Hin%list_elem_of_singleton]%elem_of_app.
      * apply Hsubs in Hin. lia.
      * inversion Hin; subst. lia.
    + rewrite fmap_app. apply NoDup_app. split; [done|]. split.
      * intros c (y & -> & Hy)%list_elem_of_fmap Hc.
        apply list_elem_of_singleton in Hc. destruct y as [i c'].
        apply Hsubs in Hy. simpl in Hc. lia.
      * apply NoDup_singleton.
    + intros subChatId a. rewrite Ha.
      intros [[<- <-]|[Hne Hlook]]%lookup_insert_Some; simpl.
      * split; [intros Hc%Hold; lia|].
        exists input. split; [|done].
        apply elem_of_app. right. by apply list_elem_of_singleton.
      * destruct (Hreg _ _ Hlook) as (Hno & input' & Hin & Hsub & Hrun).
        split.
        -- rewrite Ht.
           intros [Hc|[Hc|Hc]%elem_of_app]%elem_of_app; [done| |].
           ++ destruct (activeStreams (server r) !! in_subChatId input)
                as [a0|] eqn:Ea; [|by apply elem_of_nil in Hc].
              apply elem_of_cons in Hc as [Hc|Hc].
              ** inversion Hc as [Hcc]. apply Hne. symmetry.
                 by eapply (registered_distinct r _ _ a a0).
              ** by apply teardownEvents_notAbort in Hc.
           ++ by apply list_elem_of_singleton in Hc.
        -- exists input'. split; [|done]. apply elem_of_app. by left.
  - destruct (subscriptions r !! k) as [[input ctl]|] eqn:Ek;
      [|by destruct r].
    apply (registryInv_update r _ []); [done| | | |].
    + apply chatBody_growsIds.
    + intros c Hc.
      destruct (chatBody_notAbort X input ctl sc (server r))
        as (evs & Ht & Hq).
      rewrite Ht in Hc. apply elem_of_app in Hc as [Hc|Hc]; [by left|].
      by apply Hq in Hc.
    + by intros c H%elem_of_nil.
    + intros subChatId a. rewrite chatBody_streams.
      intros [Hl _]%compareAndDelete_Some. split; [done|].
      by intros H%elem_of_nil.
  - destruct (subscriptions r !! k) as [[input ctl]|] eqn:Ek;
      [|by destruct r].
    apply list_elem_of_lookup_2 in Ek.
    destruct (chatTeardown_run input ctl (server r))
      as (s' & -> & Hn & _ & _ & Ha & evs & Ht & Hq). simpl.
    apply (registryInv_update r _ [ctl]); [done| | | |].
    + lia.
    + intros c. rewrite Ht.
      intros [Hc|[Hc|Hc]%elem_of_cons]%elem_of_app; [by left| |].
      * inversion Hc; subst. right. by apply list_elem_of_singleton.
      * by apply Hq in Hc.
    + intros c ->%list_elem_of_singleton. eauto.
    + intros subChatId a. rewrite Ha.
      intros [Hl Hkeep]%compareAndDelete_Some. split; [done|].
      intros Hc%list_elem_of_singleton. apply Hkeep.
      rewrite <- Hc in Ek.
      destruct (registered_subscription r input subChatId a Hinv Hl Ek).
      by split.
  - destruct (cancel_run subChatId run (server r))
      as (s' & res & -> & Hn & _ & Hcase). simpl.
    destruct (activeStreams (server r) !! subChatId) as [a|] eqn:Ea.
    + destruct (String.eqb (runId a) run).
      * destruct Hcase as (_ & Ha' & _ & Ht).
        apply (registryInv_update r _ [controller a]); [done| | | |].
        -- lia.
        -- intros c. rewrite Ht.
           intros [Hc|[Hc|[Hc|Hc]%elem_of_app]%elem_of_cons]%elem_of_app.
           ++ by left.
           ++ inversion Hc; subst. right. by apply list_elem_of_singleton.
           ++ by apply teardownEvents_notAbort in Hc.
           ++ by apply list_elem_of_singleton in Hc.
        -- intros c ->%list_elem_of_singleton.
           by eapply registered_bound.
        -- intros sub a'. rewrite Ha'.
           intros [Hne Hl]%lookup_delete_Some. split; [done|].
           intros Hc%list_elem_of_singleton. apply Hne.
           by eapply (registered_distinct r _ _ a a').
      * destruct Hcase as [_ ->]. by destruct r.
    + destruct Hcase as [_ ->]. by destruct r.
  - destruct (cleanup_run subChatId (server r))
      as (s' & -> & Hn & _ & _ & Ha' & _ & Ht). simpl.
    apply (registryInv_update r _
             (match activeStreams (server r) !! subChatId with
              | Some a => [controller a] | None => [] end));
      [done| | | |].
    + lia.
    + intros c. rewrite Ht.
      intros [Hc|[Hc|Hc]%elem_of_app]%elem_of_app; [by left| |].
      * by apply teardownEvents_notAbort in Hc.
      * destruct (activeStreams (server r) !! subChatId) as [a|];
          [|by apply elem_of_nil in Hc].
        apply elem_of_cons in Hc as [Hc|Hc%list_elem_of_singleton];
          [|done].
        inversion Hc; subst. right. by apply list_elem_of_singleton.
    + intros c Hc.
      destruct (activeStreams (server r) !! subChatId) as [a|] eqn:Ea;
        [|by apply elem_of_nil in Hc].
      apply list_elem_of_singleton in Hc as ->.
      by eapply registered_bound.
    + intros sub a'. rewrite Ha'.
      intros [Hne Hl]%lookup_delete_Some. split; [done|].
      destruct (activeStreams (server r) !! subChatId) as [a|] eqn:Ea;
        [|by intros H%elem_of_nil].
      intros Hc%list_elem_of_singleton. apply Hne.
      by eapply (registered_distinct r _ _ a a').
Qed.

(** X6: in every state the router reaches from its start, the run
    registry holds no run whose [AbortController] was aborted: every
    [abort()] issued by [chat] (supersede, teardown), [cancel] or
    [cleanup] comes with the removal or the replacement of the entry it
    aborts, and each entry is the run of a subscription made with that
    sub-chat id and run id. *)
Theorem reachable_registry_has_no_aborted_run (X : Externals)
    (ops : list RouterOp) (db : gmap string (option value)) :
  registryInv (runOps X ops (initialWith db)).
Proof.
  induction ops as [|op ops IH] using rev_ind.
  - apply initial_registryInv.
  - rewrite runOps_snoc. by apply stepOp_registryInv.
Qed.

End RouterRunProperties.

(* ===================================================================== *)
(** ** Properties of the chat transport                                   *)
(* ===================================================================== *)

Module ChatTransportProperties.
Import JsString Js Codex Transport ChatTransport RouterRuns.
Import RegistryProperties TurnProperties RouterRunProperties.

(** *** The stream handed to the caller *)







(** *** Stop: cancel before unsubscribe *)

(** X8: the abort listener of [sendMessages] calls [cancel] and
    unsubscribes only afterwards.  In that order the router tears the
    provider session of the run down; with the two the other way
    round, the teardown releases the run first, [cancel] finds no run
    and the provider session stays in the pool. *)
Theorem cancel_before_unsubscribe (input : ChatInput) (ctl : nat)
    (e : CodexProviderSession) (s : State) :
  activeStreams s !! in_subChatId input
  = Some {| runId := in_runId input; controller := ctl |} →
  providerSessions s !! in_subChatId input = Some e →
  let sub := in_subChatId input in
  let cancelled := cancel sub (in_runId input) s in
  let after := (chatTeardown input ctl cancelled.1).1 in
  let torn := (chatTeardown input ctl s).1 in
  cancelled.2 = Ok {| cancelled := true; ignoredStale := false |}
  ∧ providerSessions after !! sub = None
  ∧ activeStreams after !! sub = None
  ∧ EvProviderCleanup (provider_id (provider e)) ∈ trace after
  ∧ cancel sub (in_runId input) torn
    = (torn, Ok {| cancelled := false; ignoredStale := false |})
  ∧ providerSessions torn !! sub = Some e.
Proof.
  intros Ha Hp. cbv zeta.
  destruct (cancel_run (in_subChatId input) (in_runId input) s)
    as (s1 & res & Hrun & _ & _ & Hcase).
  rewrite Ha in Hcase. simpl in Hcase. rewrite String.eqb_refl in Hcase.
  destruct Hcase as (-> & Ha1 & Hp1 & Ht1). rewrite Hrun. simpl.
  destruct (chatTeardown_run input ctl s1)
    as (s2 & -> & _ & Hp2 & _ & Ha2 & evs & Ht2 & _). simpl.
  destruct (chatTeardown_run input ctl s)
    as (s3 & -> & _ & Hp3 & _ & Ha3 & evs3 & Ht3 & Hq3). simpl.
  split; [done|]. split; [by rewrite Hp2, Hp1, lookup_delete_eq|].
  split.
  { rewrite Ha2, Ha1. unfold compareAndDelete.
    by rewrite lookup_delete_eq, lookup_delete_eq. }
  split.
  { rewrite Ht2, Ht1. unfold teardownEvents. rewrite Hp.
    apply elem_of_app. left. apply elem_of_app. right.
    apply elem_of_cons. right. apply elem_of_cons. by left. }
  assert (Hnone : activeStreams s3 !! in_subChatId input = None).
  { rewrite Ha3. unfold compareAndDelete. rewrite Ha. simpl.
    rewrite String.eqb_refl. apply lookup_delete_eq. }
  split.
  { destruct (cancel_run (in_subChatId input) (in_runId input) s3)
      as (s4 & res & -> & _ & _ & Hcase).
    rewrite Hnone in Hcase. by destruct Hcase as [-> ->]. }
  by rewrite Hp3.
Qed.

Lemma cancel_before_unsubscribe_witness :
  providerSessions
    (chatTeardown Scenario.inputA 0
       (cancel "sc1" "run-A" Scenario.stateWithA).1).1 !! "sc1" = None
  ∧ providerSessions (chatTeardown Scenario.inputA 0 Scenario.stateWithA).1
      !! "sc1" = Some Scenario.sessionA.
Proof.
  destruct (cancel_before_unsubscribe Scenario.inputA 0 Scenario.sessionA
              Scenario.stateWithA eq_refl eq_refl)
    as (_ & Hafter & _ & _ & _ & Htorn).
  split; [exact Hafter|exact Htorn].
Defined.

(** *** Message parts, there and back *)

Lemma imageStep_images (acc : list value) (images : list ImageAttachment) :
  foldl imageStep (Ok acc)
    (map jsonItem
       (omap (λ image,
          if (negb (nonempty (base64Data image))
              || negb (nonempty (mediaType image)))%bool
          then None
          else Some (VObj
            [("type", VStr "data-image");
             ("data", VObj
                [("base64Data", VStr (base64Data image));
                 ("mediaType", VStr (mediaType image));
                 ("filename",
                  from_option VStr VUndefined (filename image))])]))
          images))
  = Ok (acc ++ (imageValue <$> filter (λ image, usableImage image) images)).
Proof.
  revert acc. induction images as [|image rest IH]; intros acc.
  - simpl. by rewrite app_nil_r.
  - assert (Hcond : (negb (nonempty (base64Data image))
                     || negb (nonempty (mediaType image)))%bool
                    = negb (usableImage image)).
    { unfold usableImage.
      by destruct (nonempty (base64Data image)),
                  (nonempty (mediaType image)). }
    cbn [omap list_omap]. rewrite Hcond.
    destruct (usableImage image) eqn:Eu; cbn [negb].
    + rewrite filter_cons_True by by rewrite Eu.
      cbn [map foldl].
      rewrite fmap_cons, (cons_middle _ acc), app_assoc. rewrite <- IH.
      f_equal. unfold usableImage in Eu.
      apply andb_true_iff in Eu as [Eb Em].
      unfold imageStep, imageValue.
      destruct (filename image); simpl; by rewrite Eb, Em.
    + rewrite filter_cons_False by (rewrite Eu; exact id). apply IH.
Qed.

Lemma textStep_images acc (images : list ImageAttachment) :
  foldl textStep (Ok acc)
    (map jsonItem
       (omap (λ image,
          if (negb (nonempty (base64Data image))
              || negb (nonempty (mediaType image)))%bool
          then None
          else Some (VObj
            [("type", VStr "data-image");
             ("data", VObj
                [("base64Data", VStr (base64Data image));
                 ("mediaType", VStr (mediaType image));
                 ("filename",
                  from_option VStr VUndefined (filename image))])]))
          images))
  = Ok acc.
Proof.
  induction images as [|image rest IH]; [reflexivity|].
  cbn [omap list_omap].
  destruct (negb (nonempty (base64Data image))
            || negb (nonempty (mediaType image)))%bool; [exact IH|].
  cbn [map foldl].
  replace (textStep (Ok acc) (jsonItem _)) with (Ok (A:=list value * list string) acc);
    [exact IH|].
  destruct acc as [textParts fileContents].
  by destruct (filename image).
Qed.

(** X9: the user message the router stores for a turn reads back as
    the turn it was built from: the transport's [extractText] returns
    the prompt (the same text the router's duplicate check extracts)
    and [extractImages] the attachments that have both data and media
    type, in order; neither throws. *)
Theorem stored_user_message_reads_back (uuid : string) (input : ChatInput)
    (metadataModel : string) :
  let stored := jsonItem (newUserMessage uuid input metadataModel) in
  extractText stored = Ok (in_prompt input)
  ∧ extractText stored = Ok (extractPromptFromStoredMessage stored)
  ∧ extractImages stored
    = Ok (imageValue
            <$> filter (λ image, usableImage image) (in_images input)).
Proof.
  cbv zeta. rewrite extractPrompt_newUserMessage.
  assert (Hshape : jsonItem (newUserMessage uuid input metadataModel)
    = VObj [("id", VStr uuid); ("role", VStr "user");
            ("parts",
             VArr (VObj [("type", VStr "text");
                         ("text", VStr (in_prompt input))]
                   :: map jsonItem
                        (omap (λ image,
                           if (negb (nonempty (base64Data image))
                               || negb (nonempty (mediaType image)))%bool
                           then None
                           else Some (VObj
                             [("type", VStr "data-image");
                              ("data", VObj
                                 [("base64Data", VStr (base64Data image));
                                  ("mediaType", VStr (mediaType image));
                                  ("filename",
                                   from_option VStr VUndefined
                                     (filename image))])]))
                           (in_images input))));
            ("metadata", VObj [("model", VStr metadataModel)])])
    by reflexivity.
  rewrite Hshape. clear Hshape.
  assert (Htext : ∀ parts, extractText
            (VObj [("id", VStr uuid); ("role", VStr "user");
                   ("parts",
                    VArr (VObj [("type", VStr "text");
                                ("text", VStr (in_prompt input))] :: parts));
                   ("metadata", VObj [("model", VStr metadataModel)])])
          = match foldl textStep
                    (Ok (if nonempty (in_prompt input)
                         then [VStr (in_prompt input)] else [], [])) parts with
            | Throw e => Throw e
            | Ok (textParts, fileContents) =>
                Ok (join nl (map toString textParts) +:+ join "" fileContents)
            end).
  { intros parts. unfold extractText.
    cbn [truthy negb get assoc String.eqb Ascii.eqb Bool.eqb iterate foldl].
    unfold textStep at 2.
    cbn [get assoc String.eqb Ascii.eqb Bool.eqb isStr truthy andb].
    by destruct (nonempty (in_prompt input)). }
  split; [|split].
  - rewrite Htext, textStep_images.
    destruct (in_prompt input) as [|a p]; [reflexivity|].
    cbn [nonempty map toString join]. f_equal. apply append_empty_r.
  - rewrite Htext, textStep_images.
    destruct (in_prompt input) as [|a p]; [reflexivity|].
    cbn [nonempty map toString join]. f_equal. apply append_empty_r.
  - unfold extractImages.
    cbn [truthy negb get assoc String.eqb Ascii.eqb Bool.eqb iterate foldl].
    unfold imageStep at 2.
    cbn [get assoc String.eqb Ascii.eqb Bool.eqb isStr truthy andb].
    apply (imageStep_images []).
Qed.

(** *** Model choice *)

(** X10: [getSelectedCodexModel] returns either the default model or
    [id/level] for an entry of the model table and a non-empty thinking
    level that entry lists; when the stored model id names an entry
    that lists the stored level, that pair is the answer. *)
Theorem selected_model_is_listed (CODEX_MODELS : list CodexModel)
    (selectedModelId selectedThinking : string) :
  let answer :=
    getSelectedCodexModel CODEX_MODELS selectedModelId selectedThinking in
  (answer = DEFAULT_CODEX_MODEL
   ∨ ∃ model level,
       model ∈ CODEX_MODELS ∧ level ∈ thinkings model ∧ level ≠ ""
       ∧ answer = model_id model +:+ "/" +:+ level)
  ∧ ∀ model,
      findModel CODEX_MODELS selectedModelId = Some model →
      selectedThinking ∈ thinkings model → selectedThinking ≠ "" →
      model_id model = selectedModelId
      ∧ answer = selectedModelId +:+ "/" +:+ selectedThinking.
Proof.
  cbv zeta.
  assert (Hfind : ∀ id model, findModel CODEX_MODELS id = Some model →
                              model ∈ CODEX_MODELS ∧ model_id model = id).
  { intros id model H. unfold findModel in H.
    apply find_some in H as [Hin Heq].
    split; [by apply list_elem_of_In|by apply String.eqb_eq]. }
  assert (Hex : ∀ t l, existsb (String.eqb t) l = true ↔ t ∈ l).
  { intros t l. rewrite existsb_exists. split.
    - intros (x & Hin & ->%String.eqb_eq). by apply list_elem_of_In.
    - intros Hin. exists t. split; [by apply list_elem_of_In|].
      apply String.eqb_refl. }
  assert (Hne : ∀ t : string, nonempty t = true ↔ t ≠ "")
    by (intros [|a t]; simpl; split; done).
  split.
  - unfold getSelectedCodexModel.
    set (chosen := match findModel CODEX_MODELS selectedModelId with
                   | Some model => Some model
                   | None => _ end).
    assert (Hchosen : ∀ model, chosen = Some model → model ∈ CODEX_MODELS).
    { intros model. unfold chosen.
      destruct (findModel CODEX_MODELS selectedModelId) as [m|] eqn:E1.
      - intros [= <-]. by apply (Hfind _ _ E1).
      - destruct (findModel CODEX_MODELS "gpt-5.3-codex") as [m|] eqn:E2.
        + intros [= <-]. by apply (Hfind _ _ E2).
        + destruct CODEX_MODELS as [|m rest]; [done|].
          intros [= <-]. apply elem_of_cons. by left. }
    destruct chosen as [model|]; [|by left].
    specialize (Hchosen model eq_refl).
    set (level := if existsb _ _ then _ else _).
    assert (Hlevel : ∀ t, level = Some t → t ∈ thinkings model).
    { intros t. unfold level.
      destruct (existsb (String.eqb selectedThinking) (thinkings model))
        eqn:E1; [intros [= <-]; by apply Hex|].
      destruct (existsb (String.eqb "high") (thinkings model))
        eqn:E2; [intros [= <-]; by apply Hex|].
      destruct (thinkings model) as [|t0 rest]; [done|].
      intros [= <-]. apply elem_of_cons. by left. }
    destruct level as [t|]; [|by left].
    destruct (nonempty t) eqn:Et; simpl; [|by left].
    right. exists model, t. split; [done|]. split; [by apply Hlevel|].
    split; [by apply Hne|done].
  - intros model Hmodel Hin Hnonempty.
    destruct (Hfind _ _ Hmodel) as [_ Hid]. split; [done|].
    unfold getSelectedCodexModel. rewrite Hmodel.
    rewrite (proj2 (Hex _ _) Hin).
    rewrite (proj2 (Hne _) Hnonempty). simpl. by rewrite Hid.
Qed.

Lemma selected_model_is_listed_witness :
  getSelectedCodexModel
    [{| model_id := "gpt-5.3-codex"; thinkings := ["low"; "high"] |}]
    "gpt-5.3-codex" "low"
  = "gpt-5.3-codex/low".
Proof.
  apply (proj2 (selected_model_is_listed
                  [{| model_id := "gpt-5.3-codex";
                      thinkings := ["low"; "high"] |}]
                  "gpt-5.3-codex" "low")
           {| model_id := "gpt-5.3-codex"; thinkings := ["low"; "high"] |});
    [reflexivity| |discriminate].
  apply elem_of_cons. by left.
Defined.

End ChatTransportProperties.

(* ===================================================================== *)
(** ** Properties of the login flow                                       *)
(* ===================================================================== *)

Module LoginFlowProperties.
Import JsString Js Codex CodexLogin LoginFlow.







Lemma isActiveLogin_new sessionId :
  isActiveLogin (newLoginSession sessionId) = true.
Proof. reflexivity. Qed.





End LoginFlowProperties.

(* ===================================================================== *)
(** ** Properties of the string primitives                                *)
(* ===================================================================== *)

Module StringProperties.
Import JsString.

Lemma nonempty_spec (s : string) : nonempty s = true ↔ s ≠ "".
Proof. destruct s; simpl; split; done. Qed.

Lemma nonempty_false (s : string) : nonempty s = false ↔ s = "".
Proof. destruct s; simpl; split; done. Qed.

Lemma trimEnd_idemp (s : string) : trimEnd (trimEnd s) = trimEnd s.
Proof.
  induction s as [|a s IH]; [done|]. cbn [trimEnd].
  destruct (Ascii.is_space a && negb (nonempty (trimEnd s)))%bool eqn:E;
    [done|].
  cbn [trimEnd]. by rewrite IH, E.
Qed.

Lemma trimStart_head (s : string) :
  match trimStart s with
  | EmptyString => True
  | String a _ => Ascii.is_space a = false
  end.
Proof.
  induction s as [|a s IH]; [done|]. cbn [trimStart].
  destruct (Ascii.is_space a) eqn:E; [exact IH|]. exact E.
Qed.

Lemma trimStart_fixed (s : string) :
  match s with
  | EmptyString => True
  | String a _ => Ascii.is_space a = false
  end → trimStart s = s.
Proof. destruct s as [|a s]; [done|]. cbn [trimStart]. by intros ->. Qed.

Lemma trimEnd_head (s : string) :
  match s with
  | EmptyString => True
  | String a _ => Ascii.is_space a = false
  end →
  match trimEnd s with
  | EmptyString => s = ""
  | String a _ => Ascii.is_space a = false
  end.
Proof.
  destruct s as [|a s]; [done|]. cbn [trimEnd]. intros Ha.
  by rewrite Ha.
Qed.

Lemma trimStart_trim (s : string) : trimStart (trim s) = trim s.
Proof.
  apply trimStart_fixed. unfold trim.
  pose proof (trimEnd_head (trimStart s) (trimStart_head s)) as H.
  by destruct (trimEnd (trimStart s)).
Qed.

Lemma trim_idemp (s : string) : trim (trim s) = trim s.
Proof.
  unfold trim at 1. rewrite trimStart_trim. unfold trim.
  apply trimEnd_idemp.
Qed.

Lemma lower_ascii_idemp (a : ascii) :
  lower_ascii (lower_ascii a) = lower_ascii a.
Proof. by destruct a as [[] [] [] [] [] [] [] []]. Qed.

Lemma is_space_lower (a : ascii) :
  Ascii.is_space (lower_ascii a) = Ascii.is_space a.
Proof. by destruct a as [[] [] [] [] [] [] [] []]. Qed.

Lemma toLowerCase_idemp (s : string) :
  toLowerCase (toLowerCase s) = toLowerCase s.
Proof.
  induction s as [|a s IH]; [done|]. cbn [toLowerCase].
  by rewrite lower_ascii_idemp, IH.
Qed.

Lemma nonempty_toLowerCase (s : string) :
  nonempty (toLowerCase s) = nonempty s.
Proof. by destruct s. Qed.

Lemma trimStart_toLowerCase (s : string) :
  trimStart (toLowerCase s) = toLowerCase (trimStart s).
Proof.
  induction s as [|a s IH]; [done|]. cbn [toLowerCase trimStart].
  rewrite is_space_lower. by destruct (Ascii.is_space a).
Qed.

Lemma trimEnd_toLowerCase (s : string) :
  trimEnd (toLowerCase s) = toLowerCase (trimEnd s).
Proof.
  induction s as [|a s IH]; [done|]. cbn [toLowerCase trimEnd].
  rewrite is_space_lower, IH, nonempty_toLowerCase.
  by destruct (Ascii.is_space a && negb (nonempty (trimEnd s)))%bool.
Qed.

Lemma trim_toLowerCase (s : string) :
  trim (toLowerCase s) = toLowerCase (trim s).
Proof.
  unfold trim. by rewrite trimStart_toLowerCase, trimEnd_toLowerCase.
Qed.

End StringProperties.

(* ===================================================================== *)
(** ** Properties of the tool-server helpers                              *)
(* ===================================================================== *)

Module CodexMcpProperties.
Import JsString Js Codex CodexMcp StringProperties.

(** *** Authentication state *)

(** X12: the three flags [getCodexMcpAuthState] reports are consistent
    (a server that needs authentication supports it and is not
    authenticated; an authenticated one supports it), [needsAuth] is
    reported exactly for the status [not_logged_in], and the answer
    depends on the status only up to letter case and surrounding
    white space. *)
Theorem mcp_auth_state_consistent (authStatus : option string) :
  let st := getCodexMcpAuthState authStatus in
  let normalized := toLowerCase (trim (default "" authStatus)) in
  (needsAuth st = true → supportsAuth st = true ∧ authenticated st = false)
  ∧ (authenticated st = true → supportsAuth st = true)
  ∧ (needsAuth st = true ↔ normalized = "not_logged_in")
  ∧ (supportsAuth st = false
     ↔ normalized = "" ∨ normalized = "none" ∨ normalized = "unsupported")
  ∧ getCodexMcpAuthState (Some normalized) = st.
Proof.
  cbv zeta.
  assert (Hnorm : toLowerCase
                    (trim (default "" (Some (toLowerCase
                                               (trim (default "" authStatus))))))
                  = toLowerCase (trim (default "" authStatus))).
  { simpl. by rewrite trim_toLowerCase, trim_idemp, toLowerCase_idemp. }
  split; [|split; [|split; [|split]]].
  5: { unfold getCodexMcpAuthState. by rewrite Hnorm. }
  all: unfold getCodexMcpAuthState;
    set (n := toLowerCase (trim (default "" authStatus)));
    destruct (String.eqb_spec n "") as [->|H1]; simpl; [intuition; done|];
    destruct (String.eqb_spec n "none") as [->|H2]; simpl;
      [intuition; done|];
    destruct (String.eqb_spec n "unsupported") as [->|H3]; simpl;
      [intuition; done|];
    destruct (String.eqb_spec n "not_logged_in") as [->|H4]; simpl;
      [intuition; done|];
    destruct (String.eqb_spec n "bearer_token") as [->|H5]; simpl;
      [intuition; done|];
    destruct (String.eqb_spec n "o_auth") as [->|H6]; simpl;
      intuition; done.
Qed.

Lemma mcp_auth_state_consistent_witness :
  needsAuth (getCodexMcpAuthState (Some "  Not_Logged_In ")) = true
  ∧ supportsAuth (getCodexMcpAuthState (Some "  Not_Logged_In ")) = true.
Proof.
  destruct (mcp_auth_state_consistent (Some "  Not_Logged_In "))
    as (Himp & _ & Hiff & _).
  assert (H : needsAuth (getCodexMcpAuthState (Some "  Not_Logged_In "))
              = true) by (apply Hiff; reflexivity).
  split; [exact H|]. exact (proj1 (Himp H)).
Defined.

(** *** Tool lists *)

Lemma mapSet_elem {A} k (v : A) m kv :
  kv ∈ mapSet k v m → kv = (k, v) ∨ kv ∈ m.
Proof.
  induction m as [|[k' v'] m IH]; simpl.
  - intros ->%list_elem_of_singleton. by left.
  - destruct (String.eqb k k').
    + intros [->|H]%elem_of_cons; [by left|].
      right. apply elem_of_cons. by right.
    + intros [->|H]%elem_of_cons.
      * right. apply elem_of_cons. by left.
      * destruct (IH H) as [->|H']; [by left|].
        right. apply elem_of_cons. by right.
Qed.

Lemma mapSet_keys {A} k (v : A) m :
  (mapSet k v m).*1 = if bool_decide (k ∈ m.*1) then m.*1 else m.*1 ++ [k].
Proof.
  induction m as [|[k' v'] m IH]; [done|]. cbn [mapSet].
  destruct (String.eqb_spec k k') as [->|Hne]; rewrite !fmap_cons; cbn [fst].
  - rewrite bool_decide_eq_true_2; [done|]. apply elem_of_cons. by left.
  - rewrite IH. destruct (bool_decide (k ∈ m.*1)) eqn:E.
    + apply bool_decide_eq_true in E.
      rewrite bool_decide_eq_true_2; [done|]. apply elem_of_cons. by right.
    + apply bool_decide_eq_false in E.
      rewrite bool_decide_eq_false_2; [done|].
      intros [?|?]%elem_of_cons; done.
Qed.

Lemma mapSet_fresh {A} k (v : A) m :
  k ∉ m.*1 → mapSet k v m = m ++ [(k, v)].
Proof.
  induction m as [|[k' v'] m IH]; simpl; [done|]. intros Hk.
  destruct (String.eqb_spec k k') as [->|Hne].
  - destruct Hk. apply elem_of_cons. by left.
  - rewrite IH; [done|]. intros H. apply Hk. apply elem_of_cons. by right.
Qed.

Lemma toolStep_cases (m : list (string * value)) (tool : value) :
  toolStep m tool = m
  ∨ ∃ raw, get "name" tool = VStr raw ∧ trim raw ≠ ""
           ∧ toolStep m tool
             = mapSet (trim raw) (toolEntry (trim raw) tool) m.
Proof.
  unfold toolStep. destruct (get "name" tool) as [| | | |raw| | |]; auto.
  destruct (nonempty (trim raw)) eqn:E; [|by left].
  right. exists raw. split; [done|]. split; [|done].
  by apply nonempty_spec.
Qed.

Lemma toolStep_wf (m : list (string * value)) (tool : value) :
  NoDup m.*1 → Forall canonical m →
  NoDup (toolStep m tool).*1 ∧ Forall canonical (toolStep m tool).
Proof.
  intros Hnd Hcan.
  destruct (toolStep_cases m tool) as [->|(raw & Hname & Hne & ->)];
    [done|].
  split.
  - rewrite mapSet_keys. destruct (bool_decide _) eqn:E; [done|].
    apply bool_decide_eq_false in E.
    apply NoDup_app. split; [done|]. split; [|apply NoDup_singleton].
    by intros k Hk ->%list_elem_of_singleton.
  - apply Forall_forall. intros kv [->|Hin]%mapSet_elem.
    + split; [done|]. split; [apply trim_idemp|]. by exists tool.
    + by apply (proj1 (Forall_forall _ _) Hcan).
Qed.

Lemma foldl_toolStep_wf (tools : list value) (m : list (string * value)) :
  NoDup m.*1 → Forall canonical m →
  NoDup (foldl toolStep m tools).*1
  ∧ Forall canonical (foldl toolStep m tools).
Proof.
  revert m. induction tools as [|tool tools IH]; intros m Hnd Hcan; [done|].
  simpl. destruct (toolStep_wf m tool Hnd Hcan). by apply IH.
Qed.

Lemma foldl_toolStep_keys (tools : list value) (m : list (string * value))
    (n : string) :
  n ∈ (foldl toolStep m tools).*1
  ↔ n ∈ m.*1
    ∨ (n ≠ "" ∧ ∃ tool raw, tool ∈ tools ∧ get "name" tool = VStr raw
                            ∧ trim raw = n).
Proof.
  revert m. induction tools as [|tool tools IH]; intros m; simpl.
  - split; [by left|]. intros [H|(_ & t & raw & H%elem_of_nil & _)]; done.
  - rewrite IH. split.
    + intros [H|(Hn & t & raw & Hin & Hname & Htrim)].
      * destruct (toolStep_cases m tool) as [Heq|(raw & Hname & Hne & Heq)];
          rewrite Heq in H; [by left|].
        rewrite mapSet_keys in H.
        destruct (bool_decide _); [by left|].
        apply elem_of_app in H as [H|H%list_elem_of_singleton]; [by left|].
        subst n. right. split; [done|]. exists tool, raw.
        split; [apply elem_of_cons; by left|done].
      * right. split; [done|]. exists t, raw.
        split; [apply elem_of_cons; by right|done].
    + intros [H|(Hn & t & raw & Hin & Hname & Htrim)];
        [|apply elem_of_cons in Hin as [->|Hin]].
      * left.
        destruct (toolStep_cases m tool) as [->|(raw & Hname & Hne & ->)];
          [done|].
        rewrite mapSet_keys. destruct (bool_decide _); [done|].
        apply elem_of_app. by left.
      * left. unfold toolStep. rewrite Hname, Htrim.
        rewrite (proj2 (nonempty_spec n) Hn), mapSet_keys.
        destruct (bool_decide _) eqn:E;
          [by apply bool_decide_eq_true in E|].
        apply elem_of_app. right. by apply list_elem_of_singleton.
      * right. split; [done|]. by exists t, raw.
Qed.

Lemma canonical_name (kv : string * value) :
  canonical kv → toolName kv.2 = Some kv.1.
Proof. intros (_ & _ & tool & ->). reflexivity. Qed.

Lemma toolEntry_description k tool :
  get "description" (toolEntry k tool)
  = if truthy (get "description" tool) then get "description" tool
    else VUndefined.
Proof. unfold toolEntry. by destruct (truthy (get "description" tool)). Qed.

Lemma toolEntry_idemp k tool : toolEntry k (toolEntry k tool) = toolEntry k tool.
Proof.
  unfold toolEntry at 1. rewrite toolEntry_description. unfold toolEntry.
  destruct (truthy (get "description" tool)) eqn:E; [by rewrite E|done].
Qed.

Lemma canonical_step (acc : list (string * value)) (kv : string * value) :
  canonical kv → toolStep acc kv.2 = mapSet kv.1 kv.2 acc.
Proof.
  destruct kv as [k v]. intros (Hne & Htrim & tool & Hv). simpl in *.
  subst v. unfold toolStep.
  change (get "name" (toolEntry k tool)) with (VStr k). cbv iota beta.
  by rewrite Htrim, (proj2 (nonempty_spec k) Hne), toolEntry_idemp.
Qed.

Lemma refold (m acc : list (string * value)) :
  NoDup (acc.*1 ++ m.*1) → Forall canonical m →
  foldl toolStep acc m.*2 = acc ++ m.
Proof.
  revert acc. induction m as [|kv m IH]; intros acc Hnd Hcan.
  - simpl. by rewrite app_nil_r.
  - apply Forall_cons in Hcan as [Hkv Hcan].
    rewrite fmap_cons. cbn [foldl].
    rewrite (canonical_step acc kv Hkv).
    rewrite fmap_cons in Hnd.
    rewrite mapSet_fresh.
    + destruct kv as [k v]. cbn [fst snd] in *.
      rewrite IH; [by rewrite <- app_assoc| |done].
      by rewrite fmap_app, <- app_assoc.
    + apply NoDup_app in Hnd as (_ & Hdisj & _).
      intros Hin. apply (Hdisj _ Hin). apply elem_of_cons. by left.
Qed.

(** X13: [normalizeCodexTools] returns one tool per name: the names of
    its result are pairwise distinct, trimmed and not empty, they are
    exactly the trimmed non-blank string names of the tools given, and
    normalizing the result again returns it unchanged. *)
Theorem normalized_tools_are_unique_and_stable (tools : list value) :
  let out := normalizeCodexTools tools in
  (∃ names,
      toolName <$> out = Some <$> names
      ∧ NoDup names
      ∧ Forall (λ name, name ≠ "" ∧ trim name = name) names
      ∧ ∀ name, name ∈ names
                ↔ name ≠ ""
                  ∧ ∃ tool raw, tool ∈ tools ∧ get "name" tool = VStr raw
                                ∧ trim raw = name)
  ∧ normalizeCodexTools out = out.
Proof.
  cbv zeta. unfold normalizeCodexTools.
  destruct (foldl_toolStep_wf tools [] (NoDup_nil_2 (A:=string)) (Forall_nil_2 _))
    as [Hnd Hcan].
  set (m := foldl toolStep [] tools) in *.
  split.
  - exists m.*1. split; [|split; [|split]].
    + clear Hnd. induction m as [|kv m IH]; [done|].
      apply Forall_cons in Hcan as [Hkv Hcan].
      rewrite !fmap_cons, (canonical_name kv Hkv). f_equal. by apply IH.
    + done.
    + apply Forall_forall. intros k (kv & -> & Hin)%list_elem_of_fmap.
      destruct (proj1 (Forall_forall _ _) Hcan kv Hin) as (? & ? & _).
      done.
    + intros name. unfold m. rewrite foldl_toolStep_keys. split.
      * by intros [H%elem_of_nil|H].
      * intros H. by right.
  - by rewrite (refold m []).
Qed.

End CodexMcpProperties.

(* ===================================================================== *)
(** ** Properties of the CLI wrappers                                     *)
(* ===================================================================== *)

Module CodexCliProperties.
Import JsString Js Codex CodexCli StringProperties.
Import Transport (CodexIntegrationState, ConnectedChatgpt, ConnectedApiKey,
                  NotLoggedIn, Unknown).

Lemma extractCodexError_Error (m : string) :
  m ≠ "" → message (extractCodexError (VError "Error" m [])) = m.
Proof. destruct m as [|a m]; [done|]. reflexivity. Qed.

(** X14: [runCodexCliChecked] returns the two output texts exactly when
    the command exited with code 0.  Otherwise it throws, passing on
    the failure of [runCodexCli] itself, or an [Error] whose message is
    never empty: the trimmed stderr when that is not blank, else the
    trimmed stdout when that is not blank, else a text naming the exit
    code; [extractCodexError] reads that same message back. *)
Theorem checked_run_returns_only_on_exit_zero (run : result CliResult) :
  match runCodexCliChecked run with
  | Ok out =>
      ∃ r, run = Ok r ∧ exitCode r = Some 0 ∧ out = (stdout r, stderr r)
  | Throw e =>
      run = Throw e
      ∨ ∃ r m,
          run = Ok r ∧ exitCode r ≠ Some 0
          ∧ e = VError "Error" m [] ∧ m ≠ ""
          ∧ message (extractCodexError e) = m
          ∧ (trim (stderr r) ≠ "" → m = trim (stderr r))
          ∧ (trim (stderr r) = "" → trim (stdout r) ≠ "" →
             m = trim (stdout r))
          ∧ (trim (stderr r) = "" → trim (stdout r) = "" →
             m = "Codex command failed with exit code "
                 +:+ from_option pretty "unknown" (exitCode r))
  end.
Proof.
  destruct run as [r|e]; simpl; [|by left].
  unfold exitedWithZero. destruct (bool_decide_reflect (exitCode r = Some 0))
    as [Hzero|Hnz].
  - by exists r.
  - right. eexists r, _. split; [done|]. split; [done|].
    split; [reflexivity|].
    assert (Hm : (if nonempty (trim (stderr r)) then trim (stderr r)
                  else if nonempty (trim (stdout r)) then trim (stdout r)
                  else "Codex command failed with exit code "
                       +:+ from_option pretty "unknown" (exitCode r)) ≠ "").
    { destruct (nonempty (trim (stderr r))) eqn:E1;
        [by apply nonempty_spec|].
      destruct (nonempty (trim (stdout r))) eqn:E2;
        [by apply nonempty_spec|]. done. }
    split; [exact Hm|]. split; [by apply extractCodexError_Error|].
    split; [|split].
    + intros H%nonempty_spec. by rewrite H.
    + intros H1%nonempty_false H2%nonempty_spec. by rewrite H1, H2.
    + intros H1%nonempty_false H2%nonempty_false. by rewrite H1, H2.
Qed.

Lemma checked_run_returns_only_on_exit_zero_witness :
  match runCodexCliChecked
          (Ok {| stdout := "partial"; stderr := " no such server ";
                 exitCode := Some 1 |}) with
  | Ok _ => False
  | Throw e => message (extractCodexError e) = "no such server"
  end.
Proof.
  pose proof (checked_run_returns_only_on_exit_zero
                (Ok {| stdout := "partial"; stderr := " no such server ";
                       exitCode := Some 1 |})) as H.
  destruct (runCodexCliChecked _) as [out|e].
  - destruct H as (r & Hr & Hz & _). injection Hr as <-. discriminate Hz.
  - destruct H as [H|(r & m & Hr & _ & _ & _ & Hmsg & Hm & _)];
      [discriminate|].
    injection Hr as <-. rewrite Hmsg. apply Hm. discriminate.
Defined.

(** X15: the integration state does not depend on the letter case of
    the CLI output; the integration counts as connected exactly when
    the lower-cased output mentions a ChatGPT or API-key login; and
    [logout] follows the status command alone: it throws when
    [getIntegration] would report the same status output as connected,
    and otherwise reports success with the state [getIntegration]
    would report, whatever the exit code and output of
    [codex logout]. *)
Theorem logout_follows_login_status (logoutResult statusResult : CliResult) :
  let out := toLowerCase (combinedOutput statusResult) in
  (∀ rawOutput,
     normalizeCodexIntegrationState (toLowerCase rawOutput)
     = normalizeCodexIntegrationState rawOutput)
  ∧ ∃ integration,
    getIntegration (Ok statusResult) = Ok integration
    ∧ (i_isConnected integration = true
       ↔ includes "logged in using chatgpt" out = true
         ∨ includes "logged in using an api key" out = true
         ∨ includes "logged in using api key" out = true)
    ∧ (i_state integration = NotLoggedIn →
       includes "not logged in" out = true)
    ∧ if i_isConnected integration
      then logout (Ok logoutResult) (Ok statusResult)
           = Throw (VError "Error"
                      "Failed to log out from Codex. Please try again." [])
      else logout (Ok logoutResult) (Ok statusResult)
           = Ok {| l_success := true; l_state := i_state integration;
                   l_isConnected := false;
                   l_logoutExitCode := exitCode logoutResult;
                   l_logoutOutput := combinedOutput logoutResult;
                   l_statusOutput := i_rawOutput integration |}.
Proof.
  cbv zeta. split.
  { intros rawOutput. unfold normalizeCodexIntegrationState.
    by rewrite toLowerCase_idemp. }
  eexists. split; [reflexivity|]. simpl.
  unfold logout, normalizeCodexIntegrationState.
  set (out := toLowerCase (combinedOutput statusResult)).
  destruct (includes "logged in using chatgpt" out); simpl.
  { split; [|done]. split; [by left|done]. }
  destruct (includes "logged in using an api key" out); simpl.
  { split; [|done]. split; [right; by left|done]. }
  destruct (includes "logged in using api key" out); simpl.
  { split; [|done]. split; [right; by right|done]. }
  destruct (includes "not logged in" out); simpl.
  - split; [|done]. split; [done|]. by intros [|[|]].
  - split; [|split; [done|done]]. split; [done|]. by intros [|[|]].
Qed.

End CodexCliProperties.

(* ===================================================================== *)
(** ** Properties of what the turn executor hands to the model stream     *)
(* ===================================================================== *)

Module ModelStreamProperties.
Import JsString Js Codex ModelStream StringProperties.

(** *** The session id, written and read back *)

Lemma find_skip {A} (p : A → bool) (l : list A) (x : A) (rest : list A) :
  Forall (λ y, p y = false) l → p x = true →
  find p (l ++ x :: rest) = Some x.
Proof.
  intros Hl Hx. induction Hl as [|y l Hy Hl IH]; simpl.
  - by rewrite Hx.
  - by rewrite Hy.
Qed.

Lemma assoc_jsonProps_absent (k : string) (fields : list (string * value)) :
  Forall (λ kv, kv.1 ≠ k) fields → assoc k (jsonProps fields) = VUndefined.
Proof.
  induction 1 as [|[k' v] fields Hk Hf IH]; [done|]. simpl in Hk.
  assert (Hne : String.eqb k k' = false)
    by (apply String.eqb_neq; congruence).
  destruct v; simpl; by rewrite ?Hne.
Qed.

Lemma messageMetadata_sessionId metadataModel providerSessionId durationMs
    part md :
  messageMetadata metadataModel providerSessionId durationMs part = Ok md →
  let sid := match providerSessionId with
             | Some s => if nonempty s then Some s else None
             | None => None
             end in
  asString (get "sessionId" md) = sid
  ∧ asString (get "sessionId" (jsonify md)) = sid
  ∧ get "model" md = VStr metadataModel.
Proof.
  unfold messageMetadata.
  destruct (getStrict "type" part) as [type|e]; [|done].
  set (sidv := match providerSessionId with
               | Some s => if nonempty s then VStr s else VUndefined
               | None => VUndefined
               end).
  assert (Hsid : (∃ s, providerSessionId = Some s ∧ nonempty s = true
                       ∧ sidv = VStr s)
                 ∨ (sidv = VUndefined
                    ∧ match providerSessionId with
                      | Some s => if nonempty s then Some s else None
                      | None => None
                      end = None)).
  { unfold sidv. destruct providerSessionId as [s|]; [|by right].
    destruct (nonempty s) eqn:E; [left; by exists s|by right]. }
  destruct (isStr type "finish").
  - destruct (getStrict "inputTokens" (get "totalUsage" part)) as [tok|e];
      [|done].
    intros [= <-]. cbv zeta.
    destruct Hsid as [(s & -> & Hs & ->)|[-> ->]].
    + rewrite Hs. by repeat split.
    + split; [done|]. split; [|done].
      rewrite TurnProperties.jsonify_obj.
      match goal with
      | |- context [jsonProps (?a :: ("sessionId", VUndefined) :: ?rest)] =>
          change (jsonProps (a :: ("sessionId", VUndefined) :: rest))
            with (a :: jsonProps rest)
      end.
      cbn [get assoc String.eqb Ascii.eqb Bool.eqb].
      rewrite assoc_jsonProps_absent; [done|].
      repeat (apply Forall_cons; split; [done|]). apply Forall_nil_2.
  - destruct Hsid as [(s & -> & Hs & ->)|[-> ->]]; simpl.
    + rewrite Hs. intros [= <-]. by repeat split.
    + intros [= <-]. by repeat split.
Qed.

(** X16: [getLastSessionId] reads the session id of the most recent
    assistant message and nothing else: user messages after it are
    skipped, and an earlier assistant message is not consulted even
    when the most recent one carries no string [sessionId].  For an
    assistant message whose metadata is what [messageMetadata]
    produced, before or after its JSON round trip, that id is the
    provider's session id when it is a non-empty string, and none
    otherwise. *)
Theorem last_session_id_is_of_last_assistant
    (before after : list value) (m : value) :
  isStr (get "role" m) "assistant" = true →
  Forall (λ x, isStr (get "role" x) "assistant" = false) after →
  getLastSessionId (before ++ m :: after)
  = asString (get "sessionId" (get "metadata" m))
  ∧ ∀ metadataModel providerSessionId durationMs part md,
      messageMetadata metadataModel providerSessionId durationMs part
      = Ok md →
      get "metadata" m = md ∨ get "metadata" m = jsonify md →
      getLastSessionId (before ++ m :: after)
      = match providerSessionId with
        | Some s => if nonempty s then Some s else None
        | None => None
        end.
Proof.
  intros Hm Hafter.
  assert (Hlast : getLastSessionId (before ++ m :: after)
                  = asString (get "sessionId" (get "metadata" m))).
  { unfold getLastSessionId.
    rewrite reverse_app, reverse_cons, <- app_assoc. simpl.
    rewrite (find_skip _ (reverse after) m); [done| |done].
    by apply Forall_reverse. }
  split; [exact Hlast|].
  intros metadataModel providerSessionId durationMs part md Hmd Hmeta.
  rewrite Hlast.
  destruct (messageMetadata_sessionId _ _ _ _ _ Hmd) as (H1 & H2 & _).
  by destruct Hmeta as [->| ->].
Qed.

Lemma last_session_id_is_of_last_assistant_witness :
  getLastSessionId
    [VObj [("role", VStr "assistant");
           ("metadata", VObj [("sessionId", VStr "old")])];
     VObj [("role", VStr "assistant"); ("metadata", VObj [])];
     VObj [("role", VStr "user")]]
  = None.
Proof.
  apply (proj1 (last_session_id_is_of_last_assistant
    [VObj [("role", VStr "assistant");
           ("metadata", VObj [("sessionId", VStr "old")])]]
    [VObj [("role", VStr "user")]]
    (VObj [("role", VStr "assistant"); ("metadata", VObj [])])
    eq_refl
    ltac:(repeat constructor))).
Defined.

(** *** The model id *)


(** *** The attachments of a turn *)

Lemma buildUserParts_parts (prompt : string) (images : list ImageAttachment) :
  buildUserParts prompt images
  = VObj [("type", VStr "text"); ("text", VStr prompt)]
    :: omap imagePartOf images.
Proof. reflexivity. Qed.

Lemma usable_cases (image : ImageAttachment) :
  if ChatTransport.usableImage image
  then (∃ file, filePartOf image = Some file
                ∧ modelAttachment file
                  = Some (VStr (mediaType image), VStr (base64Data image))
                ∧ textOf file = None)
       ∧ (∃ part, imagePartOf image = Some part
                  ∧ storedAttachment part
                    = Some (VStr (mediaType image), VStr (base64Data image))
                  ∧ textOf part = None)
  else filePartOf image = None ∧ imagePartOf image = None.
Proof.
  unfold ChatTransport.usableImage, filePartOf, imagePartOf.
  destruct (nonempty (base64Data image)), (nonempty (mediaType image));
    cbn [negb orb andb]; try done.
  split; eexists; (split; [reflexivity|]); by split.
Qed.

(** X18: the message content [chat] hands to the model and the user
    message it stores carry the same turn: one text part with the
    prompt, first, followed by the same attachments (media type and
    data) in the same order, namely the images that have both non-empty
    data and a non-empty media type. *)
Theorem model_sees_the_stored_turn (prompt : string)
    (images : list ImageAttachment) :
  let content := buildModelMessageContent prompt images in
  let parts := buildUserParts prompt images in
  omap modelAttachment content = omap storedAttachment parts
  ∧ omap modelAttachment content
    = (λ image, (VStr (mediaType image), VStr (base64Data image)))
        <$> filter (λ image, ChatTransport.usableImage image) images
  ∧ omap textOf content = [VStr prompt]
  ∧ omap textOf parts = [VStr prompt]
  ∧ head content = head parts
  ∧ head content
    = Some (VObj [("type", VStr "text"); ("text", VStr prompt)])
  ∧ length content = length parts.
Proof.
  cbv zeta. rewrite buildUserParts_parts. unfold buildModelMessageContent.
  assert (H : omap modelAttachment (omap filePartOf images)
              = ((λ image, (VStr (mediaType image), VStr (base64Data image)))
                   <$> filter (λ image, ChatTransport.usableImage image) images)
            ∧ omap storedAttachment (omap imagePartOf images)
              = ((λ image, (VStr (mediaType image), VStr (base64Data image)))
                   <$> filter (λ image, ChatTransport.usableImage image) images)
            ∧ omap textOf (omap filePartOf images) = []
            ∧ omap textOf (omap imagePartOf images) = []
            ∧ length (omap filePartOf images)
              = length (omap imagePartOf images)).
  { induction images as [|image rest (IH1 & IH2 & IH3 & IH4 & IH5)]; [done|].
    pose proof (usable_cases image) as Hc.
    destruct (ChatTransport.usableImage image) eqn:Eu.
    - destruct Hc as [(file & Hf & Hfa & Hft) (part & Hp & Hpa & Hpt)].
      rewrite filter_cons_True by by rewrite Eu.
      cbn [omap list_omap]. rewrite Hf, Hp. cbn [omap list_omap length].
      rewrite Hfa, Hpa, Hft, Hpt, IH1, IH2, IH3, IH4, IH5.
      by rewrite fmap_cons.
    - destruct Hc as [Hf Hp].
      rewrite filter_cons_False by (rewrite Eu; exact id).
      cbn [omap list_omap]. by rewrite Hf, Hp. }
  destruct H as (H1 & H2 & H3 & H4 & H5).
  cbn [omap list_omap length].
  change (modelAttachment (VObj [("type", VStr "text"); ("text", VStr prompt)]))
    with (@None (value * value)).
  change (storedAttachment (VObj [("type", VStr "text"); ("text", VStr prompt)]))
    with (@None (value * value)).
  change (textOf (VObj [("type", VStr "text"); ("text", VStr prompt)]))
    with (Some (VStr prompt)).
  cbv iota beta. cbn [head]. by rewrite H1, H2, H3, H4, H5.
Qed.

End ModelStreamProperties.

(* ===================================================================== *)
(** ** Properties of plain objects                                        *)
(* ===================================================================== *)

Module JsObjectProperties.
Import JsString JsObject StringProperties.

Lemma ownGet_None (k : string) (o : object) :
  k ∉ o.*1 → ownGet k o = None.
Proof.
  induction o as [|[k' v] o IH]; [done|]. rewrite fmap_cons. cbn [fst ownGet].
  intros Hk. destruct (String.eqb_spec k k') as [->|Hne].
  - destruct Hk. apply elem_of_cons. by left.
  - apply IH. intros H. apply Hk. apply elem_of_cons. by right.
Qed.

Lemma ownGet_Some_elem (k v : string) (o : object) :
  ownGet k o = Some v → (k, v) ∈ o.
Proof.
  induction o as [|[k' v'] o IH]; [done|]. cbn [ownGet].
  destruct (String.eqb_spec k k') as [->|Hne].
  - intros [= ->]. apply elem_of_cons. by left.
  - intros H. apply elem_of_cons. right. by apply IH.
Qed.

Lemma ownGet_elem (k v : string) (o : object) :
  NoDup o.*1 → (k, v) ∈ o → ownGet k o = Some v.
Proof.
  induction o as [|[k' v'] o IH]; [by intros _ H%elem_of_nil|].
  rewrite fmap_cons. cbn [fst ownGet].
  intros [Hk Hnd]%NoDup_cons [Heq|Hin]%elem_of_cons.
  - injection Heq as -> ->. by rewrite String.eqb_refl.
  - destruct (String.eqb_spec k k') as [->|Hne]; [|by apply IH].
    destruct Hk. by apply (list_elem_of_fmap_2 fst _ _ Hin).
Qed.

Lemma ownGet_replaceOwn (k v k' : string) (o : object) :
  ownGet k' (replaceOwn k v o)
  = if String.eqb k' k
    then match ownGet k o with Some _ => Some v | None => None end
    else ownGet k' o.
Proof.
  induction o as [|[k0 v0] o IH]; cbn [replaceOwn ownGet].
  - by destruct (String.eqb k' k).
  - destruct (String.eqb_spec k k0) as [->|Hne]; cbn [ownGet].
    + by destruct (String.eqb_spec k' k0).
    + rewrite IH. destruct (String.eqb_spec k' k0) as [->|Hne'].
      * destruct (String.eqb_spec k0 k) as [->|]; [done|done].
      * done.
Qed.

Lemma ownGet_insertIndex (n : N) (k v k' : string) (o : object) :
  ownGet k o = None →
  ownGet k' (insertIndex n k v o)
  = if String.eqb k' k then Some v else ownGet k' o.
Proof.
  induction o as [|[k0 v0] o IH]; cbn [insertIndex ownGet]; [done|].
  destruct (String.eqb_spec k k0) as [->|Hne]; [done|]. intros Hk.
  assert (Hstep : ownGet k' ((k, v) :: (k0, v0) :: o)
                  = if String.eqb k' k then Some v
                    else if String.eqb k' k0 then Some v0 else ownGet k' o)
    by reflexivity.
  destruct (arrayIndex k0) as [n'|]; [|exact Hstep].
  destruct (n' <? n)%N; [|exact Hstep].
  cbn [ownGet]. rewrite (IH Hk).
  destruct (String.eqb_spec k' k0) as [->|]; [|done].
  by destruct (String.eqb_spec k0 k) as [->|].
Qed.

Lemma ownGet_app (k' : string) (o o' : object) :
  ownGet k' (o ++ o')
  = match ownGet k' o with Some x => Some x | None => ownGet k' o' end.
Proof.
  induction o as [|[k0 v0] o IH]; [done|]. cbn [app ownGet].
  by destruct (String.eqb k' k0).
Qed.

Lemma ownSet_proto (v : string) (o : object) : ownSet "__proto__" v o = o.
Proof. reflexivity. Qed.

Lemma ownGet_ownSet (k v k' : string) (o : object) :
  k ≠ "__proto__" →
  ownGet k' (ownSet k v o) = if String.eqb k' k then Some v else ownGet k' o.
Proof.
  intros Hk. unfold ownSet.
  destruct (String.eqb_spec k "__proto__") as [|_]; [done|].
  destruct (ownGet k o) as [x|] eqn:E.
  - by rewrite ownGet_replaceOwn, E.
  - destruct (arrayIndex k) as [n|].
    + by apply ownGet_insertIndex.
    + rewrite ownGet_app. cbn [ownGet].
      destruct (String.eqb_spec k' k) as [->|]; [by rewrite E|].
      by destruct (ownGet k' o).
Qed.

Lemma ownGet_ownSet_ne (k v k' : string) (o : object) :
  k' ≠ k → ownGet k' (ownSet k v o) = ownGet k' o.
Proof.
  intros Hne. destruct (String.eqb_spec k "__proto__") as [->|Hk]; [done|].
  rewrite ownGet_ownSet by done.
  by destruct (String.eqb_spec k' k).
Qed.

Lemma ownGet_proto_ownSet (k v : string) (o : object) :
  ownGet "__proto__" (ownSet k v o) = ownGet "__proto__" o.
Proof.
  destruct (String.eqb_spec k "__proto__") as [->|Hk]; [done|].
  by apply ownGet_ownSet_ne.
Qed.

Lemma ownGet_assignAll (name : string) (source o : object) :
  NoDup source.*1 →
  ownGet name (assignAll source o)
  = match ownGet name source with
    | Some v => if String.eqb name "__proto__" then ownGet name o else Some v
    | None => ownGet name o
    end.
Proof.
  revert o. induction source as [|[k v] source IH]; intros o; [done|].
  rewrite fmap_cons. cbn [fst]. intros [Hk Hnd]%NoDup_cons.
  change (assignAll ((k, v) :: source) o)
    with (assignAll source (ownSet k v o)).
  rewrite (IH _ Hnd). cbn [ownGet].
  destruct (String.eqb_spec name k) as [->|Hne].
  - rewrite (ownGet_None k source Hk).
    destruct (String.eqb_spec k "__proto__") as [->|Hp]; [done|].
    by rewrite ownGet_ownSet, String.eqb_refl.
  - rewrite (ownGet_ownSet_ne k v name o Hne). done.
Qed.

Lemma ownSet_keys (k v k' : string) (o : object) :
  k' ∈ (ownSet k v o).*1 → k' = k ∨ k' ∈ o.*1.
Proof.
  intros (kv & -> & Hin)%list_elem_of_fmap. destruct kv as [k1 v1].
  cbn [fst]. destruct (String.eqb_spec k1 k) as [->|Hne]; [by left|right].
  assert (Hget : ∃ x, ownGet k1 (ownSet k v o) = Some x).
  { clear Hne. generalize dependent (ownSet k v o). intros o'.
    induction o' as [|[k2 v2] o' IH]; [by intros H%elem_of_nil|].
    intros [Heq|Hin]%elem_of_cons; cbn [ownGet].
    - injection Heq as -> ->. rewrite String.eqb_refl. eauto.
    - destruct (String.eqb k1 k2); eauto. }
  destruct Hget as [x Hx]. rewrite ownGet_ownSet_ne in Hx by done.
  apply ownGet_Some_elem in Hx. by apply (list_elem_of_fmap_2 fst _ _ Hx).
Qed.

End JsObjectProperties.

(* ===================================================================== *)
(** ** Properties of the environment and headers of tool servers          *)
(* ===================================================================== *)

Module McpServersProperties.
Import JsString Js Codex JsObject McpServers StringProperties.
Import JsObjectProperties.

Lemma truthyAt_ownSet_ne (k v k' : string) (o : object) :
  k' ≠ k → truthyAt k' (ownSet k v o) = truthyAt k' o.
Proof. intros Hne. unfold truthyAt. by rewrite ownGet_ownSet_ne. Qed.

Lemma passEnvVar_proto processEnv (m : object) (n : string) :
  ownGet "__proto__" m = None →
  ownGet "__proto__" (passEnvVar processEnv m n) = None.
Proof.
  intros Hm. unfold passEnvVar. destruct (processEnv n) as [w|]; [|done].
  destruct (nonempty w && negb (truthyAt n m))%bool; [|done].
  by rewrite ownGet_proto_ownSet.
Qed.

Lemma foldl_passEnvVar_get processEnv (names : list string) (m : object)
    (name : string) :
  ownGet "__proto__" m = None →
  ownGet name (foldl (passEnvVar processEnv) m names)
  = match processEnv name with
    | Some w =>
        if (nonempty w && negb (truthyAt name m)
            && bool_decide (name ∈ names))%bool
        then Some w else ownGet name m
    | None => ownGet name m
    end.
Proof.
  revert m. induction names as [|n names IH]; intros m Hm.
  - simpl. destruct (processEnv name); [|done].
    by rewrite andb_false_r.
  - cbn [foldl]. rewrite (IH _ (passEnvVar_proto processEnv m n Hm)).
    destruct (decide (n = name)) as [->|Hne].
    + unfold passEnvVar. destruct (processEnv name) as [w|]; [|done].
      rewrite (bool_decide_eq_true_2 (name ∈ name :: names))
        by (apply elem_of_cons; by left).
      rewrite andb_true_r.
      destruct (nonempty w && negb (truthyAt name m))%bool eqn:E; [|by rewrite E].
      apply andb_true_iff in E as [Hw Ht].
      assert (Hp : name ≠ "__proto__").
      { intros ->. unfold truthyAt in Ht. by rewrite Hm in Ht. }
      unfold truthyAt at 1.
      rewrite !ownGet_ownSet, String.eqb_refl by done.
      by rewrite Hw.
    + assert (Hget : ownGet name (passEnvVar processEnv m n) = ownGet name m).
      { unfold passEnvVar. destruct (processEnv n) as [w|]; [|done].
        destruct (nonempty w && negb (truthyAt n m))%bool; [|done].
        by apply ownGet_ownSet_ne. }
      assert (Htruthy : truthyAt name (passEnvVar processEnv m n)
                        = truthyAt name m)
        by (unfold truthyAt; by rewrite Hget).
      rewrite Hget, Htruthy.
      destruct (processEnv name) as [w|]; [|done].
      replace (bool_decide (name ∈ n :: names))
        with (bool_decide (name ∈ names)); [done|].
      apply bool_decide_ext. rewrite elem_of_cons.
      split; [by right|]. intros [Heq|Hin]; [congruence|done].
Qed.

Lemma default_nonEmpty (m : object) :
  default [] (match m with [] => None | _ :: _ => Some m end) = m
  ∧ (match m with [] => None | _ :: _ => Some m end = None ↔ m = []).
Proof. by destruct m. Qed.

Lemma resolveCodexStdioEnv_merged processEnv (transport : McpTransport) :
  resolveCodexStdioEnv processEnv transport
  = match foldl (passEnvVar processEnv)
            (assignAll (default [] (t_env transport)) [])
            (default [] (t_env_vars transport)) with
    | [] => None
    | _ :: _ =>
        Some (foldl (passEnvVar processEnv)
                (assignAll (default [] (t_env transport)) [])
                (default [] (t_env_vars transport)))
    end.
Proof.
  unfold resolveCodexStdioEnv.
  by destruct (t_env transport) as [env|],
              (t_env_vars transport) as [names|].
Qed.

Lemma assignAll_proto (source : object) :
  NoDup source.*1 → ownGet "__proto__" (assignAll source []) = None.
Proof.
  intros Hnd. rewrite ownGet_assignAll by done.
  by destruct (ownGet "__proto__" source).
Qed.

(** X19: the environment [resolveCodexStdioEnv] gives a stdio server.
    A variable the configuration sets to a non-empty value keeps that
    value, whatever [env_vars] lists.  A variable listed in [env_vars]
    is passed through from the process environment when it is set
    there to a non-empty value and the configuration gives it no value
    or an empty one.  Nothing else is in the result, and the result is
    absent exactly when it would have no variable at all. *)
Theorem stdio_env_precedence (processEnv : string → option string)
    (transport : McpTransport) (name : string) :
  let env := default [] (t_env transport) in
  let names := default [] (t_env_vars transport) in
  let resolved := default [] (resolveCodexStdioEnv processEnv transport) in
  NoDup env.*1 →
  (∀ v, ownGet name env = Some v → v ≠ "" → name ≠ "__proto__" →
        ownGet name resolved = Some v)
  ∧ (∀ w, name ≠ "__proto__" →
          match ownGet name env with
          | Some v => v = ""
          | None => inherited name = false
          end →
          name ∈ names → processEnv name = Some w → w ≠ "" →
          ownGet name resolved = Some w)
  ∧ (∀ x, ownGet name resolved = Some x →
          ownGet name env = Some x
          ∨ (name ∈ names ∧ processEnv name = Some x ∧ x ≠ ""))
  ∧ (resolveCodexStdioEnv processEnv transport = None ↔ resolved = []).
Proof.
  cbv zeta. intros Hnd. rewrite resolveCodexStdioEnv_merged.
  set (env := default [] (t_env transport)) in *.
  set (names := default [] (t_env_vars transport)).
  match goal with
  | |- context [default ?d ?x] =>
      match x with
      | match ?m with [] => _ | _ :: _ => _ end =>
          assert (Hd : default d x = m) by (by destruct m);
          assert (Hnone : x = None ↔ m = []) by (by destruct m);
          rewrite Hd
      end
  end.
  pose proof (foldl_passEnvVar_get processEnv names (assignAll env []) name
                (assignAll_proto env Hnd)) as Hget.
  assert (Hbase : ownGet name (assignAll env [])
                  = match ownGet name env with
                    | Some v => if String.eqb name "__proto__" then None
                                else Some v
                    | None => None
                    end)
    by (by rewrite ownGet_assignAll).
  unfold truthyAt in Hget. rewrite Hbase in Hget.
  split; [|split; [|split; [|exact Hnone]]].
  - intros v Hv Hne Hp. rewrite Hget, Hv.
    destruct (String.eqb_spec name "__proto__") as [|_]; [done|].
    rewrite (proj2 (nonempty_spec v) Hne). cbn [negb].
    destruct (processEnv name); [|done]. by rewrite andb_false_r.
  - intros w Hp Hcase Hin Hw Hne. rewrite Hget, Hw.
    rewrite (proj2 (nonempty_spec w) Hne), (bool_decide_eq_true_2 _ Hin).
    destruct (String.eqb_spec name "__proto__") as [|_]; [done|].
    destruct (ownGet name env) as [v|]; [by subst v|].
    by rewrite Hcase.
  - intros x. rewrite Hget.
    destruct (processEnv name) as [w|] eqn:Ew.
    + destruct (nonempty w && _ && bool_decide (name ∈ names))%bool eqn:E.
      * intros [= <-]. right.
        apply andb_true_iff in E as [[Hw _]%andb_true_iff Hin].
        split; [by apply bool_decide_eq_true in Hin|].
        split; [done|by apply nonempty_spec].
      * destruct (ownGet name env) as [v|]; [|done].
        destruct (String.eqb name "__proto__"); [done|]. intros [= <-].
        by left.
    + destruct (ownGet name env) as [v|]; [|done].
      destruct (String.eqb name "__proto__"); [done|]. intros [= <-].
      by left.
Qed.

Lemma stdio_env_precedence_witness :
  ownGet "PATH"
    (default []
       (resolveCodexStdioEnv
          (λ name, if String.eqb name "PATH" then Some "/usr/bin" else None)
          {| t_type := "stdio"; t_command := Some "npx"; t_args := None;
             t_env := Some [("PATH", "/opt/bin")];
             t_env_vars := Some ["PATH"]; t_cwd := None; t_url := None;
             t_bearer_token_env_var := None; t_http_headers := None;
             t_env_http_headers := None |}))
  = Some "/opt/bin".
Proof.
  refine (proj1 (stdio_env_precedence
    (λ name, if String.eqb name "PATH" then Some "/usr/bin" else None)
    {| t_type := "stdio"; t_command := Some "npx"; t_args := None;
       t_env := Some [("PATH", "/opt/bin")];
       t_env_vars := Some ["PATH"]; t_cwd := None; t_url := None;
       t_bearer_token_env_var := None; t_http_headers := None;
       t_env_http_headers := None |} "PATH" _) "/opt/bin" eq_refl _ _).
  - apply NoDup_singleton.
  - discriminate.
  - discriminate.
Defined.

Lemma foldl_passEnvHeader_get processEnv (fromEnv m : object) (h : string) :
  NoDup fromEnv.*1 → h ≠ "__proto__" →
  ownGet h (foldl (passEnvHeader processEnv) m fromEnv)
  = match ownGet h fromEnv with
    | Some envName =>
        match processEnv envName with
        | Some w => if nonempty w then Some w else ownGet h m
        | None => ownGet h m
        end
    | None => ownGet h m
    end.
Proof.
  intros Hnd Hp. revert m Hnd.
  induction fromEnv as [|[k e] fromEnv IH]; intros m; [done|].
  rewrite fmap_cons. cbn [fst]. intros [Hk Hnd]%NoDup_cons.
  cbn [foldl ownGet]. rewrite (IH _ Hnd).
  assert (Hstep : ownGet h (passEnvHeader processEnv m (k, e))
                  = if String.eqb h k
                    then match processEnv e with
                         | Some w => if nonempty w then Some w else ownGet h m
                         | None => ownGet h m
                         end
                    else ownGet h m).
  { unfold passEnvHeader. cbn [fst snd].
    destruct (String.eqb_spec h k) as [->|Hne].
    - destruct (processEnv e) as [w|]; [|done].
      destruct (nonempty w); [|done].
      by rewrite ownGet_ownSet, String.eqb_refl.
    - destruct (processEnv e) as [w|]; [|done].
      destruct (nonempty w); [|done]. by apply ownGet_ownSet_ne. }
  rewrite Hstep.
  destruct (String.eqb_spec h k) as [->|Hne]; [|done].
  by rewrite (ownGet_None k fromEnv Hk).
Qed.

(** X20: the headers [resolveCodexHttpHeaders] gives an HTTP server.
    A header named in [env_http_headers] takes the value of its
    environment variable when that is set and not empty, and the
    static value of [http_headers] otherwise.  The bearer token is
    used for [Authorization] only when the headers so configured have
    no non-empty [Authorization]: a configured one is never replaced.
    The function throws only when it has to read the bearer token from
    a variable that is not set and whose name is a member of
    [Object.prototype]. *)
Theorem http_headers_precedence (processEnv : string → option string)
    (transport : McpTransport) (h : string) :
  let static := default [] (t_http_headers transport) in
  let fromEnv := default [] (t_env_http_headers transport) in
  let bearer := default "" (trim <$> t_bearer_token_env_var transport) in
  let configured := λ key,
    match ownGet key fromEnv with
    | Some envName =>
        match processEnv envName with
        | Some w => if nonempty w then Some w else ownGet key static
        | None => ownGet key static
        end
    | None => ownGet key static
    end in
  let authorized :=
    match configured "Authorization" with
    | Some v => nonempty v
    | None => false
    end in
  NoDup static.*1 → NoDup fromEnv.*1 → h ≠ "__proto__" →
  match resolveCodexHttpHeaders processEnv transport with
  | Ok resolved =>
      (h ≠ "Authorization" → ownGet h (default [] resolved) = configured h)
      ∧ ownGet "Authorization" (default [] resolved)
        = (if authorized then configured "Authorization"
           else match processEnv bearer with
                | Some token =>
                    if (nonempty bearer && nonempty (trim token))%bool
                    then Some ("Bearer " +:+ trim token)
                    else configured "Authorization"
                | None => configured "Authorization"
                end)
      ∧ (resolved = None ↔ default [] resolved = [])
  | Throw e =>
      e = ChatTransport.typeError ∧ authorized = false ∧ bearer ≠ ""
      ∧ processEnv bearer = None ∧ inherited bearer = true
  end.
Proof.
  cbv zeta. intros Hs He Hp.
  set (static := default [] (t_http_headers transport)) in *.
  set (fromEnv := default [] (t_env_http_headers transport)) in *.
  set (M := foldl (passEnvHeader processEnv) (assignAll static []) fromEnv).
  assert (HM : ∀ key, key ≠ "__proto__" →
                      ownGet key M
                      = match ownGet key fromEnv with
                        | Some envName =>
                            match processEnv envName with
                            | Some w => if nonempty w then Some w
                                        else ownGet key static
                            | None => ownGet key static
                            end
                        | None => ownGet key static
                        end).
  { intros key Hkey. unfold M.
    rewrite foldl_passEnvHeader_get, ownGet_assignAll by done.
    assert (Hbase : match ownGet key static with
                    | Some v => if String.eqb key "__proto__"
                                then ownGet key [] else Some v
                    | None => ownGet key []
                    end = ownGet key static).
    { destruct (ownGet key static); [|done].
      by destruct (String.eqb_spec key "__proto__"). }
    by rewrite Hbase. }
  assert (Hshape : resolveCodexHttpHeaders processEnv transport
    = match (match trim <$> t_bearer_token_env_var transport with
             | Some bearerEnvVar =>
                 if (nonempty bearerEnvVar
                     && negb (truthyAt "Authorization" M))%bool
                 then match envTrimmed processEnv bearerEnvVar with
                      | Throw e => Throw e
                      | Ok (Some token) =>
                          if nonempty token
                          then Ok (ownSet "Authorization"
                                     ("Bearer " +:+ token) M)
                          else Ok M
                      | Ok None => Ok M
                      end
                 else Ok M
             | None => Ok M
             end) with
      | Throw e => Throw e
      | Ok merged => Ok (match merged with [] => None | _ :: _ => Some merged end)
      end).
  { unfold resolveCodexHttpHeaders, M, static, fromEnv.
    by destruct (t_http_headers transport),
                (t_env_http_headers transport). }
  rewrite Hshape. clear Hshape.
  assert (Htruthy : truthyAt "Authorization" M
                    = match ownGet "Authorization" M with
                      | Some v => nonempty v
                      | None => false
                      end) by reflexivity.
  rewrite Htruthy. clear Htruthy.
  assert (Hout : ∀ m : object,
            (h ≠ "Authorization" → ownGet h m = ownGet h M) →
            ∀ expected, ownGet "Authorization" m = expected →
            (h ≠ "Authorization" →
             ownGet h (default [] (match m with [] => None | _ :: _ => Some m end))
             = ownGet h M)
            ∧ ownGet "Authorization"
                (default [] (match m with [] => None | _ :: _ => Some m end))
              = expected
            ∧ (match m with [] => None | _ :: _ => Some m end = None
               ↔ default [] (match m with [] => None | _ :: _ => Some m end)
                 = [])).
  { intros m Hm expected Hexp. by destruct m. }
  rewrite <- (HM h Hp), <- (HM "Authorization") by done.
  destruct (t_bearer_token_env_var transport) as [raw|];
    [change (default "" (trim <$> Some raw)) with (trim raw)
    |change (default "" (trim <$> @None string)) with ""];
    cbn [fmap option_fmap option_map].
  2: { apply Hout; [done|].
       destruct (ownGet "Authorization" M) as [v|]; [|by destruct (processEnv "")].
       destruct (nonempty v); [done|]. by destruct (processEnv ""). }
  destruct (nonempty (trim raw)) eqn:Eb; cbn [andb].
  2: { apply Hout; [done|].
       destruct (ownGet "Authorization" M) as [v|];
         [destruct (nonempty v); [done|]|];
         by destruct (processEnv (trim raw)). }
  destruct (match ownGet "Authorization" M with
            | Some v => nonempty v
            | None => false
            end) eqn:Ea; cbn [negb].
  { by apply Hout. }
  unfold envTrimmed. destruct (processEnv (trim raw)) as [token|] eqn:Etok.
  - destruct (nonempty (trim token)) eqn:Et.
    + apply Hout.
      * intros Hne. by apply ownGet_ownSet_ne.
      * by rewrite ownGet_ownSet, String.eqb_refl.
    + by apply Hout.
  - destruct (inherited (trim raw)) eqn:Ei.
    + repeat split; try done. by apply nonempty_spec.
    + by apply Hout.
Qed.

Lemma http_headers_precedence_witness :
  match resolveCodexHttpHeaders
          (λ name, if String.eqb name "TOKEN" then Some " abc " else None)
          {| t_type := "http"; t_command := None; t_args := None;
             t_env := None; t_env_vars := None; t_cwd := None;
             t_url := Some "https://example.test/mcp";
             t_bearer_token_env_var := Some "TOKEN";
             t_http_headers := Some [("Authorization", "Basic xyz")];
             t_env_http_headers := None |} with
  | Ok resolved =>
      ownGet "Authorization" (default [] resolved) = Some "Basic xyz"
  | Throw _ => False
  end.
Proof.
  pose proof (http_headers_precedence
    (λ name, if String.eqb name "TOKEN" then Some " abc " else None)
    {| t_type := "http"; t_command := None; t_args := None;
       t_env := None; t_env_vars := None; t_cwd := None;
       t_url := Some "https://example.test/mcp";
       t_bearer_token_env_var := Some "TOKEN";
       t_http_headers := Some [("Authorization", "Basic xyz")];
       t_env_http_headers := None |} "Accept"
    (NoDup_singleton _) (NoDup_nil_2 (A:=string)) ltac:(discriminate)) as H.
  destruct (resolveCodexHttpHeaders _ _) as [resolved|e].
  - exact (proj1 (proj2 H)).
  - by destruct H as (_ & H & _).
Defined.

End McpServersProperties.

(* ===================================================================== *)
(** ** Properties of the tool-server snapshot                             *)
(* ===================================================================== *)

Module McpSnapshotProperties.
Import JsString Js Codex JsObject CodexMcp McpServers CodexCli McpSnapshot.
Import StringProperties.

Lemma shouldProbeTools_true shouldIncludeTools entry headers :
  shouldProbeTools shouldIncludeTools entry headers = true →
  shouldIncludeTools = true ∧ e_enabled entry = true
  ∧ needsAuth (getCodexMcpAuthState (e_auth_status entry)) = false.
Proof.
  unfold shouldProbeTools.
  intros [[[H1 H2]%andb_true_iff H3%negb_true_iff]%andb_true_iff _]%andb_true_iff.
  done.
Qed.

Lemma sessionServerOf_Some entry stdioEnv headers server :
  sessionServerOf entry stdioEnv headers = Some server →
  e_enabled entry = true ∧ serverName server = e_name entry.
Proof.
  unfold sessionServerOf.
  destruct (String.eqb _ "stdio").
  - destruct (orUndefined (t_command (e_transport entry))); [|done].
    destruct (e_enabled entry); [|done]. by intros [= <-].
  - destruct (isHttpTransport _); [|done].
    destruct (orUndefined (t_url (e_transport entry))); [|done].
    destruct (e_enabled entry); [|done]. by intros [= <-].
Qed.

(** X21: how [resolveCodexMcpSnapshot] converts one entry of the
    server list.  The settings entry keeps the entry's name.  Only an
    enabled entry yields a session server, under the same name.  A
    disabled entry is reported [failed], without tools and without
    session server.  A server that needs authentication is never
    probed, and is reported [needs-auth] when enabled.  Without
    [includeTools] nothing is probed.  [connected] is reported only
    for enabled servers that do not need authentication, tools only
    for [connected] servers, and [pending] never. *)
Theorem entry_conversion_status
    (processEnv : string → option string)
    (fetchMcpToolsStdio :
       string → option (list string) → option object → option (list value))
    (fetchMcpTools : string → option object → option (list value))
    (shouldIncludeTools : bool)
    (entry : McpListEntry) (session : option CodexMcpServerForSession)
    (settings : CodexMcpServerForSettings) :
  convertEntry processEnv fetchMcpToolsStdio fetchMcpTools
    shouldIncludeTools entry = Ok (session, settings) →
  s_name settings = e_name entry
  ∧ s_needsAuth settings
    = needsAuth (getCodexMcpAuthState (e_auth_status entry))
  ∧ (∀ server, session = Some server →
               e_enabled entry = true ∧ serverName server = e_name entry)
  ∧ (e_enabled entry = false →
     session = None ∧ s_status settings = StatusFailed
     ∧ s_tools settings = [])
  ∧ (s_needsAuth settings = true →
     s_tools settings = []
     ∧ (e_enabled entry = true → s_status settings = StatusNeedsAuth))
  ∧ (shouldIncludeTools = false → s_tools settings = [])
  ∧ (s_status settings = StatusConnected →
     e_enabled entry = true ∧ s_needsAuth settings = false)
  ∧ (s_tools settings ≠ [] →
     shouldIncludeTools = true ∧ s_status settings = StatusConnected)
  ∧ s_status settings ≠ StatusPending.
Proof.
  unfold convertEntry.
  destruct (resolveCodexHttpHeaders processEnv (e_transport entry))
    as [headers|e]; [|done].
  intros [= <- <-]. cbn [s_name s_status s_tools s_needsAuth].
  pose proof (shouldProbeTools_true shouldIncludeTools entry headers) as Hprobe.
  set (probe := shouldProbeTools shouldIncludeTools entry headers) in *.
  set (na := needsAuth (getCodexMcpAuthState (e_auth_status entry))) in *.
  assert (Hstatus : ∀ tools : list value,
            (if (probe && bool_decide (tools = []))%bool then StatusFailed
             else initialStatus entry)
            = if (probe && bool_decide (tools = []))%bool then StatusFailed
              else if negb (e_enabled entry) then StatusFailed
              else if na then StatusNeedsAuth else StatusConnected)
    by reflexivity.
  rewrite Hstatus. clear Hstatus.
  split; [done|]. split; [done|].
  split; [intros server; apply sessionServerOf_Some|].
  split.
  { intros Hen. split.
    - destruct (sessionServerOf _ _ _) as [server|] eqn:E; [|done].
      apply sessionServerOf_Some in E as [E _]. congruence.
    - destruct probe; [destruct Hprobe as (_ & ? & _); [done|congruence]|].
      by rewrite Hen. }
  split.
  { intros Hna.
    destruct probe; [destruct Hprobe as (_ & _ & ?); [done|congruence]|].
    split; [done|]. intros ->. simpl. by rewrite Hna. }
  split.
  { intros ->.
    by destruct probe; [destruct Hprobe as (? & _); [done|]|]. }
  split.
  { destruct (probe && bool_decide _)%bool; [done|].
    destruct (e_enabled entry); [|done]. by destruct na. }
  split.
  { destruct probe; [|done].
    destruct Hprobe as (-> & -> & ->); [done|].
    intros Hne. split; [done|].
    by rewrite (bool_decide_eq_false_2 _ Hne). }
  destruct (probe && bool_decide _)%bool; [done|].
  destruct (e_enabled entry); [|done]. by destruct na.
Qed.

Lemma entry_conversion_status_witness :
  ∃ settings,
    convertEntry (λ _, None) (λ _ _ _, None) (λ _ _, None) true
      MoreScenarios.disabledEntry = Ok (None, settings)
    ∧ s_status settings = StatusFailed ∧ s_tools settings = [].
Proof.
  eexists. split; [reflexivity|].
  refine (proj2 (proj1 (proj2 (proj2 (proj2
    (entry_conversion_status (λ _, None) (λ _ _ _, None) (λ _ _, None) true
       MoreScenarios.disabledEntry None _ eq_refl)))) eq_refl)).
Defined.

(** *** The snapshot as a whole *)

Lemma convertAll_Forall2 processEnv fetchMcpToolsStdio fetchMcpTools
    shouldIncludeTools entries converted :
  convertAll processEnv fetchMcpToolsStdio fetchMcpTools
    shouldIncludeTools entries = Ok converted →
  Forall2 (λ entry c,
             convertEntry processEnv fetchMcpToolsStdio fetchMcpTools
               shouldIncludeTools entry = Ok c)
    entries converted.
Proof.
  revert converted. induction entries as [|entry rest IH]; intros converted.
  - intros [= <-]. constructor.
  - cbn [McpSnapshot.convertAll].
    destruct (convertEntry _ _ _ _ entry) as [c|e] eqn:Ec; [|done].
    destruct (McpSnapshot.convertAll _ _ _ _ rest) as [cs|e]; [|done].
    intros [= <-]. constructor; [done|]. by apply IH.
Qed.

Lemma convertEntry_parts processEnv fetchMcpToolsStdio fetchMcpTools
    shouldIncludeTools entry c :
  convertEntry processEnv fetchMcpToolsStdio fetchMcpTools
    shouldIncludeTools entry = Ok c →
  s_name c.2 = e_name entry
  ∧ ∀ server, c.1 = Some server →
              e_enabled entry = true ∧ serverName server = e_name entry.
Proof.
  unfold convertEntry.
  destruct (resolveCodexHttpHeaders processEnv (e_transport entry))
    as [headers|e]; [|done].
  intros [= <-]. split; [done|]. intros server. apply sessionServerOf_Some.
Qed.

Lemma fetchSnapshot_Ok processEnv fetchMcpToolsStdio fetchMcpTools
    getCodexMcpFingerprint runCodexCli parseList lookup shouldIncludeTools
    now snapshot :
  fetchSnapshot processEnv fetchMcpToolsStdio fetchMcpTools
    getCodexMcpFingerprint runCodexCli parseList lookup shouldIncludeTools
    now = Ok snapshot →
  ∃ stdout stderr entries converted,
    runCodexCliChecked
      (runCodexCli ["mcp"; "list"; "--json"]
         (if String.eqb lookup "__global__" then None else Some lookup))
    = Ok (stdout, stderr)
    ∧ parseList stdout = Entries entries
    ∧ convertAll processEnv fetchMcpToolsStdio fetchMcpTools
        shouldIncludeTools entries = Ok converted
    ∧ snapshot
      = {| forSession := omap fst converted;
           groups := [{| groupName := "Global"; projectPath := None;
                         mcpServers := snd <$> converted |}];
           snapshotFingerprint := getCodexMcpFingerprint (omap fst converted);
           fetchedAt := now;
           snapshotToolsResolved := shouldIncludeTools |}.
Proof.
  unfold fetchSnapshot.
  destruct (runCodexCliChecked _) as [[stdout stderr]|e]; [|done].
  destruct (parseList stdout) as [|e|entries] eqn:Ep; [done|done|].
  destruct (McpSnapshot.convertAll _ _ _ _ entries) as [converted|e] eqn:Ec;
    [|done].
  intros [= <-]. by exists stdout, stderr, entries, converted.
Qed.

(** X22: a snapshot [resolveCodexMcpSnapshot] builds lists the
    configured servers.  Its only group is [Global], with one settings
    entry per entry of the CLI's list, in order and under the same
    names.  The servers handed to a session are, in order, servers of
    enabled entries, under the entries' names; disabled entries never
    reach a session.  The fingerprint is that of the session list,
    and [toolsResolved] records whether tools were asked for. *)
Theorem snapshot_lists_enabled_servers
    (processEnv : string → option string)
    (fetchMcpToolsStdio :
       string → option (list string) → option object → option (list value))
    (fetchMcpTools : string → option object → option (list value))
    (getCodexMcpFingerprint : list CodexMcpServerForSession → string)
    (runCodexCli : list string → option string → result CliResult)
    (parseList : string → ParsedList)
    (lookup : string) (shouldIncludeTools : bool) (now : Z)
    (snapshot : Snapshot) :
  fetchSnapshot processEnv fetchMcpToolsStdio fetchMcpTools
    getCodexMcpFingerprint runCodexCli parseList lookup shouldIncludeTools
    now = Ok snapshot →
  ∃ stdout stderr entries servers,
    runCodexCliChecked
      (runCodexCli ["mcp"; "list"; "--json"]
         (if String.eqb lookup "__global__" then None else Some lookup))
    = Ok (stdout, stderr)
    ∧ parseList stdout = Entries entries
    ∧ groups snapshot
      = [{| groupName := "Global"; projectPath := None;
            mcpServers := servers |}]
    ∧ s_name <$> servers = e_name <$> entries
    ∧ serverName <$> forSession snapshot
      `sublist_of` e_name <$> filter (λ entry, e_enabled entry) entries
    ∧ snapshotFingerprint snapshot
      = getCodexMcpFingerprint (forSession snapshot)
    ∧ snapshotToolsResolved snapshot = shouldIncludeTools
    ∧ fetchedAt snapshot = now.
Proof.
  intros (stdout & stderr & entries & converted & Hrun & Hparse & Hconv & ->)
    %fetchSnapshot_Ok.
  exists stdout, stderr, entries, (snd <$> converted).
  split; [done|]. split; [done|]. split; [done|].
  apply convertAll_Forall2 in Hconv. cbn [forSession]. clear Hparse Hrun.
  split; [|split; [|done]].
  - induction Hconv as [|entry c entries converted Hc _ IH]; [done|].
    rewrite !fmap_cons, IH. f_equal.
    by destruct (convertEntry_parts _ _ _ _ _ _ Hc).
  - induction Hconv as [|entry c entries converted Hc _ IH]; [done|].
    destruct (convertEntry_parts _ _ _ _ _ _ Hc) as [_ Hsession].
    destruct c as [[server|] settings]; cbn [omap list_omap fst].
    + destruct (Hsession server eq_refl) as [Hen Hname].
      rewrite filter_cons_True by by rewrite Hen.
      rewrite !fmap_cons, Hname. by apply sublist_skip.
    + destruct (e_enabled entry) eqn:Hen.
      * rewrite filter_cons_True by by rewrite Hen.
        rewrite fmap_cons. by apply sublist_cons.
      * rewrite filter_cons_False by (rewrite Hen; exact id). exact IH.
Qed.

Lemma snapshot_lists_enabled_servers_witness :
  ∃ snapshot,
    fetchSnapshot (λ _, None) (λ _ _ _, None) (λ _ _, None) (λ _, "fp")
      (λ _ _, Ok {| stdout := "[]"; stderr := ""; exitCode := Some 0 |})
      (λ _, Entries [MoreScenarios.disabledEntry;
                     MoreScenarios.loggedOutEntry])
      "__global__" false 0 = Ok snapshot
    ∧ serverName <$> forSession snapshot `sublist_of` ["tracker"].
Proof.
  eexists. split; [reflexivity|].
  destruct (snapshot_lists_enabled_servers
              (λ _, None) (λ _ _ _, None) (λ _ _, None) (λ _, "fp")
              (λ _ _, Ok {| stdout := "[]"; stderr := "";
                            exitCode := Some 0 |})
              (λ _, Entries [MoreScenarios.disabledEntry;
                             MoreScenarios.loggedOutEntry])
              "__global__" false 0 _ eq_refl)
    as (stdout & stderr & entries & servers & _ & Hparse & _ & _ & Hsub & _).
  injection Hparse as <-. exact Hsub.
Defined.

(** *** The cache *)

(** X23: the cache policy of [resolveCodexMcpSnapshot].  The cache is
    keyed by the trimmed lookup path, [__global__] when blank or
    absent.  A cached snapshot is returned, without running the CLI,
    exactly when no refresh is forced and the caller does not ask for
    tools or the cached snapshot has them; so a caller that asks for
    tools never gets a snapshot without them.  Otherwise the list is
    fetched: on success the snapshot replaces the cache entry of its
    key and is returned by later calls for that key that it satisfies;
    on failure the cache keeps what it had.  Other keys are never
    touched, and after [clearCodexMcpCache] every call fetches. *)
Theorem snapshot_cache_policy
    (processEnv : string → option string)
    (fetchMcpToolsStdio :
       string → option (list string) → option object → option (list value))
    (fetchMcpTools : string → option object → option (list value))
    (getCodexMcpFingerprint : list CodexMcpServerForSession → string)
    (runCodexCli : list string → option string → result CliResult)
    (parseList : string → ParsedList)
    (params : SnapshotParams) (now : Z)
    (codexMcpCache : gmap string Snapshot) :
  let resolve :=
    resolveCodexMcpSnapshot processEnv fetchMcpToolsStdio fetchMcpTools
      getCodexMcpFingerprint runCodexCli parseList in
  let lookup := resolveCodexLookupPath (lookupPath params) in
  let fetched :=
    fetchSnapshot processEnv fetchMcpToolsStdio fetchMcpTools
      getCodexMcpFingerprint runCodexCli parseList lookup
      (includeTools params) now in
  let hit :=
    match codexMcpCache !! lookup with
    | Some cached =>
        (negb (forceRefresh params)
         && (negb (includeTools params) || snapshotToolsResolved cached))%bool
    | None => false
    end in
  match resolve params now codexMcpCache with
  | (cache', Ok snapshot) =>
      (includeTools params = true → snapshotToolsResolved snapshot = true)
      ∧ cache' !! lookup = Some snapshot
      ∧ (∀ other, other ≠ lookup → cache' !! other = codexMcpCache !! other)
      ∧ (if hit
         then cache' = codexMcpCache
              ∧ codexMcpCache !! lookup = Some snapshot
         else fetched = Ok snapshot)
      ∧ ∀ later now',
          resolveCodexLookupPath (lookupPath later) = lookup →
          forceRefresh later = false →
          (includeTools later = true → snapshotToolsResolved snapshot = true) →
          resolve later now' cache' = (cache', Ok snapshot)
  | (cache', Throw e) =>
      cache' = codexMcpCache ∧ hit = false ∧ fetched = Throw e
  end
  ∧ resolve params now (clearCodexMcpCache codexMcpCache)
    = match fetched with
      | Ok snapshot => (<[lookup := snapshot]> ∅, Ok snapshot)
      | Throw e => (∅, Throw e)
      end.
Proof.
  cbv zeta.
  assert (Hlater : ∀ cache snapshot later now',
            cache !! resolveCodexLookupPath (lookupPath params) = Some snapshot →
            resolveCodexLookupPath (lookupPath later)
            = resolveCodexLookupPath (lookupPath params) →
            forceRefresh later = false →
            (includeTools later = true →
             snapshotToolsResolved snapshot = true) →
            resolveCodexMcpSnapshot processEnv fetchMcpToolsStdio
              fetchMcpTools getCodexMcpFingerprint runCodexCli parseList
              later now' cache = (cache, Ok snapshot)).
  { intros cache snapshot later now' Hc Hkey Hforce Htools.
    unfold resolveCodexMcpSnapshot. rewrite Hkey, Hc, Hforce. cbn [negb andb].
    destruct (includeTools later); cbn [negb orb]; [|done].
    by rewrite Htools. }
  split.
  - unfold resolveCodexMcpSnapshot.
    set (lookup := resolveCodexLookupPath (lookupPath params)) in *.
    destruct (codexMcpCache !! lookup) as [cached|] eqn:Ec.
    + destruct (negb (forceRefresh params)
                && (negb (includeTools params)
                    || snapshotToolsResolved cached))%bool eqn:Ehit.
      * apply andb_true_iff in Ehit as [Hforce Htools].
        split; [|split; [done|split; [done|split; [done|]]]].
        -- intros Hinc. rewrite Hinc in Htools. done.
        -- intros later now'. by apply Hlater.
      * destruct (fetchSnapshot _ _ _ _ _ _ lookup _ now) as [snapshot|e]
          eqn:Ef; [|done].
        destruct (fetchSnapshot_Ok _ _ _ _ _ _ _ _ _ _ Ef)
          as (? & ? & ? & ? & _ & _ & _ & Hsnap).
        split; [intros Hinc; by rewrite Hsnap|].
        split; [apply lookup_insert_eq|].
        split; [intros other Hne; by apply lookup_insert_ne|].
        split; [done|].
        intros later now'. apply Hlater. apply lookup_insert_eq.
    + destruct (fetchSnapshot _ _ _ _ _ _ lookup _ now) as [snapshot|e]
        eqn:Ef; [|done].
      destruct (fetchSnapshot_Ok _ _ _ _ _ _ _ _ _ _ Ef)
        as (? & ? & ? & ? & _ & _ & _ & Hsnap).
      split; [intros Hinc; by rewrite Hsnap|].
      split; [apply lookup_insert_eq|].
      split; [intros other Hne; by apply lookup_insert_ne|].
      split; [done|].
      intros later now'. apply Hlater. apply lookup_insert_eq.
  - unfold resolveCodexMcpSnapshot, clearCodexMcpCache.
    rewrite lookup_empty. by destruct (fetchSnapshot _ _ _ _ _ _ _ _ now).
Qed.

Lemma snapshot_cache_policy_witness :
  ∃ snapshot cache',
    resolveCodexMcpSnapshot (λ _, None) (λ _ _ _, None) (λ _ _, None)
      (λ _, "fp")
      (λ _ _, Ok {| stdout := "[]"; stderr := ""; exitCode := Some 0 |})
      (λ _, Entries [MoreScenarios.loggedOutEntry])
      {| lookupPath := Some " /repo "; forceRefresh := false;
         includeTools := true |} 0 ∅
    = (cache', Ok snapshot)
    ∧ resolveCodexMcpSnapshot (λ _, None) (λ _ _ _, None) (λ _ _, None)
        (λ _, "fp")
        (λ _ _, Ok {| stdout := "[]"; stderr := ""; exitCode := Some 0 |})
        (λ _, Entries [MoreScenarios.loggedOutEntry])
        {| lookupPath := Some "/repo"; forceRefresh := false;
           includeTools := false |} 1 cache'
      = (cache', Ok snapshot).
Proof.
  pose proof (snapshot_cache_policy (λ _, None) (λ _ _ _, None) (λ _ _, None)
                (λ _, "fp")
                (λ _ _, Ok {| stdout := "[]"; stderr := "";
                              exitCode := Some 0 |})
                (λ _, Entries [MoreScenarios.loggedOutEntry])
                {| lookupPath := Some " /repo "; forceRefresh := false;
                   includeTools := true |} 0 ∅) as [H _].
  cbv zeta in H.
  destruct (resolveCodexMcpSnapshot _ _ _ _ _ _ _ 0 ∅) as [cache' [snapshot|e]]
    eqn:E.
  - exists snapshot, cache'. split; [reflexivity|].
    destruct H as (_ & _ & _ & _ & Hlater).
    apply Hlater; [reflexivity|reflexivity|discriminate].
  - vm_compute in E. discriminate E.
Defined.

Lemma resolve_cache_frame processEnv fetchMcpToolsStdio fetchMcpTools
    getCodexMcpFingerprint runCodexCli parseList params now
    (codexMcpCache cache' : gmap string Snapshot) outcome :
  resolveCodexMcpSnapshot processEnv fetchMcpToolsStdio fetchMcpTools
    getCodexMcpFingerprint runCodexCli parseList params now codexMcpCache
  = (cache', outcome) →
  (∀ other, other ≠ resolveCodexLookupPath (lookupPath params) →
            cache' !! other = codexMcpCache !! other)
  ∧ match outcome with
    | Ok snapshot =>
        cache' !! resolveCodexLookupPath (lookupPath params) = Some snapshot
    | Throw _ => cache' = codexMcpCache
    end.
Proof.
  unfold resolveCodexMcpSnapshot.
  set (lookup := resolveCodexLookupPath (lookupPath params)).
  assert (Hfetch :
    match fetchSnapshot processEnv fetchMcpToolsStdio fetchMcpTools
            getCodexMcpFingerprint runCodexCli parseList lookup
            (includeTools params) now with
    | Ok snapshot => (<[lookup:=snapshot]> codexMcpCache, Ok snapshot)
    | Throw e => (codexMcpCache, Throw e)
    end = (cache', outcome) →
    (∀ other, other ≠ lookup → cache' !! other = codexMcpCache !! other)
    ∧ match outcome with
      | Ok snapshot => cache' !! lookup = Some snapshot
      | Throw _ => cache' = codexMcpCache
      end).
  { destruct (fetchSnapshot _ _ _ _ _ _ _ _ _) as [snapshot|e];
      intros [= <- <-].
    - split; [intros other Hne; by apply lookup_insert_ne|].
      apply lookup_insert_eq.
    - done. }
  destruct (codexMcpCache !! lookup) as [cached|] eqn:Ec; [|exact Hfetch].
  destruct (negb (forceRefresh params) && _)%bool; [|exact Hfetch].
  by intros [= <- <-].
Qed.

(** *** Mutations of the server list *)

Lemma orUndefined_Some (s : option string) (t : string) :
  orUndefined s = Some t → s = Some t ∧ t ≠ "".
Proof.
  destruct s as [u|]; [|done]. simpl.
  destruct (nonempty u) eqn:E; [|done]. intros [= <-].
  split; [done|]. by apply nonempty_spec.
Qed.

(** X24: the mutations of the tool-server list.  [addMcpServer] runs
    the CLI only after its validation passed: for a stdio server with
    [mcp add <name> -- <command> <args...>], command and arguments
    after the [--] separator, for an HTTP server with
    [mcp add <name> --url <url>], command and URL trimmed and not
    empty; a project-scoped request and a missing command or URL fail
    without a CLI run.  [addMcpServer], [startMcpOAuth] and
    [logoutMcpServer] empty the snapshot cache when the CLI exited
    with code 0 and leave it as it is otherwise; the last two do not
    throw but report the failure text. *)
Theorem mutations_clear_cache_on_success
    (runCodexCli : list string → option string → result CliResult)
    (input : AddMcpServerInput) (verb serverName : string)
    (projectPath : option string) (codexMcpCache : gmap string Snapshot) :
  match addMcpServer runCodexCli input codexMcpCache with
  | (cache', Ok _) =>
      cache' = ∅ ∧ add_scope input = GlobalScope
      ∧ ∃ args r,
          addMcpServerArgs input = Ok args
          ∧ runCodexCli args None = Ok r ∧ exitCode r = Some 0
          ∧ match add_transport input with
            | AddStdio =>
                ∃ command,
                  trim <$> add_command input = Some command ∧ command ≠ ""
                  ∧ args = ["mcp"; "add"; trim (add_name input); "--";
                            command] ++ default [] (add_args input)
            | AddHttp =>
                ∃ url,
                  trim <$> add_url input = Some url ∧ url ≠ ""
                  ∧ args = ["mcp"; "add"; trim (add_name input); "--url";
                            url]
            end
  | (cache', Throw e) =>
      cache' = codexMcpCache
      ∧ (addMcpServerArgs input = Throw e →
         ∀ otherCli,
           addMcpServer otherCli input codexMcpCache
           = (codexMcpCache, Throw e))
  end
  ∧ match authCommand runCodexCli verb serverName projectPath codexMcpCache
    with
    | (cache', response) =>
        if auth_success response
        then cache' = ∅ ∧ auth_error response = None
             ∧ ∃ r, runCodexCli ["mcp"; verb; trim serverName]
                      (orUndefined (trim <$> projectPath)) = Ok r
                    ∧ exitCode r = Some 0
        else cache' = codexMcpCache
             ∧ ∃ error,
                 runCodexCliChecked
                   (runCodexCli ["mcp"; verb; trim serverName]
                      (orUndefined (trim <$> projectPath))) = Throw error
                 ∧ auth_error response
                   = Some (message (extractCodexError error))
    end.
Proof.
  split.
  - unfold addMcpServer.
    destruct (addMcpServerArgs input) as [args|e] eqn:Eargs.
    + destruct (runCodexCliChecked (runCodexCli args None)) as [out|e] eqn:Erun.
      * split; [done|].
        unfold addMcpServerArgs in Eargs.
        destruct (add_scope input); [|done]. split; [done|].
        unfold runCodexCliChecked in Erun.
        destruct (runCodexCli args None) as [r|e] eqn:Ecli; [|done].
        unfold exitedWithZero in Erun.
        destruct (bool_decide_reflect (exitCode r = Some 0)) as [Hz|]; [|done].
        exists args, r. split; [done|]. split; [done|]. split; [done|].
        destruct (add_transport input).
        -- destruct (orUndefined (trim <$> add_command input)) as [command|]
             eqn:Ec; [|done].
           apply orUndefined_Some in Ec as [Ec Hne].
           injection Eargs as <-. by exists command.
        -- destruct (orUndefined (trim <$> add_url input)) as [url|]
             eqn:Eu; [|done].
           apply orUndefined_Some in Eu as [Eu Hne].
           injection Eargs as <-. by exists url.
      * split; [done|]. intros Hcontra. discriminate Hcontra.
    + split; [done|]. by intros _ otherCli.
  - unfold authCommand.
    destruct (runCodexCliChecked _) as [out|error] eqn:Erun; simpl.
    + split; [done|]. split; [done|].
      unfold runCodexCliChecked in Erun.
      destruct (runCodexCli _ _) as [r|e] eqn:Ecli; [|done].
      unfold exitedWithZero in Erun.
      destruct (bool_decide_reflect (exitCode r = Some 0)) as [Hz|]; [|done].
      by exists r.
    + split; [done|]. by exists error.
Qed.

End McpSnapshotProperties.

(* ===================================================================== *)
(** ** Properties of the components together                              *)
(* ===================================================================== *)

Module WiringProperties.
Import JsString Js Codex JsObject McpServers CodexCli McpSnapshot Wiring.
Import RegistryProperties PoolProperties StringProperties.
Import McpSnapshotProperties.

(** *** The tool servers of a turn *)

Lemma respects_ret_bind (R : relation State) {A B} (x : A) (f : A → M B) :
  respects R (f x) → respects R (mret x ≫= f).
Proof. intros Hf s. apply Hf. Qed.

Lemma respects_seq_ret_bind (R : relation State) `{!PreOrder R} {A B}
    (m : M unit) (x : A) (f : A → M B) :
  respects R m → respects R (f x) → respects R ((m;; mret x) ≫= f).
Proof.
  intros Hm Hf s. unfold mbind, M_bind, mret, M_ret.
  specialize (Hm s). destruct (m s) as [s1 [[]|e]]; simpl in *.
  - etrans; [exact Hm|apply Hf].
  - exact Hm.
Qed.

Ltac known_snapshot_step :=
  match goal with
  | |- respects _ (mbind _ (mret _)) => apply respects_ret_bind
  | |- respects _ (mbind _ (mbind (λ _, mret _) _)) =>
      apply respects_seq_ret_bind; [tc_solve| |]
  | _ => respects_step
  end.

Lemma spawns_chatBody_with (P : ProviderConfig → Prop) X input ctl sc :
  (∀ ms, P (providerConfigFor X
              (chatProviderParams input ms
                 (default (defaultMcpSnapshot X) (sc_mcp sc))))) →
  respects (emitsOnly (spawnOk P)) (chatBody X input ctl sc).
Proof.
  unfold chatBody, chatTry, chatCatch, chatBuild, acquireSession,
    appendUserTurn.
  destruct (sc_mcp sc) as [snapshot|]; intros HP; cbn [default] in HP;
    repeat first
      [ solve [eauto using spawns_safeEmit, spawns_safeComplete,
                 spawns_releaseRun, spawns_readLoop, spawns_dbUpdateMessages,
                 spawns_cleanupProvider, spawns_getOrCreateProvider]
      | known_snapshot_step ].
Qed.

(** X25: the tool servers of a turn are the ones [chat] resolved for
    it.  [chat] asks for the snapshot of the project path of the
    request (else the project of the working tree, else the working
    directory), without forcing a refresh and without tools.  Every
    provider the turn constructs is configured with the session
    servers of that snapshot and the working directory of the
    request, and with no tool server at all when the resolution threw.
    The resolution touches the cache at the key of that path only,
    where it leaves the snapshot it returned. *)
Theorem turn_gets_the_resolved_servers
    (processEnv : string → option string)
    (fetchMcpToolsStdio :
       string → option (list string) → option object → option (list value))
    (fetchMcpTools : string → option object → option (list value))
    (getCodexMcpFingerprint : list CodexMcpServerForSession → string)
    (runCodexCli : list string → option string → result CliResult)
    (parseList : string → ParsedList)
    (X : Externals) (input : ChatInput)
    (resolvedProjectPathFromCwd : result (option string)) (now : Z)
    (codexMcpCache : gmap string Snapshot)
    (ctl : nat) (sc : TurnScript) (s : State) :
  let resolved :=
    chatResolveMcp processEnv fetchMcpToolsStdio fetchMcpTools
      getCodexMcpFingerprint runCodexCli parseList input
      resolvedProjectPathFromCwd now codexMcpCache in
  sc_mcp sc = resolved.2 →
  (∀ pid cfg,
      EvProviderCreate pid cfg ∈ trace (chatBody X input ctl sc s).1 →
      EvProviderCreate pid cfg ∈ trace s
      ∨ (session_mcpServers cfg = turnServers X resolved.2
         ∧ session_cwd cfg = in_cwd input))
  ∧ (resolved.2 = None → turnServers X resolved.2 = [])
  ∧ match resolvedProjectPathFromCwd with
    | Throw _ => resolved = (codexMcpCache, None)
    | Ok path =>
        let key := resolveCodexLookupPath (Some (chatMcpLookupPath input path)) in
        (∀ other, other ≠ key →
                  resolved.1 !! other = codexMcpCache !! other)
        ∧ match resolved.2 with
          | Some snapshot =>
              ∃ full, resolved.1 !! key = Some full
                      ∧ forTurn full = snapshot
          | None => resolved.1 = codexMcpCache
          end
    end.
Proof.
  cbv zeta. intros Hmcp. split; [|split].
  - intros pid cfg Hin.
    destruct (spawns_chatBody_with
                (λ cfg, session_mcpServers cfg
                        = turnServers X (sc_mcp sc)
                        ∧ session_cwd cfg = in_cwd input)
                X input ctl sc (λ _, conj eq_refl eq_refl) s)
      as (evs & Ht & Hevs).
    rewrite Ht in Hin. apply elem_of_app in Hin as [Hin|Hin]; [by left|].
    right. rewrite <- Hmcp. exact (Hevs _ Hin).
  - by intros ->.
  - unfold chatResolveMcp.
    destruct resolvedProjectPathFromCwd as [path|e]; [|done].
    destruct (resolveCodexMcpSnapshot _ _ _ _ _ _ _ now codexMcpCache)
      as [cache' outcome] eqn:E.
    apply resolve_cache_frame in E as [Hframe Hout].
    cbn [lookupPath] in Hframe, Hout.
    destruct outcome as [snapshot|e]; cbn [fst snd].
    + split; [exact Hframe|]. by exists snapshot.
    + split; [exact Hframe|done].
Qed.

Lemma turn_gets_the_resolved_servers_witness :
  ∃ full,
    (chatResolveMcp (λ _, None) (λ _ _ _, None) (λ _ _, None)
       (λ _, "mcp:none")
       (λ _ _, Ok {| stdout := "[]"; stderr := ""; exitCode := Some 0 |})
       (λ _, Entries [MoreScenarios.disabledEntry])
       Scenario.inputA (Ok None) 0 ∅).1 !! "/repo" = Some full
    ∧ forTurn full = Scenario.demoSnapshot.
Proof.
  exact (proj2 (proj2 (proj2 (turn_gets_the_resolved_servers
    (λ _, None) (λ _ _ _, None) (λ _ _, None) (λ _, "mcp:none")
    (λ _ _, Ok {| stdout := "[]"; stderr := ""; exitCode := Some 0 |})
    (λ _, Entries [MoreScenarios.disabledEntry])
    Scenario.demoExternals Scenario.inputA (Ok None) 0 ∅ 1
    (Scenario.okScript []) Scenario.startedA eq_refl)))).
Defined.

(** *** Credentials after an authentication error *)

(** X26: what counts as a credential when the transport handles an
    [auth-error].  The subscription is read from the CLI alone: it
    counts exactly when [codex login status] ran and its lower-cased
    output mentions a ChatGPT login; an API-key login of the CLI, a
    failed status query and the stored onboarding flags do not count.
    The API key counts exactly when the stored key is not empty.  With
    neither, the retry is staged as not ready and the login prompt is
    opened, without a toast. *)
Theorem credentials_after_auth_error (statusRun : result CliResult)
    (send : Transport.Send) (st : Transport.ClientState)
    (c : Transport.StreamController) :
  let answer := integrationAnswer statusRun in
  let credentials :=
    Transport.resolveCodexCredentialsForAuthError answer st in
  (Transport.hasSubscription credentials = true
   ↔ ∃ r, statusRun = Ok r
          ∧ includes "logged in using chatgpt"
              (toLowerCase (combinedOutput r)) = true)
  ∧ Transport.hasApiKey credentials = nonempty (Transport.codexApiKey st)
  ∧ Transport.hasAny credentials
    = (Transport.hasApiKey credentials
       || Transport.hasSubscription credentials)%bool
  ∧ (Transport.hasAny credentials = false →
     let st' := (Transport.onAuthError send answer st c).1 in
     Transport.codexLoginModalOpenAtom st' = true
     ∧ (Transport.readyToRetry <$> Transport.pendingAuthRetryMessageAtom st')
       = Some false
     ∧ Transport.toasts st' = Transport.toasts st).
Proof.
  cbv zeta. split; [|split; [done|split; [done|]]].
  - unfold integrationAnswer, Transport.resolveCodexCredentialsForAuthError.
    cbn [Transport.hasSubscription].
    destruct statusRun as [r|e]; cbn [getIntegration i_state].
    + unfold normalizeCodexIntegrationState.
      destruct (includes "logged in using chatgpt"
                  (toLowerCase (combinedOutput r))) eqn:E1.
      * split; [|done]. intros _. by exists r.
      * split.
        -- destruct (includes "logged in using an api key" _
                     || includes "logged in using api key" _)%bool; [done|].
           by destruct (includes "not logged in" _).
        -- intros (r' & [= <-] & Hr). congruence.
    + split; [done|]. by intros (r & Hr & _).
  - intros Hany. unfold Transport.onAuthError.
    rewrite !TransportProperties.credentials_ignore_flags, Hany. done.
Qed.

Lemma credentials_after_auth_error_witness :
  Transport.codexLoginModalOpenAtom
    (Transport.onAuthError Scenario.firstSend
       (integrationAnswer
          (Ok {| stdout := "Logged in using an API key - sk-***";
                 stderr := ""; exitCode := Some 0 |}))
       (Transport.set_forceFresh (λ flags, flags)
          {| Transport.forceFreshSessionSubChats := ∅;
             Transport.codexApiKey := "";
             Transport.codexOnboardingCompletedAtom := true;
             Transport.codexOnboardingAuthMethodAtom := "chatgpt";
             Transport.pendingAuthRetryMessageAtom := None;
             Transport.codexLoginModalOpenAtom := false;
             Transport.sessionInfoAtom := None;
             Transport.toasts := [];
             Transport.cleanupCalls := [] |})
       Scenario.openController).1
  = true.
Proof.
  apply (proj2 (proj2 (proj2 (credentials_after_auth_error
    (Ok {| stdout := "Logged in using an API key - sk-***";
           stderr := ""; exitCode := Some 0 |})
    Scenario.firstSend _ Scenario.openController)))).
  reflexivity.
Defined.

(** *** A failed turn, seen from the client *)

(** X27: a turn that fails before it streams, as the caller of
    [sendMessages] sees it.  When Building throws (the sub-chat is
    missing, the provider cannot be constructed), a listening
    subscriber receives the error chunk and a [finish] chunk, then
    completion.  Fed to the transport, a generic error is shown as a
    toast and the stream carries both chunks and closes; an
    authentication error is withheld, the stream is errored with
    [Codex authentication required], the sub-chat is flagged for a
    fresh session and the router is asked to clean it up. *)
Theorem failed_turn_reaches_the_client (X : Externals) (input : ChatInput)
    (ctl : nat) (sc : TurnScript) (s : State) (o : Observer) (e : value)
    (send : Transport.Send)
    (integration : option Transport.CodexIntegrationState)
    (st : Transport.ClientState) (c : Transport.StreamController) :
  listening s ctl o → emitted o = [] →
  (chatBuild X input sc s).2 = Throw e →
  Transport.status c = Transport.Readable →
  let normalized := extractCodexError e in
  ∃ o',
    observers (chatBody X input ctl sc s).1 !! ctl = Some o'
    ∧ emitted o' = [caughtChunk e; finishChunk]
    ∧ completed o' = true
    ∧ let client :=
        ChatTransport.feed send
          (((λ chunk, ChatTransport.OnData chunk integration) <$> emitted o')
           ++ [ChatTransport.OnComplete]) (st, c) in
      if isCodexAuthError (asParams normalized)
      then Transport.enqueued client.2 = Transport.enqueued c
           ∧ Transport.status client.2
             = Transport.Errored "Codex authentication required"
           ∧ Transport.send_subChatId send
             ∈ Transport.forceFreshSessionSubChats client.1
           ∧ Transport.cleanupCalls client.1
             = Transport.cleanupCalls st ++ [Transport.send_subChatId send]
      else Transport.enqueued client.2
           = Transport.enqueued c ++ [caughtChunk e; finishChunk]
           ∧ Transport.status client.2 = Transport.Closed
           ∧ Transport.toasts client.1
             = Transport.toasts st
               ++ [{| Transport.title := "Codex error";
                      Transport.description :=
                        or_else (VStr (message normalized))
                          (VStr "An unexpected Codex error occurred.") |}]
           ∧ Transport.forceFreshSessionSubChats client.1
             = Transport.forceFreshSessionSubChats st.
Proof.
  intros Hl Hempty Hbuild Hc. cbv zeta.
  exists (finished o (turnOutput X input sc s)).
  split; [by apply TurnProperties.chatBody_output|].
  assert (Hout : turnOutput X input sc s = [caughtChunk e; finishChunk]).
  { unfold turnOutput. destruct (chatBuild X input sc s) as [s1 [r|e']];
      simpl in Hbuild; [done|]. by injection Hbuild as ->. }
  rewrite Hout. cbn [finished emitted completed]. rewrite Hempty.
  split; [done|]. split; [done|].
  cbn [app fmap list_fmap]. unfold ChatTransport.feed. cbn [foldl].
  unfold caughtChunk.
  destruct (isCodexAuthError (asParams (extractCodexError e))) eqn:Eauth.
  - unfold ChatTransport.subStep.
    rewrite TransportProperties.onData_auth_error by reflexivity.
    unfold Transport.onAuthError.
    rewrite !TransportProperties.credentials_ignore_flags.
    set (credentials :=
           Transport.resolveCodexCredentialsForAuthError integration st).
    unfold Transport.controllerError. rewrite Hc.
    destruct (Transport.hasAny credentials);
      [destruct (Transport.send_forceNewSession send)|];
      cbn; (split; [done|]); (split; [done|]);
      (split; [|done]); rewrite elem_of_union, elem_of_singleton; by left.
  - cbn. unfold Transport.controllerEnqueue, Transport.controllerClose.
    rewrite Hc. cbn. by rewrite <- app_assoc.
Qed.

Lemma failed_turn_reaches_the_client_witness :
  ∃ o',
    observers
      (chatBody Scenario.demoExternals MoreScenarios.inputOther 1
         (Scenario.okScript []) Scenario.startedA).1 !! 1%nat = Some o'
    ∧ emitted o'
      = [caughtChunk (VError "Error" "Sub-chat not found" []); finishChunk].
Proof.
  destruct (failed_turn_reaches_the_client Scenario.demoExternals
              MoreScenarios.inputOther 1 (Scenario.okScript [])
              Scenario.startedA Scenario.freshObserver
              (VError "Error" "Sub-chat not found" [])
              Scenario.firstSend None Scenario.clientWithKey
              Scenario.openController)
    as (o' & Ho & He & _).
  - by repeat split.
  - reflexivity.
  - reflexivity.
  - reflexivity.
  - by exists o'.
Defined.

(** *** The send after an authentication error *)

Lemma acquireSession_forced X input sc ms (s : State) old :
  in_forceNewSession input = true →
  providerSessions s !! in_subChatId input = Some old →
  trace (acquireSession X input sc ms s).1
  = trace s
    ++ [EvProviderCleanup (provider_id (provider old));
        EvSessionsDelete (in_subChatId input)]
    ++ match sc_mcp sc with
       | Some _ => []
       | None => [EvLog "[codex] Failed to resolve MCP servers:"]
       end
    ++ match sc_spawnError sc with
       | Some _ => []
       | None =>
           [EvProviderCreate (nextId s)
              (providerConfigFor X
                 (chatProviderParams input ms
                    (match sc_mcp sc with
                     | Some snapshot => snapshot
                     | None => defaultMcpSnapshot X
                     end)));
            EvSessionsSet (in_subChatId input) (nextId s)]
       end.
Proof.
  intros Hforce Hold. unfold acquireSession. rewrite Hforce. cbn [when].
  unfold mbind at 1, M_bind at 1.
  destruct (cleanupProvider_run (in_subChatId input) s)
    as (s2 & -> & Hps & _ & _ & _ & Hn & Ht).
  unfold teardownEvents in Ht. rewrite Hold in Ht.
  assert (Hacquire : ∀ snapshot (s3 : State),
            providerSessions s3 = providerSessions s2 →
            nextId s3 = nextId s2 →
            trace (getOrCreateProvider X (sc_spawnError sc)
                     (chatProviderParams input ms snapshot) s3).1
            = trace s3
              ++ match sc_spawnError sc with
                 | Some _ => []
                 | None =>
                     [EvProviderCreate (nextId s)
                        (providerConfigFor X
                           (chatProviderParams input ms snapshot));
                      EvSessionsSet (in_subChatId input) (nextId s)]
                 end).
  { intros snapshot s3 Hps3 Hn3.
    assert (Hnone : providerSessions s3
                    !! p_subChatId (chatProviderParams input ms snapshot)
                    = None).
    { simpl. by rewrite Hps3, Hps, lookup_delete_eq. }
    destruct (sc_spawnError sc) as [err|].
    - destruct (getOrCreateProvider_spawn_fails X
                  (chatProviderParams input ms snapshot) err s3)
        as (s' & -> & _ & _ & Ht').
      { intros e He. rewrite Hnone in He. discriminate He. }
      simpl. rewrite Ht'. unfold teardownEvents. by rewrite Hnone.
    - destruct (getOrCreateProvider_create X
                  (chatProviderParams input ms snapshot) s3 Hnone)
        as (s' & -> & _ & Ht' & _).
      simpl. by rewrite Ht', Hn3, Hn. }
  destruct (sc_mcp sc) as [snapshot|].
  - unfold mbind at 1, M_bind at 1, mret, M_ret. cbv beta iota.
    rewrite (Hacquire snapshot s2 eq_refl eq_refl), Ht.
    by rewrite <- !app_assoc.
  - unfold mbind, M_bind, mret, M_ret, emitEvent, modify. cbv beta iota.
    rewrite (Hacquire (defaultMcpSnapshot X)
               (log (EvLog "[codex] Failed to resolve MCP servers:") s2)
               eq_refl eq_refl).
    simpl. rewrite Ht. by rewrite <- !app_assoc.
Qed.

(** X28: the send that follows an authentication error starts a fresh
    Codex session.  The [auth-error] chunk flags the sub-chat; for a
    request that carries the flag the next send reads, every provider
    the router constructs is configured without a session to resume,
    whatever session id the request or the transcript names.  A
    provider session the pool still holds for the sub-chat is cleaned
    up before the turn acquires its own: after the transcript update,
    Building logs the cleanup of the old provider and the removal of
    its pool entry, then the tool-resolution failure if there was one,
    and only then the construction of the new provider and its pool
    entry, or nothing more when the construction throws. *)
Theorem send_after_auth_error_starts_fresh (send : Transport.Send)
    (integration : option Transport.CodexIntegrationState) (chunk : value)
    (st : Transport.ClientState) (c : Transport.StreamController)
    (X : Externals) (input : ChatInput) (ctl : nat) (sc : TurnScript)
    (s : State) :
  isStr (get "type" chunk) "auth-error" = true →
  let st' := (Transport.onData send integration chunk st c).1 in
  let next := Transport.takeForceNewSession (Transport.send_subChatId send) st' in
  in_forceNewSession input = next.1 →
  in_forceNewSession input = true
  ∧ (∀ pid cfg,
        EvProviderCreate pid cfg ∈ trace (chatBody X input ctl sc s).1 →
        EvProviderCreate pid cfg ∈ trace s ∨ existingSessionId cfg = None)
  ∧ (∀ old column,
        providerSessions s !! in_subChatId input = Some old →
        subChats s !! in_subChatId input = Some column →
        let cfg :=
          providerConfigFor X
            (chatProviderParams input (parseStoredMessages column)
               (match sc_mcp sc with
                | Some snapshot => snapshot
                | None => defaultMcpSnapshot X
                end)) in
        existingSessionId cfg = None
        ∧ ∃ (stored : list event) (pid : nat),
            (∀ ev, ev ∈ stored →
                   ∃ ms, ev = EvDbUpdate (in_subChatId input) ms)
            ∧ trace (chatBuild X input sc s).1
              = trace s ++ stored
                ++ [EvProviderCleanup (provider_id (provider old));
                    EvSessionsDelete (in_subChatId input)]
                ++ match sc_mcp sc with
                   | Some _ => []
                   | None => [EvLog "[codex] Failed to resolve MCP servers:"]
                   end
                ++ match sc_spawnError sc with
                   | Some _ => []
                   | None =>
                       [EvProviderCreate pid cfg;
                        EvSessionsSet (in_subChatId input) pid]
                   end).
Proof.
  intros Hty. cbv zeta. intros Hflag.
  assert (Hforce : in_forceNewSession input = true).
  { rewrite Hflag, (TransportProperties.onData_auth_error _ _ _ _ _ Hty).
    apply TransportProperties.takeForceNewSession_flagged.
    unfold Transport.onAuthError.
    rewrite !TransportProperties.credentials_ignore_flags.
    destruct (negb (Transport.hasAny _)); [|destruct (negb (_ && _))];
      simpl; rewrite elem_of_union, elem_of_singleton; by left. }
  assert (Hfresh : ∀ ms snapshot,
            existingSessionId
              (providerConfigFor X (chatProviderParams input ms snapshot))
            = None).
  { intros ms snapshot. unfold providerConfigFor, chatProviderParams.
    cbn. rewrite Hforce. by destruct (hasAppManagedApiKey _). }
  split; [exact Hforce|]. split.
  - intros pid cfg Hin.
    destruct (spawns_chatBody (λ cfg, existingSessionId cfg = None)
                X input ctl sc Hfresh) with (s := s) as (evs & Ht & Hevs).
    rewrite Ht in Hin. apply elem_of_app in Hin as [Hin|Hin]; [by left|].
    right. exact (Hevs _ Hin).
  - intros old column Hold Hcolumn. split; [apply Hfresh|].
    set (existing := parseStoredMessages column).
    set (model := preprocessCodexModelName
                    (default DEFAULT_CODEX_MODEL
                       (extractCodexModelId (in_model input)))
                    (in_authConfig input)).
    assert (Hstored : ∃ s1 ms1 stored,
              appendUserTurn X input existing model s = (s1, Ok ms1)
              ∧ providerSessions s1 = providerSessions s
              ∧ trace s1 = trace s ++ stored
              ∧ ∀ ev, ev ∈ stored →
                      ∃ ms, ev = EvDbUpdate (in_subChatId input) ms).
    { destruct (TurnProperties.appendUserTurn_total X input existing model s)
        as (s1 & ms1 & E & Hp).
      destruct (isDuplicatePrompt existing (in_prompt input)) eqn:Edup.
      - rewrite (TurnProperties.appendUserTurn_duplicate _ _ _ _ _ Edup) in E.
        injection E as <- <-. exists s, existing, [].
        rewrite app_nil_r.
        split; [by apply TurnProperties.appendUserTurn_duplicate|].
        split; [done|]. split; [done|]. by intros ev Hev%elem_of_nil.
      - destruct (TurnProperties.appendUserTurn_fresh X input existing model
                    column s Edup Hcolumn) as (s1' & E' & _ & Ht1).
        rewrite E in E'. injection E' as <- ->.
        eexists s1, _, _. split; [exact E|]. split; [exact Hp|].
        split; [exact Ht1|].
        intros ev ->%list_elem_of_singleton. eauto. }
    destruct Hstored as (s1 & ms1 & stored & E & Hp & Ht1 & Hdb).
    exists stored, (nextId s1). split; [exact Hdb|].
    rewrite <- Hp in Hold.
    pose proof (acquireSession_forced X input sc existing s1 old Hforce Hold)
      as Hacq.
    unfold chatBuild. unfold mbind at 1, M_bind at 1, gets at 1.
    rewrite Hcolumn. cbv zeta. fold existing. fold model.
    unfold mbind at 1, M_bind at 1. rewrite E.
    unfold mbind, M_bind, mret, M_ret.
    destruct (acquireSession X input sc existing s1) as [s2 [p|e]];
      simpl in Hacq |- *; rewrite Hacq, Ht1; by rewrite <- !app_assoc.
Qed.

Lemma send_after_auth_error_starts_fresh_witness :
  in_forceNewSession Scenario.forcedInput = true
  ∧ ∃ (stored : list event) (pid : nat),
      trace (chatBuild Scenario.demoExternals Scenario.forcedInput
               (Scenario.okScript []) Scenario.stateWithA).1
      = stored
        ++ [EvProviderCleanup 1; EvSessionsDelete "sc1";
            EvProviderCreate pid Scenario.demoConfig;
            EvSessionsSet "sc1" pid].
Proof.
  destruct (send_after_auth_error_starts_fresh Scenario.firstSend None
              Scenario.authErrorChunk Scenario.clientWithKey
              Scenario.openController Scenario.demoExternals
              Scenario.forcedInput 0 (Scenario.okScript [])
              Scenario.stateWithA)
    as (Hforce & _ & Hcleanup).
  - reflexivity.
  - vm_compute. reflexivity.
  - split; [exact Hforce|].
    destruct (Hcleanup Scenario.sessionA (Some (VArr [])) eq_refl eq_refl)
      as (_ & stored & pid & _ & Htrace).
    exists stored, pid. exact Htrace.
Defined.

End WiringProperties.
